(** * Polymarket live tracker: a shallow embedding and its verification

    The development follows the JavaScript sources:
    - [winnerTracker.js] (class [PolymarketWinnerTracker]): the replay of the
      ERC-1155 [TransferSingle] log into a holder ledger and the winner record;
    - [marketTracker.js] (class [PolymarketTracker]): the request queue, the
      WebSocket reconnect schedule, the realtime callback fan-out and the
      market-resolution handler;
    - [index.js] (class [PolymarketApp]): the SSE broadcast.

    Conventions of the embedding.
    - A JavaScript [Number] that holds an integer is represented by that
      integer (a [Z]); every arithmetic result is rounded the way IEEE-754
      binary64 rounds it (module [JSNumber]); where a product can leave the
      range of binary64 the result may be [Infinity] (module [JSOverflow]).
    - A JavaScript [Map] or [Set] is an association list in insertion order
      (module [JSMap]); [set] on a present key keeps its position, [set] on
      an absent key appends, [delete] removes.
    - An [async] function returns its settled outcome; [await]ed collaborators
      (the RPC provider, axios, timers) are parameters of the model.
    - Wall-clock time is a logical clock in milliseconds. *)

From Stdlib Require Import ZArith NArith List String Ascii Bool Lia Sorted Permutation.
From Equations Require Import Equations.
Import ListNotations.
Local Open Scope Z_scope.

(** ** JavaScript numbers restricted to integers *)

Module JSNumber.

(** Largest magnitude up to which every integer is a binary64 value. *)
Definition MAX_SAFE : Z := 2 ^ 53.

(** Nearest multiple of [2^e] of a non-negative integer, ties to the even
    quotient (the binary64 rounding of an integer with more than 53 bits). *)
Definition round_half_even (e a : Z) : Z :=
  let q := Z.shiftr a e in
  let r := Z.land a (Z.ones e) in
  let half := 2 ^ (e - 1) in
  let q' := if r <? half then q
            else if half <? r then q + 1
            else if Z.even q then q else q + 1 in
  Z.shiftl q' e.

(** The binary64 value nearest to the integer [x]: [x] itself while 53 bits
    suffice, else [x] rounded to 53 significant bits. Overflow to [Infinity]
    is left out: sums of [uint256] amounts stay far below [2^1024]. *)
Definition to_number (x : Z) : Z :=
  let a := Z.abs x in
  if a <=? MAX_SAFE then x
  else Z.sgn x * round_half_even (Z.log2 a - 52) a.

(** [a + b] and [a - b] on numbers. *)
Definition add (a b : Z) : Z := to_number (a + b).
Definition sub (a b : Z) : Z := to_number (a - b).

(** [parseInt(value.toString())] for a [uint256] value printed in decimal. *)
Definition parseInt (value : N) : Z := to_number (Z.of_N value).

(** [x || 0] for the result of [Map.get]: [undefined] and [0] are falsy. *)
Definition or_zero (o : option Z) : Z :=
  match o with
  | Some v => v
  | None => 0
  end.

End JSNumber.

(** ** JavaScript numbers that may overflow *)

Module JSOverflow.

(** A number that is an integer, one of the two infinities, or [NaN]. *)
Inductive number : Type :=
| Finite (z : Z)
| PlusInfinity
| MinusInfinity
| NotANumber.

(** Magnitudes from [2^1024] on are beyond binary64. *)
Definition OVERFLOW : Z := 2 ^ 1024.

(** [Math.pow(2, k)] for an integer [k >= 0]. *)
Definition pow2 (k : N) : number :=
  if (k <? 1024)%N then Finite (2 ^ Z.of_N k) else PlusInfinity.

(** [a * p] for a binary64 integer [a] and a [p] that [pow2] returned:
    scaling by a power of two is exact until the product leaves the range,
    where it becomes an infinity; [0 * Infinity] is [NaN]. *)
Definition scale (a : Z) (p : number) : number :=
  match p with
  | Finite b =>
      if Z.abs (a * b) <? OVERFLOW then Finite (a * b)
      else if 0 <? a then PlusInfinity else MinusInfinity
  | PlusInfinity =>
      if 0 <? a then PlusInfinity
      else if a <? 0 then MinusInfinity
      else NotANumber
  | MinusInfinity =>
      if 0 <? a then MinusInfinity
      else if a <? 0 then PlusInfinity
      else NotANumber
  | NotANumber => NotANumber
  end.

End JSOverflow.

(** ** Insertion-ordered maps with string keys *)

Module JSMap.

Definition t (V : Type) : Type := list (string * V).

Definition empty {V : Type} : t V := [].

Fixpoint get {V : Type} (m : t V) (k : string) : option V :=
  match m with
  | [] => None
  | (k', v) :: m' => if String.eqb k k' then Some v else get m' k
  end.

Definition has {V : Type} (m : t V) (k : string) : bool :=
  match get m k with
  | Some _ => true
  | None => false
  end.

(** [m.set(k, v)]: overwrite in place, or append. *)
Fixpoint set {V : Type} (m : t V) (k : string) (v : V) : t V :=
  match m with
  | [] => [(k, v)]
  | (k', v') :: m' =>
      if String.eqb k k' then (k', v) :: m' else (k', v') :: set m' k v
  end.

(** [m.delete(k)]. *)
Fixpoint delete {V : Type} (m : t V) (k : string) : t V :=
  match m with
  | [] => []
  | (k', v') :: m' =>
      if String.eqb k k' then delete m' k else (k', v') :: delete m' k
  end.

Definition keys {V : Type} (m : t V) : list string := map fst m.
Definition values {V : Type} (m : t V) : list V := map snd m.
Definition entries {V : Type} (m : t V) : list (string * V) := m.
Definition size {V : Type} (m : t V) : Z := Z.of_nat (List.length m).

(** No key occurs twice: the representation invariant of a [Map]. *)
Definition wf {V : Type} (m : t V) : Prop := NoDup (keys m).

End JSMap.

(** ** winnerTracker.js *)

Module WinnerTracker.

(** [event.args] of a [TransferSingle] log entry of the watched position,
    with the block it was mined in. *)
Record TransferSingle : Type := {
  from : string;
  to : string;
  value : N;
  blockNumber : Z
}.

(** [ethers.ZeroAddress]. *)
Definition ZeroAddress : string :=
  "0x0000000000000000000000000000000000000000".

(** The arithmetic the ledger is computed with. [js] is what the source
    runs; [exact] is arithmetic on unbounded integers, used as the yardstick
    the source is compared with. *)
Record Arith : Type := {
  of_uint : N -> Z;
  plus : Z -> Z -> Z;
  minus : Z -> Z -> Z
}.

Definition js : Arith :=
  {| of_uint := JSNumber.parseInt; plus := JSNumber.add; minus := JSNumber.sub |}.

Definition exact : Arith :=
  {| of_uint := Z.of_N; plus := Z.add; minus := Z.sub |}.

Section Ledger.

Variable A : Arith.

(** Body of [for (const event of events)] in [buildHolderSnapshot]. *)
Definition applyEvent (holders : JSMap.t Z) (event : TransferSingle) : JSMap.t Z :=
  let amount := of_uint A (value event) in
  let holders1 :=
    if negb (String.eqb (from event) ZeroAddress) then
      let currentBalance := JSNumber.or_zero (JSMap.get holders (from event)) in
      let newBalance := minus A currentBalance amount in
      if newBalance <=? 0 then JSMap.delete holders (from event)
      else JSMap.set holders (from event) newBalance
    else holders in
  if negb (String.eqb (to event) ZeroAddress) then
    let currentBalance := JSNumber.or_zero (JSMap.get holders1 (to event)) in
    JSMap.set holders1 (to event) (plus A currentBalance amount)
  else holders1.

(** The inner loop over the events of one window. *)
Definition applyEvents (holders : JSMap.t Z) (events : list TransferSingle) : JSMap.t Z :=
  fold_left applyEvent events holders.

(** The final pass: [activeHolders] keeps the entries with [balance > 0]. *)
Definition activeHolders (holders : JSMap.t Z) : JSMap.t Z :=
  filter (fun entry => 0 <? snd entry) holders.

(** An empty ledger, every event applied in order, then the final pass. *)
Definition replay (events : list TransferSingle) : JSMap.t Z :=
  activeHolders (applyEvents JSMap.empty events).

End Ledger.

(** Outcome of an awaited call. *)
Inductive outcome (T : Type) : Type :=
| Fulfilled (v : T)
| Rejected (error : string).
Arguments Fulfilled {T} v.
Arguments Rejected {T} error.

(** [this.contract.queryFilter(filter, start, end)] for the fixed position. *)
Definition QueryFilter : Type := Z -> Z -> outcome (list TransferSingle).

(** The outer loop [for (start = fromBlock; start <= blockNumber; start +=
    chunkSize)]; a rejected query leaves the loop with the error. *)
Equations? windows (A : Arith) (queryFilter : QueryFilter) (chunkSize : positive)
  (blockNumber : Z) (start : Z) (holders : JSMap.t Z) : outcome (JSMap.t Z)
  by wf (Z.to_nat (blockNumber - start + 1)) lt :=
  windows A queryFilter chunkSize blockNumber start holders
    with Z_le_gt_dec start blockNumber := {
    | left _ =>
        let end_ := Z.min (start + Z.pos chunkSize - 1) blockNumber in
        match queryFilter start end_ with
        | Fulfilled events =>
            windows A queryFilter chunkSize blockNumber (start + Z.pos chunkSize)
              (applyEvents A holders events)
        | Rejected error => Rejected error
        end
    | right _ => Fulfilled holders }.
Proof. lia. Qed.

(** [chunkSize] of the source. *)
Definition chunkSize : positive := 10000%positive.

(** [buildHolderSnapshot(positionId, blockNumber)] with the window size as a
    parameter: the [try] block replays the windows from block 0 and returns
    the active holders, the [catch] block logs and returns [new Map()]. *)
Definition buildHolderSnapshotWith (A : Arith) (size : positive)
  (queryFilter : QueryFilter) (blockNumber : Z) : outcome (JSMap.t Z) :=
  match windows A queryFilter size blockNumber 0 JSMap.empty with
  | Fulfilled holders => Fulfilled (activeHolders holders)
  | Rejected _ => Fulfilled JSMap.empty
  end.

Definition buildHolderSnapshot (queryFilter : QueryFilter) (blockNumber : Z)
  : outcome (JSMap.t Z) :=
  buildHolderSnapshotWith js chunkSize queryFilter blockNumber.

(** The chain as a log: [queryFilter] answers with the entries of the
    requested block range, in log order, and never fails. *)
Definition inRange (start end_ : Z) (event : TransferSingle) : bool :=
  (start <=? blockNumber event) && (blockNumber event <=? end_).

Definition logQuery (log : list TransferSingle) : QueryFilter :=
  fun start end_ => Fulfilled (filter (inRange start end_) log).

(** A log is in chain order when block numbers never decrease. *)
Definition chainOrdered (log : list TransferSingle) : Prop :=
  StronglySorted (fun e1 e2 => blockNumber e1 <= blockNumber e2) log.

(** *** The winner record *)

Record Winner : Type := {
  address : string;
  winningTokens : Z;
  payoutUSDC : Z
}.

Record WinnerData : Type := {
  marketId : string;
  winningOutcome : string;
  positionId : string;
  resolutionBlock : Z;
  winners : list Winner;
  totalPayout : Z;
  winnerCount : Z;
  timestamp : string
}.

(** [Array.from(holders.values()).reduce((sum, balance) => sum + balance, 0)]. *)
Definition sumBalances (A : Arith) (holders : JSMap.t Z) : Z :=
  fold_left (plus A) (JSMap.values holders) 0.

(** [Array.from(holders.entries()).map(...)]: one winner per holder, paid
    one to one. *)
Definition winnersOf (holders : JSMap.t Z) : list Winner :=
  map (fun entry =>
         {| address := fst entry;
            winningTokens := snd entry;
            payoutUSDC := snd entry |})
      (JSMap.entries holders).

(** What [trackMarketWinners] awaits. In the source [getPositionId] is a
    placeholder that answers [null] for every market. *)
Record Provider : Type := {
  getPositionId : string -> string -> option string;
  getBlockNumber : outcome Z;
  queryFilter : string -> QueryFilter;
  clock : string
}.

(** [resolutionBlockNumber || await this.provider.getBlockNumber()]. *)
Definition resolutionBlockOf (p : Provider) (resolutionBlockNumber : option Z)
  : outcome Z :=
  match resolutionBlockNumber with
  | Some b => if b =? 0 then getBlockNumber p else Fulfilled b
  | None => getBlockNumber p
  end.

(** [trackMarketWinners(marketId, winningOutcome, resolutionBlockNumber)]:
    the value returned ([None] for [null]) and [this.marketWinners]
    afterwards. *)
Definition trackMarketWinners (p : Provider) (marketWinners : JSMap.t WinnerData)
  (marketId winningOutcome : string) (resolutionBlockNumber : option Z)
  : option WinnerData * JSMap.t WinnerData :=
  match getPositionId p marketId winningOutcome with
  | None => (None, marketWinners)
  | Some positionId =>
      if String.eqb positionId EmptyString then (None, marketWinners) else
      match resolutionBlockOf p resolutionBlockNumber with
      | Rejected _ => (None, marketWinners)
      | Fulfilled blockNumber =>
          match buildHolderSnapshot (queryFilter p positionId) blockNumber with
          | Rejected _ => (None, marketWinners)
          | Fulfilled holders =>
              let winnerData :=
                {| marketId := marketId;
                   winningOutcome := winningOutcome;
                   positionId := positionId;
                   resolutionBlock := blockNumber;
                   winners := winnersOf holders;
                   totalPayout := sumBalances js holders;
                   winnerCount := JSMap.size holders;
                   timestamp := clock p |} in
              (Some winnerData, JSMap.set marketWinners marketId winnerData)
          end
      end
  end.

(** *** Yardsticks for the ledger *)

(** Units credited to and debited from an address by a sequence of events. *)
Definition received (a : string) (events : list TransferSingle) : Z :=
  fold_right (fun e acc => (if String.eqb (to e) a then Z.of_N (value e) else 0) + acc)
    0 events.

Definition sent (a : string) (events : list TransferSingle) : Z :=
  fold_right (fun e acc => (if String.eqb (from e) a then Z.of_N (value e) else 0) + acc)
    0 events.

Definition net (a : string) (events : list TransferSingle) : Z :=
  received a events - sent a events.

(** All units moved by a sequence of events. *)
Definition volume (events : list TransferSingle) : Z :=
  fold_right (fun e acc => Z.of_N (value e) + acc) 0 events.

(** Every debit is covered: each sender other than the zero address has, by
    the events before ([history]), a net balance that pays the amount. *)
Fixpoint coveredAfter (history events : list TransferSingle) : bool :=
  match events with
  | [] => true
  | e :: later =>
      (String.eqb (from e) ZeroAddress || (Z.of_N (value e) <=? net (from e) history))
      && coveredAfter (history ++ [e]) later
  end.

Definition covered (events : list TransferSingle) : bool :=
  coveredAfter [] events.

(** No balance of the ledger is negative, respectively none is zero or
    negative. *)
Definition noNegative (holders : JSMap.t Z) : Prop :=
  forall a b, JSMap.get holders a = Some b -> 0 <= b.

Definition allPositive (holders : JSMap.t Z) : Prop :=
  forall a b, JSMap.get holders a = Some b -> 0 < b.

(** Every balance lies between zero and what its address was credited. *)
Definition creditBounded (events : list TransferSingle) (holders : JSMap.t Z) : Prop :=
  forall a b, JSMap.get holders a = Some b -> 0 <= b <= received a events.

(** Every address other than the zero address holds its net balance, and
    the zero address holds nothing. *)
Definition tracksNet (events : list TransferSingle) (holders : JSMap.t Z) : Prop :=
  JSMap.get holders ZeroAddress = None /\
  forall a, a <> ZeroAddress ->
    JSNumber.or_zero (JSMap.get holders a) = net a events.

(** The balances of a ledger added up as integers, and a function of the
    addresses added up over a list of them. *)
Definition totalOf (holders : JSMap.t Z) : Z :=
  fold_right Z.add 0 (JSMap.values holders).

Definition sumOver (f : string -> Z) (addresses : list string) : Z :=
  fold_right (fun a acc => f a + acc) 0 addresses.

End WinnerTracker.

(** ** marketTracker.js *)

Module MarketTracker.

(** *** The request queue ([makeRequest], [processQueue]) *)

(** A queued request; [caller] names the promise whose [resolve] and
    [reject] the queue entry carries. *)
Record Request : Type := {
  url : string;
  retries : Z;
  caller : nat
}.

(** What [axios.get] threw: [error.response?.status], [error.code] and
    [error.message]. *)
Record AxiosError : Type := {
  status : option Z;
  code : option string;
  message : string
}.

(** What the surroundings do during one turn of the worker: how long
    [axios.get] took and how it settled, and by how many milliseconds of
    [Date.now()] each of the two timers (the spacing wait and the pause
    before a retry) missed the delay it was set for: positive when it fired
    late, negative when it fired early. *)
Record Answer : Type := {
  latency : N;
  result : AxiosError + string;
  spacingLag : Z;
  pauseLag : Z
}.

(** The time that passes during [await new Promise(resolve =>
    setTimeout(resolve, ms))] when the timer misses its delay by [lag]; the
    clock does not run backwards. *)
Definition slept (ms lag : Z) : Z := Z.max 0 (ms + lag).

(** How the promise of a caller was settled. *)
Inductive Settlement : Type :=
| Resolved (who : nat) (data : string)
| RejectedWith (who : nat) (error : AxiosError).

Definition settledCaller (s : Settlement) : nat :=
  match s with
  | Resolved who _ => who
  | RejectedWith who _ => who
  end.

(** [this.rateLimits.delay] and the pause before a retry, in milliseconds. *)
Definition rateLimitsDelay : Z := 100.
Definition retryPause : Z := 2000.

Record Dispatcher : Type := {
  requestQueue : list Request;
  isProcessingQueue : bool;
  lastRequestTime : Z;
  now : Z;
  dispatched : list (Z * string);
  settled : list Settlement
}.

(** [retries > 0 && (error.response?.status === 429 || error.code ===
    'ECONNRESET')]. *)
Definition statusIs429 (e : AxiosError) : bool :=
  match status e with
  | Some s => s =? 429
  | None => false
  end.

Definition codeIsECONNRESET (e : AxiosError) : bool :=
  match code e with
  | Some c => String.eqb c "ECONNRESET"
  | None => false
  end.

Definition retryable (retries : Z) (e : AxiosError) : bool :=
  (0 <? retries) && (statusIs429 e || codeIsECONNRESET e).

(** One turn of the [while] loop for the request [req] just shifted off the
    queue [rest]. [arrived] are the requests other callers pushed while the
    turn was suspended in one of its [await]s; [answer] is what the network
    did with this dispatch. The spacing wait is one timer, after which the
    clock is read for [lastRequestTime] without a second look at the
    spacing. *)
Definition turn (d : Dispatcher) (req : Request) (rest : list Request)
  (arrived : list Request) (answer : Answer) : Dispatcher :=
  let timeSinceLastRequest := now d - lastRequestTime d in
  let started :=
    if timeSinceLastRequest <? rateLimitsDelay
    then now d + slept (rateLimitsDelay - timeSinceLastRequest) (spacingLag answer)
    else now d in
  let finished := started + Z.of_N (latency answer) in
  let sent := dispatched d ++ [(started, url req)] in
  match result answer with
  | inr data =>
      {| requestQueue := rest ++ arrived;
         isProcessingQueue := true;
         lastRequestTime := started;
         now := finished;
         dispatched := sent;
         settled := settled d ++ [Resolved (caller req) data] |}
  | inl error =>
      if retryable (retries req) error then
        {| requestQueue :=
             {| url := url req; retries := retries req - 1; caller := caller req |}
             :: (rest ++ arrived);
           isProcessingQueue := true;
           lastRequestTime := started;
           now := finished + slept retryPause (pauseLag answer);
           dispatched := sent;
           settled := settled d |}
      else
        {| requestQueue := rest ++ arrived;
           isProcessingQueue := true;
           lastRequestTime := started;
           now := finished;
           dispatched := sent;
           settled := settled d ++ [RejectedWith (caller req) error] |}
  end.

(** The surroundings of the worker, turn by turn. *)
Record Network : Type := {
  arrivals : nat -> list Request;
  axiosGet : nat -> string -> Answer
}.

(** The [while (this.requestQueue.length > 0)] loop, run for at most [fuel]
    turns, the first of which is turn number [k]; when the queue is found
    empty the worker clears [isProcessingQueue] and returns. *)
Fixpoint worker (net : Network) (fuel : nat) (k : nat) (d : Dispatcher) : Dispatcher :=
  match requestQueue d with
  | [] =>
      {| requestQueue := [];
         isProcessingQueue := false;
         lastRequestTime := lastRequestTime d;
         now := now d;
         dispatched := dispatched d;
         settled := settled d |}
  | req :: rest =>
      match fuel with
      | O => d
      | S fuel' =>
          worker net fuel' (S k)
            (turn d req rest (arrivals net k) (axiosGet net k (url req)))
      end
  end.

(** [processQueue()]: a no-op while a worker is active or the queue is
    empty, else the worker. *)
Definition processQueue (net : Network) (fuel : nat) (d : Dispatcher) : Dispatcher :=
  if isProcessingQueue d || (Nat.eqb (List.length (requestQueue d)) 0) then d
  else
    worker net fuel 0
      {| requestQueue := requestQueue d;
         isProcessingQueue := true;
         lastRequestTime := lastRequestTime d;
         now := now d;
         dispatched := dispatched d;
         settled := settled d |}.

(** [makeRequest(url, retries = 3)] on behalf of [caller]. *)
Definition makeRequest (net : Network) (fuel : nat) (d : Dispatcher)
  (url : string) (retries : Z) (caller : nat) : Dispatcher :=
  processQueue net fuel
    {| requestQueue :=
         requestQueue d ++ [{| url := url; retries := retries; caller := caller |}];
       isProcessingQueue := isProcessingQueue d;
       lastRequestTime := lastRequestTime d;
       now := now d;
       dispatched := dispatched d;
       settled := settled d |}.

(** The dispatcher as the constructor leaves it, at wall-clock time [t]. *)
Definition idle (t : Z) : Dispatcher :=
  {| requestQueue := [];
     isProcessingQueue := false;
     lastRequestTime := 0;
     now := t;
     dispatched := [];
     settled := [] |}.

(** Turns a request can still take: one per remaining retry, and the last. *)
Definition budget (req : Request) : nat := S (Z.to_nat (retries req)).

Definition totalBudget (queue : list Request) : nat :=
  fold_right (fun req n => (budget req + n)%nat) O queue.

(** The callers waiting in a queue, and the callers settled so far. *)
Definition callersOf (queue : list Request) : list nat := map caller queue.

Definition settledCallers (d : Dispatcher) : list nat :=
  map settledCaller (settled d).

(** The requests other callers push during the [n] turns from turn [k] on. *)
Definition arrivalsBetween (net : Network) (k n : nat) : list Request :=
  flat_map (arrivals net) (seq k n).


(** *** The request queue as the specification describes it *)

(** The dispatcher in the words of the specification, request by request
    instead of turn by turn. A request is sent; after a 429 answer or a
    reset connection it is sent again, as long as it has a retry left; the
    first other answer settles its caller. [serveRequest] gives the number
    of dispatches the request takes from turn [k] on, and the settlement. *)
Fixpoint serveRequest (net : Network) (retriesLeft : nat) (k : nat)
  (target : string) (who : nat) : nat * Settlement :=
  match result (axiosGet net k target) with
  | inr data => (1%nat, Resolved who data)
  | inl error =>
      match retriesLeft with
      | O => (1%nat, RejectedWith who error)
      | S fewer =>
          if statusIs429 error || codeIsECONNRESET error then
            let (more, outcome) := serveRequest net fewer (S k) target who in
            (S more, outcome)
          else (1%nat, RejectedWith who error)
      end
  end.

(** Requests are served one after the other in the order they were queued;
    what arrives while a request is served lines up behind the waiting
    ones. [servedInOrder net k pending outcomes turns]: serving [pending]
    from turn [k] on, until nobody waits, settles [outcomes] in this order
    and takes [turns] dispatches. *)
Inductive servedInOrder (net : Network) :
  nat -> list Request -> list Settlement -> nat -> Prop :=
| served_none (k : nat) : servedInOrder net k [] [] O
| served_next (k : nat) (req : Request) (rest : list Request)
    (used : nat) (outcome : Settlement) (outcomes : list Settlement) (turns : nat) :
    serveRequest net (Z.to_nat (retries req)) k (url req) (caller req)
      = (used, outcome) ->
    servedInOrder net (k + used) (rest ++ arrivalsBetween net k used) outcomes turns ->
    servedInOrder net k (req :: rest) (outcome :: outcomes) (used + turns).

(** Consecutive dispatch times are at least [gap] apart. *)
Fixpoint spacedBy (gap : Z) (times : list Z) : Prop :=
  match times with
  | [] => True
  | t1 :: later =>
      match later with
      | [] => True
      | t2 :: _ => t1 + gap <= t2
      end /\ spacedBy gap later
  end.

(** The clock has not run backwards past the last dispatch, and no dispatch
    on record is later than the one [lastRequestTime] remembers. *)
Definition clockConsistent (d : Dispatcher) : Prop :=
  lastRequestTime d <= now d /\
  Forall (fun sent => fst sent <= lastRequestTime d) (dispatched d).

(** *** The WebSocket reconnect schedule *)

(** The counter starts at zero and is only incremented or reset to zero;
    the two settings are the integers [parseInt] read from the environment,
    or 10 and 5000. *)
Record Channel : Type := {
  wsReconnectAttempts : N;
  maxReconnectAttempts : Z;
  reconnectDelay : Z;
  timers : list JSOverflow.number;
  gaveUp : nat
}.

(** [scheduleReconnect()]. [timers] collects the delays handed to
    [setTimeout], [gaveUp] counts the "Giving up" log lines. The counter is
    a number, so [++] rounds; the product [reconnectDelay * Math.pow(2, n -
    1)] scales by a power of two, which binary64 does without rounding until
    it overflows to [Infinity]. *)
Definition scheduleReconnect (c : Channel) : Channel :=
  if maxReconnectAttempts c <=? Z.of_N (wsReconnectAttempts c) then
    {| wsReconnectAttempts := wsReconnectAttempts c;
       maxReconnectAttempts := maxReconnectAttempts c;
       reconnectDelay := reconnectDelay c;
       timers := timers c;
       gaveUp := S (gaveUp c) |}
  else
    let attempts := Z.to_N (JSNumber.add (Z.of_N (wsReconnectAttempts c)) 1) in
    let delay :=
      JSOverflow.scale (reconnectDelay c)
        (JSOverflow.pow2 (Z.to_N (JSNumber.sub (Z.of_N attempts) 1))) in
    {| wsReconnectAttempts := attempts;
       maxReconnectAttempts := maxReconnectAttempts c;
       reconnectDelay := reconnectDelay c;
       timers := timers c ++ [delay];
       gaveUp := gaveUp c |}.

(** What the socket reports to the handlers [connectWebSocket] installs. *)
Inductive SocketEvent : Type :=
| OnOpen
| OnClose
| OnError.

Definition handleSocketEvent (c : Channel) (ev : SocketEvent) : Channel :=
  match ev with
  | OnOpen =>
      {| wsReconnectAttempts := 0%N;
         maxReconnectAttempts := maxReconnectAttempts c;
         reconnectDelay := reconnectDelay c;
         timers := timers c;
         gaveUp := gaveUp c |}
  | OnClose => scheduleReconnect c
  | OnError => scheduleReconnect c
  end.

Definition isDisconnect (ev : SocketEvent) : bool :=
  match ev with
  | OnOpen => false
  | OnClose => true
  | OnError => true
  end.

(** The channel as the constructor leaves it. *)
Definition freshChannel (maxAttempts baseDelay : Z) : Channel :=
  {| wsReconnectAttempts := 0%N;
     maxReconnectAttempts := maxAttempts;
     reconnectDelay := baseDelay;
     timers := [];
     gaveUp := O |}.

(** *** Markets, events and the realtime fan-out *)

(** A market as [parseEventData] builds it; [details] holds the properties
    the handlers below never touch. *)
Record Market : Type := {
  id : string;
  question : string;
  marketStatus : string;
  resolvedAt : option string;
  details : list (string * string)
}.

Record EventData : Type := {
  title : string;
  markets : list Market;
  activeMarketsCount : Z;
  resolvedMarketsCount : Z;
  eventDetails : list (string * string)
}.

(** The [market_resolved] update handed to the callbacks. *)
Record RealtimeUpdate : Type := {
  eventId : string;
  marketId : string;
  market : Market;
  eventTitle : string;
  eventActiveMarketsCount : Z;
  eventResolvedMarketsCount : Z;
  timestamp : string
}.

(** A registered callback: the function object ([callbackId] stands for its
    identity) and whether calling it with an update throws, and with which
    [error.message]. *)
Record Callback : Type := {
  callbackId : nat;
  throws : RealtimeUpdate -> option string
}.

(** One call of a callback by the fan-out. *)
Record Delivery : Type := {
  receiver : nat;
  payload : RealtimeUpdate
}.

Record State : Type := {
  active : JSMap.t EventData;
  resolved : JSMap.t EventData;
  realtimeCallbacks : list Callback;
  deliveries : list Delivery;
  callbackErrors : list string;
  saves : list (JSMap.t EventData * JSMap.t EventData)
}.

Definition sameCallback (a b : Callback) : bool :=
  Nat.eqb (callbackId a) (callbackId b).

(** [addRealtimeCallback]: [Set.add] appends an object the set does not
    hold yet. *)
Definition addRealtimeCallback (s : State) (callback : Callback) : State :=
  {| active := active s;
     resolved := resolved s;
     realtimeCallbacks :=
       if existsb (sameCallback callback) (realtimeCallbacks s)
       then realtimeCallbacks s
       else realtimeCallbacks s ++ [callback];
     deliveries := deliveries s;
     callbackErrors := callbackErrors s;
     saves := saves s |}.

(** [removeRealtimeCallback]: [Set.delete]. *)
Definition removeRealtimeCallback (s : State) (callback : Callback) : State :=
  {| active := active s;
     resolved := resolved s;
     realtimeCallbacks :=
       filter (fun c => negb (sameCallback callback c)) (realtimeCallbacks s);
     deliveries := deliveries s;
     callbackErrors := callbackErrors s;
     saves := saves s |}.

(** Body of the loop of [notifyRealtimeUpdate]: call the callback; when it
    throws, log the message. *)
Definition notifyOne (data : RealtimeUpdate) (s : State) (callback : Callback) : State :=
  {| active := active s;
     resolved := resolved s;
     realtimeCallbacks := realtimeCallbacks s;
     deliveries :=
       deliveries s ++ [{| receiver := callbackId callback; payload := data |}];
     callbackErrors :=
       match throws callback data with
       | Some msg => callbackErrors s ++ [msg]
       | None => callbackErrors s
       end;
     saves := saves s |}.

(** [notifyRealtimeUpdate(data)]. *)
Definition notifyRealtimeUpdate (s : State) (data : RealtimeUpdate) : State :=
  fold_left (notifyOne data) (realtimeCallbacks s) s.

(** [markets.findIndex(m => m.id === marketId)]; [None] stands for -1. *)
Fixpoint findIndex (ms : list Market) (marketId : string) : option nat :=
  match ms with
  | [] => None
  | m :: ms' =>
      if String.eqb (id m) marketId then Some O
      else option_map S (findIndex ms' marketId)
  end.

(** The assignments to [market.status] and [market.resolvedAt]. *)
Definition resolveMarket (m : Market) (at_ : string) : Market :=
  {| id := id m;
     question := question m;
     marketStatus := "resolved";
     resolvedAt := Some at_;
     details := details m |}.

(** [eventData.markets[i]] replaced. *)
Fixpoint replaceAt (ms : list Market) (i : nat) (m' : Market) : list Market :=
  match ms, i with
  | [], _ => []
  | _ :: ms', O => m' :: ms'
  | m :: ms', S j => m :: replaceAt ms' j m'
  end.

(** The event after the market at index [i] resolved: the two counters move
    by one. *)
Definition resolveInEvent (e : EventData) (i : nat) (m' : Market) : EventData :=
  {| title := title e;
     markets := replaceAt (markets e) i m';
     activeMarketsCount := activeMarketsCount e - 1;
     resolvedMarketsCount := resolvedMarketsCount e + 1;
     eventDetails := eventDetails e |}.

(** Filler for [markets[i]] out of range; [findIndex] never asks for it. *)
Definition noMarket : Market :=
  {| id := EmptyString; question := EmptyString; marketStatus := EmptyString;
     resolvedAt := None; details := [] |}.

(** The scan [for (const [eventId, eventData] of this.events.active)] up to
    its [break]: the first event that holds the market is updated in place;
    the result carries the new map and the update to send. *)
Fixpoint resolveFirst (evs : JSMap.t EventData) (marketId : string)
  (at_ sentAt : string) : option (JSMap.t EventData * RealtimeUpdate) :=
  match evs with
  | [] => None
  | (eventId, eventData) :: evs' =>
      match findIndex (markets eventData) marketId with
      | Some i =>
          let market' := resolveMarket (nth i (markets eventData) noMarket) at_ in
          let eventData' := resolveInEvent eventData i market' in
          Some ((eventId, eventData') :: evs',
                {| eventId := eventId;
                   marketId := marketId;
                   market := market';
                   eventTitle := title eventData';
                   eventActiveMarketsCount := activeMarketsCount eventData';
                   eventResolvedMarketsCount := resolvedMarketsCount eventData';
                   timestamp := sentAt |})
      | None =>
          match resolveFirst evs' marketId at_ sentAt with
          | Some (evs'', update) => Some ((eventId, eventData) :: evs'', update)
          | None => None
          end
      end
  end.

(** [saveData()]: the two maps as they are written out. *)
Definition saveData (s : State) : State :=
  {| active := active s;
     resolved := resolved s;
     realtimeCallbacks := realtimeCallbacks s;
     deliveries := deliveries s;
     callbackErrors := callbackErrors s;
     saves := saves s ++ [(active s, resolved s)] |}.

(** [handleMarketResolution(marketId, data)]; [at_] and [sentAt] are the two
    readings of [new Date().toISOString()]. *)
Definition handleMarketResolution (s : State) (marketId : string)
  (at_ sentAt : string) : State :=
  match resolveFirst (active s) marketId at_ sentAt with
  | Some (active', update) =>
      saveData
        (notifyRealtimeUpdate
           {| active := active';
              resolved := resolved s;
              realtimeCallbacks := realtimeCallbacks s;
              deliveries := deliveries s;
              callbackErrors := callbackErrors s;
              saves := saves s |}
           update)
  | None => s
  end.

End MarketTracker.

(** ** index.js *)

Module App.

(** An SSE client: the response object ([clientId] stands for its identity)
    and whether [client.write(message)] throws. *)
Record Client : Type := {
  clientId : nat;
  writeThrows : string -> option string
}.

(** One turn of the loop of [broadcastToClients], over the clients not yet
    visited: a client whose [write] throws is deleted from [sseClients]. The
    result is the set after the loop and the clients written to. *)
Fixpoint broadcastToClients (sseClients : list Client) (message : string)
  : list Client * list nat :=
  match sseClients with
  | [] => ([], [])
  | client :: others =>
      let (kept, written) := broadcastToClients others message in
      match writeThrows client message with
      | Some _ => (kept, clientId client :: written)
      | None => (client :: kept, clientId client :: written)
      end
  end.

End App.

(** ** Concrete inputs used by the examples *)

Module Sample.

Import WinnerTracker.

Definition alice : string := "0x00000000000000000000000000000000000000A1".
Definition bob : string := "0x00000000000000000000000000000000000000B2".

Definition transfer (sender recipient : string) (amount : N) (block : Z)
  : TransferSingle :=
  {| from := sender; to := recipient; value := amount; blockNumber := block |}.

Definition mint (recipient : string) (amount : N) (block : Z) : TransferSingle :=
  transfer ZeroAddress recipient amount block.

(** A mint of 50 to alice, then alice pays bob 20 and 30. *)
Definition tradedOut : list TransferSingle :=
  [mint alice 50 1; transfer alice bob 20 12000; transfer alice bob 30 25000].

(** alice sends 10 she does not hold, then is minted 20. *)
Definition overdraft : list TransferSingle :=
  [transfer alice bob 10 1; mint alice 20 2].

(** A mint of zero units. *)
Definition zeroMint : list TransferSingle := [mint alice 0 1].

(** A mint of [2^53 + 1] units. *)
Definition hugeMint : list TransferSingle := [mint alice 9007199254740993 1].

(** A provider that delivers the first window and rejects the second. *)
Definition secondWindowFails : QueryFilter :=
  fun start end_ =>
    if start =? 10000 then Rejected "timeout" else logQuery tradedOut start end_.

(** A tracker whose position lookup is implemented, over that provider. *)
Definition flakyProvider : Provider :=
  {| getPositionId := fun _ _ => Some "7"%string;
     getBlockNumber := Fulfilled 30000;
     queryFilter := fun _ => secondWindowFails;
     clock := "2024-01-01T00:00:00.000Z" |}.

(** Three requests; the network answers the first with 429 twice, resets
    the connection of the second for good, and serves the third. *)
Definition threeRequests : list MarketTracker.Request :=
  [ {| MarketTracker.url := "/events"; MarketTracker.retries := 3; MarketTracker.caller := 1%nat |};
    {| MarketTracker.url := "/markets"; MarketTracker.retries := 1; MarketTracker.caller := 2%nat |};
    {| MarketTracker.url := "/tags"; MarketTracker.retries := 3; MarketTracker.caller := 3%nat |} ].

Definition tooManyRequests : MarketTracker.AxiosError :=
  {| MarketTracker.status := Some 429; MarketTracker.code := None;
     MarketTracker.message := "Request failed with status code 429" |}.

Definition connectionReset : MarketTracker.AxiosError :=
  {| MarketTracker.status := None; MarketTracker.code := Some "ECONNRESET"%string;
     MarketTracker.message := "socket hang up" |}.

Definition timedOut : MarketTracker.AxiosError :=
  {| MarketTracker.status := None; MarketTracker.code := Some "ECONNABORTED"%string;
     MarketTracker.message := "timeout of 30000ms exceeded" |}.

Definition moodyNetwork : MarketTracker.Network :=
  {| MarketTracker.arrivals := fun _ => [];
     MarketTracker.axiosGet := fun k target =>
       {| MarketTracker.latency := 30;
          MarketTracker.result :=
            if String.eqb target "/events" then
              if (k <? 2)%nat then inl tooManyRequests else inr "[events]"%string
            else if String.eqb target "/markets" then inl connectionReset
            else inr "[tags]"%string;
          MarketTracker.spacingLag := 4;
          MarketTracker.pauseLag := 1 |} |}.

(** The dispatcher with the three requests queued, at clock 1000. *)
Definition loaded : MarketTracker.Dispatcher :=
  {| MarketTracker.requestQueue := threeRequests;
     MarketTracker.isProcessingQueue := false;
     MarketTracker.lastRequestTime := 0;
     MarketTracker.now := 1000;
     MarketTracker.dispatched := [];
     MarketTracker.settled := [] |}.

(** Two callbacks: the first throws on every update, the second never. *)
Definition thrower : MarketTracker.Callback :=
  {| MarketTracker.callbackId := 1%nat;
     MarketTracker.throws := fun _ => Some "write after end"%string |}.

Definition listener : MarketTracker.Callback :=
  {| MarketTracker.callbackId := 2%nat; MarketTracker.throws := fun _ => None |}.

(** The same two as SSE clients of the application. *)
Definition deadClient : App.Client :=
  {| App.clientId := 1%nat; App.writeThrows := fun _ => Some "write after end"%string |}.

Definition liveClient : App.Client :=
  {| App.clientId := 2%nat; App.writeThrows := fun _ => None |}.

(** One active event with two open markets, one resolved event, and the two
    callbacks registered. *)
Definition marketA : MarketTracker.Market :=
  {| MarketTracker.id := "m-1"; MarketTracker.question := "Will it rain?";
     MarketTracker.marketStatus := "active"; MarketTracker.resolvedAt := None;
     MarketTracker.details := [("slug"%string, "rain"%string)] |}.

Definition marketB : MarketTracker.Market :=
  {| MarketTracker.id := "m-2"; MarketTracker.question := "Will it snow?";
     MarketTracker.marketStatus := "active"; MarketTracker.resolvedAt := None;
     MarketTracker.details := [("slug"%string, "snow"%string)] |}.

Definition weather : MarketTracker.EventData :=
  {| MarketTracker.title := "Weather"; MarketTracker.markets := [marketA; marketB];
     MarketTracker.activeMarketsCount := 2; MarketTracker.resolvedMarketsCount := 0;
     MarketTracker.eventDetails := [] |}.

Definition election : MarketTracker.EventData :=
  {| MarketTracker.title := "Election"; MarketTracker.markets := [];
     MarketTracker.activeMarketsCount := 0; MarketTracker.resolvedMarketsCount := 0;
     MarketTracker.eventDetails := [] |}.

Definition tracking : MarketTracker.State :=
  {| MarketTracker.active := [("e-0"%string, election); ("e-1"%string, weather)];
     MarketTracker.resolved := [("e-9"%string, election)];
     MarketTracker.realtimeCallbacks := [thrower; listener];
     MarketTracker.deliveries := [];
     MarketTracker.callbackErrors := [];
     MarketTracker.saves := [] |}.

Definition update1 : MarketTracker.RealtimeUpdate :=
  {| MarketTracker.eventId := "e-1"; MarketTracker.marketId := "m-1"; MarketTracker.market := marketA;
     MarketTracker.eventTitle := "Weather"; MarketTracker.eventActiveMarketsCount := 1;
     MarketTracker.eventResolvedMarketsCount := 1;
     MarketTracker.timestamp := "2024-01-01T00:00:00.000Z" |}.

Definition update2 : MarketTracker.RealtimeUpdate :=
  {| MarketTracker.eventId := "e-1"; MarketTracker.marketId := "m-2"; MarketTracker.market := marketB;
     MarketTracker.eventTitle := "Weather"; MarketTracker.eventActiveMarketsCount := 0;
     MarketTracker.eventResolvedMarketsCount := 2;
     MarketTracker.timestamp := "2024-01-02T00:00:00.000Z" |}.

End Sample.

(** ** winnerTracker.js: the queries over the filed records *)

Module WinnerQueries.

Import WinnerTracker.

(** [getMarketWinners(marketId)]; [None] stands for [null]. *)
Definition getMarketWinners (marketWinners : JSMap.t WinnerData) (marketId : string)
  : option WinnerData :=
  JSMap.get marketWinners marketId.

(** [String.prototype.toLowerCase] on ASCII text, which is what an address
    is. *)
Definition lowerAscii (c : ascii) : ascii :=
  let n := nat_of_ascii c in
  if (65 <=? n)%nat && (n <=? 90)%nat then ascii_of_nat (n + 32) else c.

Fixpoint toLowerCase (s : string) : string :=
  match s with
  | EmptyString => EmptyString
  | String c rest => String (lowerAscii c) (toLowerCase rest)
  end.

(** What [verifyWinnerPayout] answers: [{ verified: false, reason }] or
    [{ verified: true, winningTokens, payoutUSDC, marketId, winningOutcome }]. *)
Inductive Verification : Type :=
| NotVerified (reason : string)
| Verified (winningTokens payoutUSDC : Z) (marketId winningOutcome : string).

Definition sameAddress (address : string) (w : Winner) : bool :=
  String.eqb (toLowerCase (WinnerTracker.address w)) (toLowerCase address).

(** [verifyWinnerPayout(marketId, address)]. *)
Definition verifyWinnerPayout (marketWinners : JSMap.t WinnerData)
  (marketId address : string) : Verification :=
  match JSMap.get marketWinners marketId with
  | None => NotVerified "Market winner data not found"
  | Some winnerData =>
      match find (sameAddress address) (winners winnerData) with
      | None => NotVerified "Address not found in winners list"
      | Some winner =>
          Verified (winningTokens winner) (payoutUSDC winner) marketId
            (winningOutcome winnerData)
      end
  end.

(** An element of [allWinners]: [{ ...winner, marketId, winningOutcome }]. *)
Record RankedWinner : Type := {
  winner : Winner;
  ofMarket : string;
  ofOutcome : string
}.

Definition payout (r : RankedWinner) : Z := payoutUSDC (winner r).

(** The two nested loops of [getTopWinners]. *)
Definition allWinners (marketWinners : JSMap.t WinnerData) : list RankedWinner :=
  flat_map
    (fun entry =>
       map (fun w => {| winner := w;
                        ofMarket := fst entry;
                        ofOutcome := winningOutcome (snd entry) |})
           (winners (snd entry)))
    marketWinners.

(** [.sort((a, b) => b.payoutUSDC - a.payoutUSDC)]: the sort of an array is
    stable, so with this comparator it is the one arrangement by falling
    payout that keeps entries of equal payout in their order. Insertion
    from the right builds it. *)
Fixpoint insertByPayout (x : RankedWinner) (sorted : list RankedWinner)
  : list RankedWinner :=
  match sorted with
  | [] => [x]
  | y :: rest =>
      if payout y <=? payout x then x :: y :: rest
      else y :: insertByPayout x rest
  end.

Definition sortByPayout (l : list RankedWinner) : list RankedWinner :=
  fold_right insertByPayout [] l.

(** An entry never follows one that is paid less. *)
Definition fallingPayout (a b : RankedWinner) : Prop := payout b <= payout a.

(** [array.slice(0, limit)]: a negative [limit] counts from the end. *)
Definition slice0 {T : Type} (l : list T) (limit : Z) : list T :=
  if limit <? 0
  then firstn (Z.to_nat (Z.max 0 (Z.of_nat (List.length l) + limit))) l
  else firstn (Z.to_nat limit) l.

(** [getTopWinners(limit = 10)]. *)
Definition getTopWinners (marketWinners : JSMap.t WinnerData) (limit : Z)
  : list RankedWinner :=
  slice0 (sortByPayout (allWinners marketWinners)) limit.

(** The object [getWinnerStats] returns. [averageWinnerPayout] is the
    binary64 quotient [totalPayouts / totalWinners], or [0] without
    winners; the model keeps the two operands of the division. *)
Record WinnerStats : Type := {
  totalMarketsTracked : Z;
  totalWinners : Z;
  totalPayouts : Z;
  averageOperands : option (Z * Z);
  topWinner : option RankedWinner
}.

(** [getWinnerStats()]. *)
Definition getWinnerStats (marketWinners : JSMap.t WinnerData) : WinnerStats :=
  let winnersSum :=
    fold_left (fun acc data => JSNumber.add acc (winnerCount data))
      (JSMap.values marketWinners) 0 in
  let payoutsSum :=
    fold_left (fun acc data => JSNumber.add acc (totalPayout data))
      (JSMap.values marketWinners) 0 in
  {| totalMarketsTracked := JSMap.size marketWinners;
     totalWinners := winnersSum;
     totalPayouts := payoutsSum;
     averageOperands :=
       if 0 <? winnersSum then Some (payoutsSum, winnersSum) else None;
     topWinner := hd_error (getTopWinners marketWinners 1) |}.

(** [formatAddress(address)]: the first six characters, three dots, the
    last four. *)
Definition sliceLast (n : nat) (s : string) : string :=
  substring (String.length s - n) n s.

Definition formatAddress (address : string) : string :=
  (substring 0 6 address ++ "..." ++ sliceLast 4 address)%string.

(** Units minted and burnt by a sequence of events. *)
Definition minted (events : list TransferSingle) : Z := sent ZeroAddress events.
Definition burnt (events : list TransferSingle) : Z := received ZeroAddress events.

(** A record as [trackMarketWinners] files it. *)
Definition wellFormedRecord (record : WinnerData) : Prop :=
  winnerCount record = Z.of_nat (List.length (winners record)) /\
  NoDup (map address (winners record)) /\
  forall w, In w (winners record) ->
    payoutUSDC w = winningTokens w /\ 0 < winningTokens w /\
    address w <> ZeroAddress.

End WinnerQueries.

(** ** marketTracker.js: polling the events API *)

Module Polling.

Import MarketTracker.

(** A market and an event as the API delivers them, cut down to what the
    code below looks at: [closed], the identifiers, and for an event whether
    [markets] is present and whether [new Date(event.end_date) >= octDate]
    holds. All other properties travel in [rawDetails] and
    [rawEventDetails]. *)
Record RawMarket : Type := {
  rawId : string;
  rawQuestion : string;
  closed : bool;
  rawDetails : list (string * string)
}.

Record RawEvent : Type := {
  eventKey : string;
  rawTitle : string;
  rawMarkets : option (list RawMarket);
  eventClosed : bool;
  endsSinceCutoff : bool;
  rawEventDetails : list (string * string)
}.

(** The map callback of [parseEventData]: [status] is ['resolved'] for a
    closed market and ['active'] otherwise. *)
Definition parseMarket (market : RawMarket) : Market :=
  {| id := rawId market;
     question := rawQuestion market;
     marketStatus := if closed market then "resolved" else "active";
     resolvedAt := None;
     details := rawDetails market |}.

Definition hasStatus (status : string) (m : Market) : bool :=
  String.eqb (marketStatus m) status.

(** [markets.filter(m => m.status === status).length]. *)
Definition countStatus (status : string) (ms : list Market) : Z :=
  Z.of_nat (List.length (filter (hasStatus status) ms)).

(** [parseEventData(event)], for the properties [EventData] keeps;
    [event.markets || []] is the list of markets. *)
Definition parseEventData (event : RawEvent) : EventData :=
  let markets :=
    map parseMarket
      match rawMarkets event with
      | Some ms => ms
      | None => []
      end in
  {| title := rawTitle event;
     markets := markets;
     activeMarketsCount := countStatus "active" markets;
     resolvedMarketsCount := countStatus "resolved" markets;
     eventDetails := rawEventDetails event |}.

(** The two counters of an event say how many of its markets are active
    and how many are resolved. *)
Definition countersAgree (e : EventData) : Prop :=
  activeMarketsCount e = countStatus "active" (markets e) /\
  resolvedMarketsCount e = countStatus "resolved" (markets e).

(** [fetchEvents(options)] as the polling loops see it: the page at an
    offset, and [[]] when the request was rejected. *)
Definition FetchEvents : Type := Z -> list RawEvent.

(** The counters [newEvents] and [updatedEvents]. *)
Record Tally : Type := {
  newCount : Z;
  updatedCount : Z
}.

(** Body of [for (const event of events)] in [trackActiveEvents]. *)
Definition trackOne (acc : JSMap.t EventData * Tally) (event : RawEvent)
  : JSMap.t EventData * Tally :=
  let (active, tally) := acc in
  let eventData := parseEventData event in
  let tally' :=
    if JSMap.has active (eventKey event)
    then {| newCount := newCount tally; updatedCount := updatedCount tally + 1 |}
    else {| newCount := newCount tally + 1; updatedCount := updatedCount tally |} in
  (JSMap.set active (eventKey event) eventData, tally').

Definition trackBatch (acc : JSMap.t EventData * Tally) (events : list RawEvent)
  : JSMap.t EventData * Tally :=
  fold_left trackOne events acc.

(** The [while (hasMore)] loop of [trackActiveEvents], for at most [fuel]
    pages: an empty page ends it, a page of fewer than 100 events is the
    last one, and the offset moves on by the number of events read. *)
Fixpoint trackActivePages (fetchEvents : FetchEvents) (fuel : nat) (offset : Z)
  (acc : JSMap.t EventData * Tally) : JSMap.t EventData * Tally :=
  match fuel with
  | O => acc
  | S fuel' =>
      match fetchEvents offset with
      | [] => acc
      | first :: others =>
          let events := first :: others in
          let acc' := trackBatch acc events in
          let offset' := offset + Z.of_nat (List.length events) in
          if Z.of_nat (List.length events) <? 100 then acc'
          else trackActivePages fetchEvents fuel' offset' acc'
      end
  end.

(** [trackActiveEvents()]: [events.active] afterwards, and the counters. *)
Definition trackActiveEvents (fetchEvents : FetchEvents) (fuel : nat)
  (active : JSMap.t EventData) : JSMap.t EventData * Tally :=
  trackActivePages fetchEvents fuel 0 (active, {| newCount := 0; updatedCount := 0 |}).

(** The events the loop reads, page after page. *)
Fixpoint pagesRead (fetchEvents : FetchEvents) (fuel : nat) (offset : Z)
  : list RawEvent :=
  match fuel with
  | O => []
  | S fuel' =>
      match fetchEvents offset with
      | [] => []
      | first :: others =>
          let events := first :: others in
          if Z.of_nat (List.length events) <? 100 then events
          else events
               ++ pagesRead fetchEvents fuel' (offset + Z.of_nat (List.length events))
      end
  end.

(** The two maps [events.active] and [events.resolved]. *)
Record Events : Type := {
  activeEvents : JSMap.t EventData;
  resolvedEvents : JSMap.t EventData
}.

(** Body of [for (const event of events)] in [trackResolvedMarkets]: an
    event that ended since the cutoff date, has markets and parses as
    resolved is filed under [resolved] and taken out of [active]. *)
Definition resolveOne (acc : Events * Tally) (event : RawEvent) : Events * Tally :=
  let (events, tally) := acc in
  match rawMarkets event with
  | Some _ =>
      if endsSinceCutoff event && eventClosed event then
        let eventData := parseEventData event in
        let tally' :=
          if JSMap.has (resolvedEvents events) (eventKey event)
          then {| newCount := newCount tally; updatedCount := updatedCount tally + 1 |}
          else {| newCount := newCount tally + 1; updatedCount := updatedCount tally |} in
        ({| activeEvents :=
              if JSMap.has (activeEvents events) (eventKey event)
              then JSMap.delete (activeEvents events) (eventKey event)
              else activeEvents events;
            resolvedEvents :=
              JSMap.set (resolvedEvents events) (eventKey event) eventData |},
         tally')
      else acc
  | None => acc
  end.

Definition resolveBatch (acc : Events * Tally) (events : list RawEvent)
  : Events * Tally :=
  fold_left resolveOne events acc.

(** The [while (hasMore)] loop of [trackResolvedMarkets]. *)
Fixpoint trackResolvedPages (fetchEvents : FetchEvents) (fuel : nat) (offset : Z)
  (acc : Events * Tally) : Events * Tally :=
  match fuel with
  | O => acc
  | S fuel' =>
      match fetchEvents offset with
      | [] => acc
      | first :: others =>
          let events := first :: others in
          let acc' := resolveBatch acc events in
          let offset' := offset + Z.of_nat (List.length events) in
          if Z.of_nat (List.length events) <? 100 then acc'
          else trackResolvedPages fetchEvents fuel' offset' acc'
      end
  end.

(** [trackResolvedMarkets()]. *)
Definition trackResolvedMarkets (fetchEvents : FetchEvents) (fuel : nat)
  (events : Events) : Events * Tally :=
  trackResolvedPages fetchEvents fuel 0 (events, {| newCount := 0; updatedCount := 0 |}).

(** The event is one [trackResolvedMarkets] files: it has markets, ended
    since the cutoff date and is closed. *)
Definition qualifies (event : RawEvent) : bool :=
  match rawMarkets event with
  | Some _ => endsSinceCutoff event && eventClosed event
  | None => false
  end.

(** No event is filed as active and as resolved at once. *)
Definition disjointMaps (events : Events) : Prop :=
  forall k, JSMap.has (activeEvents events) k = true ->
            JSMap.has (resolvedEvents events) k = false.

End Polling.

(** ** index.js: the set of SSE clients *)

Module Sse.

Import App.

Definition sameClient (a b : Client) : bool := Nat.eqb (clientId a) (clientId b).

(** [handleSSE(req, res)]: the greeting is written first; when that write
    throws, the handler is left before [this.sseClients.add(res)]. The
    greeting line is a parameter. *)
Definition handleSSE (greeting : string) (sseClients : list Client) (res : Client)
  : list Client :=
  match writeThrows res greeting with
  | Some _ => sseClients
  | None =>
      if existsb (sameClient res) sseClients then sseClients
      else sseClients ++ [res]
  end.

(** The [close] and [error] handlers of the request: [sseClients.delete(res)]. *)
Definition onClientGone (sseClients : list Client) (res : Client) : list Client :=
  filter (fun c => negb (sameClient res c)) sseClients.

End Sse.

(** ** index.js: the [/winners] endpoint *)

Module Api.

Import WinnerTracker WinnerQueries.

(** What is handed to [JSON.stringify] for the response. *)
Inductive Body : Type :=
| RecordBody (record : WinnerData)
| TopBody (topWinners : list RankedWinner) (count limit : Z)
| ErrorBody (error : string).

Record Response : Type := {
  statusCode : Z;
  body : Body
}.

(** [parseInt(query.limit) || 1000], given what [parseInt] made of the
    parameter ([None] for [NaN]): [NaN] and [0] are falsy. *)
Definition limitOf (parsed : option Z) : Z :=
  match parsed with
  | Some z => if z =? 0 then 1000 else z
  | None => 1000
  end.

(** [handleWinners(res, query)]; a missing or empty [marketId] is falsy. *)
Definition handleWinners (marketWinners : JSMap.t WinnerData)
  (marketId : option string) (parsedLimit : option Z) : Response :=
  let limit := limitOf parsedLimit in
  let top :=
    let topWinners := getTopWinners marketWinners limit in
    {| statusCode := 200;
       body := TopBody topWinners (Z.of_nat (List.length topWinners)) limit |} in
  match marketId with
  | Some market =>
      if String.eqb market EmptyString then top
      else
        match getMarketWinners marketWinners market with
        | None => {| statusCode := 404; body := ErrorBody "Market winners not found" |}
        | Some winners => {| statusCode := 200; body := RecordBody winners |}
        end
  | None => top
  end.

(** What [handleTrackWinners] answers at once: status 400 when [marketId]
    or [outcome] is missing or empty, else the note that tracking was
    started. The tracking itself runs after the answer. *)
Inductive TrackAnswer : Type :=
| MissingParameters
| Initiated (marketId winningOutcome : string) (blockNumber : option Z).

Definition present (parameter : option string) : option string :=
  match parameter with
  | Some text => if String.eqb text EmptyString then None else Some text
  | None => None
  end.

(** [handleTrackWinners(res, query)]: the answer, and the records on file
    once the call of [trackMarketWinners] it started has settled.
    [blockNumber] is [parseInt(query.blockNumber)], or [null] without the
    parameter. *)
Definition handleTrackWinners (p : Provider) (marketWinners : JSMap.t WinnerData)
  (marketId outcome_ : option string) (blockNumber : option Z)
  : TrackAnswer * JSMap.t WinnerData :=
  match present marketId, present outcome_ with
  | Some market, Some winningOutcome =>
      (Initiated market winningOutcome blockNumber,
       snd (trackMarketWinners p marketWinners market winningOutcome blockNumber))
  | _, _ => (MissingParameters, marketWinners)
  end.

(** The provider with [getPositionId] as the source defines it: the method
    logs that the mapping is not implemented and returns [null]. *)
Definition asShipped (p : Provider) : Provider :=
  {| getPositionId := fun _ _ => None;
     getBlockNumber := getBlockNumber p;
     queryFilter := queryFilter p;
     clock := clock p |}.

(** One request to [/track-winners]: the three query parameters. *)
Record TrackQuery : Type := {
  queryMarketId : option string;
  queryOutcome : option string;
  queryBlockNumber : option Z
}.

(** The records on file after a series of requests to [/track-winners]. *)
Definition afterRequests (p : Provider) (marketWinners : JSMap.t WinnerData)
  (requests : list TrackQuery) : JSMap.t WinnerData :=
  fold_left
    (fun filed q =>
       snd (handleTrackWinners p filed (queryMarketId q) (queryOutcome q)
              (queryBlockNumber q)))
    requests marketWinners.

End Api.

(** ** More concrete inputs *)

Module Fixture.

Import WinnerTracker.

(** Mixed-case addresses, as the chain reports them. *)
Definition carol : string := "0xAbCdEf0000000000000000000000000000000001".
Definition dave : string := "0x1234567890aBcDeF000000000000000000000002".

(** carol is minted 100 and pays dave 40. *)
Definition settledLog : list TransferSingle :=
  [Sample.mint carol 100 5; Sample.transfer carol dave 40 6].

Definition provider : Provider :=
  {| getPositionId := fun _ _ => Some "7"%string;
     getBlockNumber := Fulfilled 30000;
     queryFilter := fun _ => logQuery settledLog;
     clock := "2024-01-01T00:00:00.000Z" |}.

(** The records on file after one market was tracked. *)
Definition filed : JSMap.t WinnerData :=
  snd (trackMarketWinners provider JSMap.empty "market-1" "Yes" None).

(** A network that serves every request, with one request arriving while
    the first is on its way. *)
Definition steadyNetwork : MarketTracker.Network :=
  {| MarketTracker.arrivals := fun k =>
       match k with
       | O => [ {| MarketTracker.url := "/late"; MarketTracker.retries := 3;
                   MarketTracker.caller := 9%nat |} ]
       | S _ => []
       end;
     MarketTracker.axiosGet := fun _ _ =>
       {| MarketTracker.latency := 20;
          MarketTracker.result := inr "[]"%string;
          MarketTracker.spacingLag := 0;
          MarketTracker.pauseLag := 0 |} |}.

(** A network that serves every request within 30 ms, on a machine whose
    spacing timer fires one millisecond early. *)
Definition hastyNetwork : MarketTracker.Network :=
  {| MarketTracker.arrivals := fun _ => [];
     MarketTracker.axiosGet := fun _ _ =>
       {| MarketTracker.latency := 30;
          MarketTracker.result := inr "[]"%string;
          MarketTracker.spacingLag := -1;
          MarketTracker.pauseLag := 0 |} |}.

(** A channel that has made 1012 of its 2000 attempts. *)
Definition wornChannel : MarketTracker.Channel :=
  {| MarketTracker.wsReconnectAttempts := 1012%N;
     MarketTracker.maxReconnectAttempts := 2000;
     MarketTracker.reconnectDelay := 5000;
     MarketTracker.timers := [];
     MarketTracker.gaveUp := O |}.

(** Two events as the API delivers them: one open with an open and a closed
    market, one closed. *)
Definition rawOpen : Polling.RawEvent :=
  {| Polling.eventKey := "e-1"; Polling.rawTitle := "Weather";
     Polling.rawMarkets :=
       Some [ {| Polling.rawId := "m-1"; Polling.rawQuestion := "Will it rain?";
                 Polling.closed := false; Polling.rawDetails := [] |};
              {| Polling.rawId := "m-2"; Polling.rawQuestion := "Will it snow?";
                 Polling.closed := true; Polling.rawDetails := [] |} ];
     Polling.eventClosed := false; Polling.endsSinceCutoff := true;
     Polling.rawEventDetails := [] |}.

Definition rawClosed : Polling.RawEvent :=
  {| Polling.eventKey := "e-2"; Polling.rawTitle := "Election";
     Polling.rawMarkets :=
       Some [ {| Polling.rawId := "m-3"; Polling.rawQuestion := "Who wins?";
                 Polling.closed := true; Polling.rawDetails := [] |} ];
     Polling.eventClosed := true; Polling.endsSinceCutoff := true;
     Polling.rawEventDetails := [] |}.

(** An API with one page holding the two events. *)
Definition onePage : Polling.FetchEvents :=
  fun offset => if offset =? 0 then [rawOpen; rawClosed] else [].

(** Both events on file as active, none as resolved. *)
Definition bothActive : Polling.Events :=
  {| Polling.activeEvents :=
       [("e-1"%string, Polling.parseEventData rawOpen);
        ("e-2"%string, Polling.parseEventData rawClosed)];
     Polling.resolvedEvents := [] |}.

(** A tracker state with the open event on file as active. *)
Definition polled : MarketTracker.State :=
  {| MarketTracker.active := [("e-1"%string, Polling.parseEventData rawOpen)];
     MarketTracker.resolved := [];
     MarketTracker.realtimeCallbacks := [];
     MarketTracker.deliveries := [];
     MarketTracker.callbackErrors := [];
     MarketTracker.saves := [] |}.

End Fixture.

(** * Proofs *)

(** ** Numbers *)

Section NumberFacts.

Import JSNumber.

Lemma to_number_safe (x : Z) : Z.abs x <= MAX_SAFE -> to_number x = x.
Proof.
  intros H. unfold to_number.
  destruct (Z.leb_spec (Z.abs x) MAX_SAFE); [reflexivity | lia].
Qed.

Lemma round_half_even_pos (e a : Z) :
  0 <= e -> e <= Z.log2 a -> 0 < a -> 0 < round_half_even e a.
Proof.
  intros He Hlog Ha. unfold round_half_even.
  assert (Hq : 0 < Z.shiftr a e).
  { rewrite Z.shiftr_div_pow2 by assumption.
    assert (2 ^ e <= a).
    { transitivity (2 ^ Z.log2 a).
      - apply Z.pow_le_mono_r; lia.
      - apply Z.log2_spec; assumption. }
    assert (0 < 2 ^ e) by (apply Z.pow_pos_nonneg; lia).
    apply Z.div_str_pos; lia. }
  set (q := Z.shiftr a e) in *.
  rewrite Z.shiftl_mul_pow2 by assumption.
  assert (0 < 2 ^ e) by (apply Z.pow_pos_nonneg; lia).
  destruct (_ <? _); [nia|].
  destruct (_ <? _); [nia|].
  destruct (Z.even q); nia.
Qed.

Lemma to_number_pos (x : Z) : 0 < x -> 0 < to_number x.
Proof.
  intros Hx. unfold to_number.
  destruct (Z.leb_spec (Z.abs x) MAX_SAFE) as [|Hbig]; [assumption|].
  rewrite Z.sgn_pos by assumption. rewrite Z.mul_1_l.
  rewrite Z.abs_eq in * by lia.
  assert (53 <= Z.log2 x).
  { apply Z.log2_le_pow2; [assumption|]. unfold MAX_SAFE in Hbig. lia. }
  apply round_half_even_pos; lia.
Qed.

Lemma to_number_nonneg (x : Z) : 0 <= x -> 0 <= to_number x.
Proof.
  intros Hx. destruct (Z.eq_dec x 0) as [->|Hne]; [reflexivity|].
  pose proof (to_number_pos x). lia.
Qed.

Lemma parseInt_nonneg (v : N) : 0 <= parseInt v.
Proof. apply to_number_nonneg. lia. Qed.

Lemma parseInt_pos (v : N) : v <> 0%N -> 0 < parseInt v.
Proof. intros H. apply to_number_pos. lia. Qed.

Lemma parseInt_safe (v : N) : Z.of_N v <= MAX_SAFE -> parseInt v = Z.of_N v.
Proof. intros H. apply to_number_safe. lia. Qed.

Lemma add_safe (a b : Z) : Z.abs (a + b) <= MAX_SAFE -> add a b = a + b.
Proof. apply to_number_safe. Qed.

Lemma sub_safe (a b : Z) : Z.abs (a - b) <= MAX_SAFE -> sub a b = a - b.
Proof. apply to_number_safe. Qed.

End NumberFacts.

(** ** Maps *)

Section MapFacts.

Context {V : Type}.
Implicit Types (m : JSMap.t V) (k : string) (v : V).

Lemma get_set_same m k v : JSMap.get (JSMap.set m k v) k = Some v.
Proof.
  induction m as [|[k' v'] m IH]; simpl.
  - now rewrite String.eqb_refl.
  - destruct (String.eqb_spec k k') as [->|Hne]; simpl.
    + now rewrite String.eqb_refl.
    + destruct (String.eqb_spec k k'); [contradiction | exact IH].
Qed.

Lemma get_set_other m k k' v :
  k <> k' -> JSMap.get (JSMap.set m k v) k' = JSMap.get m k'.
Proof.
  intros Hne. induction m as [|[k0 v0] m IH]; simpl.
  - destruct (String.eqb_spec k' k); [congruence | reflexivity].
  - destruct (String.eqb_spec k k0) as [->|Hk]; simpl.
    + destruct (String.eqb_spec k' k0); [congruence | reflexivity].
    + now rewrite IH.
Qed.

Lemma get_delete_same m k : JSMap.get (JSMap.delete m k) k = None.
Proof.
  induction m as [|[k0 v0] m IH]; simpl; [reflexivity|].
  destruct (String.eqb_spec k k0) as [->|Hk]; simpl; [exact IH|].
  destruct (String.eqb_spec k k0); [contradiction | exact IH].
Qed.

Lemma get_delete_other m k k' :
  k <> k' -> JSMap.get (JSMap.delete m k) k' = JSMap.get m k'.
Proof.
  intros Hne. induction m as [|[k0 v0] m IH]; simpl; [reflexivity|].
  destruct (String.eqb_spec k k0) as [->|Hk]; simpl.
  - destruct (String.eqb_spec k' k0); [congruence | exact IH].
  - now rewrite IH.
Qed.

Lemma get_none_iff m k : JSMap.get m k = None <-> ~ In k (JSMap.keys m).
Proof.
  induction m as [|[k0 v0] m IH]; simpl.
  - tauto.
  - destruct (String.eqb_spec k k0) as [->|Hk].
    + split; [discriminate | intros H; exfalso; apply H; now left].
    + rewrite IH. split.
      * intros H [E|HI]; [congruence | contradiction].
      * intros H HI. apply H. now right.
Qed.

Lemma get_some_in m k v : JSMap.get m k = Some v -> In (k, v) m.
Proof.
  induction m as [|[k0 v0] m IH]; simpl; [discriminate|].
  destruct (String.eqb_spec k k0) as [->|Hk].
  - intros [= ->]. now left.
  - intros H. right. now apply IH.
Qed.

Lemma in_get_wf m k v : JSMap.wf m -> In (k, v) m -> JSMap.get m k = Some v.
Proof.
  unfold JSMap.wf, JSMap.keys.
  induction m as [|[k0 v0] m IH]; simpl; [tauto|].
  intros Hnd [E|HI].
  - injection E as -> ->. now rewrite String.eqb_refl.
  - inversion Hnd as [|? ? Hnot Hnd']; subst.
    destruct (String.eqb_spec k k0) as [->|Hk].
    + exfalso. apply Hnot. change k0 with (fst (k0, v)). now apply in_map.
    + now apply IH.
Qed.

Lemma keys_set m k v :
  JSMap.keys (JSMap.set m k v) =
  if JSMap.has m k then JSMap.keys m else JSMap.keys m ++ [k].
Proof.
  unfold JSMap.has, JSMap.keys.
  induction m as [|[k0 v0] m IH]; simpl; [reflexivity|].
  destruct (String.eqb_spec k k0) as [->|Hk]; simpl; [reflexivity|].
  rewrite IH. now destruct (JSMap.get m k).
Qed.

Lemma keys_delete m k :
  JSMap.keys (JSMap.delete m k) =
  filter (fun k' => negb (String.eqb k k')) (JSMap.keys m).
Proof.
  unfold JSMap.keys.
  induction m as [|[k0 v0] m IH]; simpl; [reflexivity|].
  destruct (String.eqb k k0); simpl; now rewrite IH.
Qed.

Lemma wf_empty : JSMap.wf (@JSMap.empty V).
Proof. constructor. Qed.

Lemma wf_set m k v : JSMap.wf m -> JSMap.wf (JSMap.set m k v).
Proof.
  unfold JSMap.wf. intros Hm. rewrite keys_set.
  unfold JSMap.has. destruct (JSMap.get m k) eqn:E; [assumption|].
  apply get_none_iff in E.
  apply NoDup_app; [assumption | repeat constructor; simpl; tauto |].
  intros x Hx [<-|[]]. contradiction.
Qed.

Lemma wf_delete m k : JSMap.wf m -> JSMap.wf (JSMap.delete m k).
Proof.
  unfold JSMap.wf. intros Hm. rewrite keys_delete. now apply NoDup_filter.
Qed.

End MapFacts.

(** ** The holder ledger *)

Section LedgerFacts.

Import WinnerTracker.

Lemma applyEvents_app (A : Arith) (m : JSMap.t Z) (xs ys : list TransferSingle) :
  applyEvents A m (xs ++ ys) = applyEvents A (applyEvents A m xs) ys.
Proof. unfold applyEvents. apply fold_left_app. Qed.

Lemma applyEvents_snoc (A : Arith) (m : JSMap.t Z) (xs : list TransferSingle) e :
  applyEvents A m (xs ++ [e]) = applyEvent A (applyEvents A m xs) e.
Proof. now rewrite applyEvents_app. Qed.

Lemma wf_applyEvent (A : Arith) (m : JSMap.t Z) e :
  JSMap.wf m -> JSMap.wf (applyEvent A m e).
Proof.
  intros Hm. unfold applyEvent.
  assert (H1 : JSMap.wf
    (if negb (String.eqb (from e) ZeroAddress)
     then if minus A (JSNumber.or_zero (JSMap.get m (from e))) (of_uint A (value e)) <=? 0
          then JSMap.delete m (from e)
          else JSMap.set m (from e)
                 (minus A (JSNumber.or_zero (JSMap.get m (from e))) (of_uint A (value e)))
     else m)).
  { destruct (negb _); [|assumption].
    destruct (_ <=? _); [now apply wf_delete | now apply wf_set]. }
  cbv zeta. destruct (negb (String.eqb (to e) ZeroAddress)); [now apply wf_set | assumption].
Qed.

Lemma wf_applyEvents (A : Arith) (events : list TransferSingle) (m : JSMap.t Z) :
  JSMap.wf m -> JSMap.wf (applyEvents A m events).
Proof.
  revert m. induction events as [|e events IH]; intros m Hm; simpl; [assumption|].
  apply IH. now apply wf_applyEvent.
Qed.

Lemma get_activeHolders (m : JSMap.t Z) (a : string) :
  JSMap.wf m ->
  JSMap.get (activeHolders m) a =
  match JSMap.get m a with
  | Some b => if 0 <? b then Some b else None
  | None => None
  end.
Proof.
  unfold JSMap.wf, JSMap.keys, activeHolders.
  induction m as [|[k v] m IH]; simpl; [reflexivity|].
  intros Hnd. inversion Hnd as [|? ? Hnot Hnd']; subst.
  destruct (String.eqb_spec a k) as [->|Hk].
  - destruct (0 <? v) eqn:Ev; simpl.
    + now rewrite String.eqb_refl.
    + rewrite IH by assumption.
      replace (JSMap.get m k) with (@None Z); [reflexivity|].
      symmetry. now apply get_none_iff.
  - destruct (0 <? v); simpl.
    + destruct (String.eqb_spec a k); [contradiction | now apply IH].
    + now apply IH.
Qed.

(** One event keeps the ledger free of negative balances, and free of zero
    balances when its amount is not zero. *)
Lemma noNegative_applyEvent (m : JSMap.t Z) e :
  noNegative m -> noNegative (applyEvent js m e).
Proof.
  intros Hm. unfold applyEvent. cbn [of_uint plus minus js].
  set (amount := JSNumber.parseInt (value e)).
  assert (Hamt : 0 <= amount) by apply parseInt_nonneg.
  set (m1 := if negb (String.eqb (from e) ZeroAddress) then _ else m).
  assert (H1 : noNegative m1).
  { subst m1. destruct (negb _); [|assumption].
    destruct (Z.leb_spec (JSNumber.sub (JSNumber.or_zero (JSMap.get m (from e))) amount) 0).
    - intros a b. destruct (String.eqb_spec (from e) a) as [<-|Hne].
      + now rewrite get_delete_same.
      + rewrite get_delete_other by assumption. apply Hm.
    - intros a b. destruct (String.eqb_spec (from e) a) as [<-|Hne].
      + rewrite get_set_same. intros [= <-]. lia.
      + rewrite get_set_other by assumption. apply Hm. }
  destruct (negb (String.eqb (to e) ZeroAddress)); [|assumption].
  intros a b. destruct (String.eqb_spec (to e) a) as [<-|Hne].
  - rewrite get_set_same. intros [= <-].
    apply to_number_nonneg.
    destruct (JSMap.get m1 (to e)) as [c|] eqn:E; simpl; [|lia].
    apply H1 in E. lia.
  - rewrite get_set_other by assumption. apply H1.
Qed.

Lemma allPositive_applyEvent (m : JSMap.t Z) e :
  value e <> 0%N -> allPositive m -> allPositive (applyEvent js m e).
Proof.
  intros Hv Hm. unfold applyEvent. cbn [of_uint plus minus js].
  set (amount := JSNumber.parseInt (value e)).
  assert (Hamt : 0 < amount) by now apply parseInt_pos.
  set (m1 := if negb (String.eqb (from e) ZeroAddress) then _ else m).
  assert (H1 : allPositive m1).
  { subst m1. destruct (negb _); [|assumption].
    destruct (Z.leb_spec (JSNumber.sub (JSNumber.or_zero (JSMap.get m (from e))) amount) 0).
    - intros a b. destruct (String.eqb_spec (from e) a) as [<-|Hne].
      + now rewrite get_delete_same.
      + rewrite get_delete_other by assumption. apply Hm.
    - intros a b. destruct (String.eqb_spec (from e) a) as [<-|Hne].
      + rewrite get_set_same. intros [= <-]. lia.
      + rewrite get_set_other by assumption. apply Hm. }
  destruct (negb (String.eqb (to e) ZeroAddress)); [|assumption].
  intros a b. destruct (String.eqb_spec (to e) a) as [<-|Hne].
  - rewrite get_set_same. intros [= <-].
    apply to_number_pos.
    destruct (JSMap.get m1 (to e)) as [c|] eqn:E; simpl; [|lia].
    apply H1 in E. lia.
  - rewrite get_set_other by assumption. apply H1.
Qed.

Lemma noNegative_applyEvents (events : list TransferSingle) (m : JSMap.t Z) :
  noNegative m -> noNegative (applyEvents js m events).
Proof.
  revert m. induction events as [|e events IH]; intros m Hm; simpl; [assumption|].
  apply IH. now apply noNegative_applyEvent.
Qed.

Lemma allPositive_applyEvents (events : list TransferSingle) (m : JSMap.t Z) :
  Forall (fun e => value e <> 0%N) events ->
  allPositive m -> allPositive (applyEvents js m events).
Proof.
  revert m. induction events as [|e events IH]; intros m Hall Hm; simpl; [assumption|].
  inversion Hall; subst. apply IH; [assumption|]. now apply allPositive_applyEvent.
Qed.

End LedgerFacts.

(** ** Exact arithmetic as the yardstick *)

Section ExactLedger.

Import WinnerTracker.

Lemma received_snoc a p e :
  received a (p ++ [e]) =
  received a p + (if String.eqb (to e) a then Z.of_N (value e) else 0).
Proof.
  unfold received. induction p as [|x p IH]; simpl; [lia|].
  rewrite IH. lia.
Qed.

Lemma sent_snoc a p e :
  sent a (p ++ [e]) =
  sent a p + (if String.eqb (from e) a then Z.of_N (value e) else 0).
Proof.
  unfold sent. induction p as [|x p IH]; simpl; [lia|].
  rewrite IH. lia.
Qed.

Lemma volume_app p q : volume (p ++ q) = volume p + volume q.
Proof.
  unfold volume. induction p as [|x p IH]; simpl; [reflexivity|].
  rewrite IH. lia.
Qed.

Lemma volume_nonneg p : 0 <= volume p.
Proof. unfold volume. induction p as [|x p IH]; simpl; lia. Qed.

Lemma received_bounds a p : 0 <= received a p <= volume p.
Proof.
  unfold received, volume. induction p as [|x p IH]; simpl; [lia|].
  destruct (String.eqb (to x) a); lia.
Qed.

Lemma creditBounded_empty : creditBounded [] JSMap.empty.
Proof. intros a b. discriminate. Qed.

Lemma creditBounded_applyEvent p m e :
  creditBounded p m -> creditBounded (p ++ [e]) (applyEvent exact m e).
Proof.
  intros Hm. unfold applyEvent. cbn [of_uint plus minus exact].
  set (amount := Z.of_N (value e)).
  assert (Hamt : 0 <= amount) by (subst amount; lia).
  set (m1 := if negb (String.eqb (from e) ZeroAddress) then _ else m).
  assert (H1 : creditBounded p m1).
  { subst m1. destruct (negb _); [|assumption].
    destruct (Z.leb_spec (JSNumber.or_zero (JSMap.get m (from e)) - amount) 0).
    - intros a b. destruct (String.eqb_spec (from e) a) as [<-|Hne].
      + now rewrite get_delete_same.
      + rewrite get_delete_other by assumption. apply Hm.
    - intros a b. destruct (String.eqb_spec (from e) a) as [<-|Hne].
      + rewrite get_set_same. intros [= <-].
        destruct (JSMap.get m (from e)) as [c|] eqn:E; simpl in *; [|lia].
        apply Hm in E. lia.
      + rewrite get_set_other by assumption. apply Hm. }
  clearbody m1.
  assert (Hgrow : forall a b, JSMap.get m1 a = Some b ->
            0 <= b <= received a (p ++ [e])).
  { intros a b E. apply H1 in E. rewrite received_snoc.
    fold amount. destruct (String.eqb (to e) a); lia. }
  destruct (negb (String.eqb (to e) ZeroAddress)); [|exact Hgrow].
  intros a b. destruct (String.eqb_spec (to e) a) as [<-|Hne].
  - rewrite get_set_same. intros [= <-].
    rewrite received_snoc, String.eqb_refl. fold amount.
    destruct (JSMap.get m1 (to e)) as [c|] eqn:E; simpl.
    + apply H1 in E. lia.
    + pose proof (received_bounds (to e) p). lia.
  - rewrite get_set_other by assumption. apply Hgrow.
Qed.

Lemma creditBounded_applyEvents events :
  creditBounded events (applyEvents exact JSMap.empty events).
Proof.
  induction events as [|e events IH] using rev_ind.
  - apply creditBounded_empty.
  - rewrite applyEvents_snoc. now apply creditBounded_applyEvent.
Qed.

Lemma or_zero_bounds p m a :
  creditBounded p m -> 0 <= JSNumber.or_zero (JSMap.get m a) <= volume p.
Proof.
  intros Hm. pose proof (received_bounds a p).
  destruct (JSMap.get m a) as [c|] eqn:E; simpl; [|lia].
  apply Hm in E. lia.
Qed.

(** Below [2^53] the source's step is the exact step. *)
Lemma applyEvent_js_exact p m e :
  creditBounded p m -> volume (p ++ [e]) <= JSNumber.MAX_SAFE ->
  applyEvent js m e = applyEvent exact m e.
Proof.
  intros Hm Hvol. rewrite volume_app in Hvol.
  assert (Hv : volume [e] = Z.of_N (value e)) by (unfold volume; simpl; lia).
  rewrite Hv in Hvol. pose proof (volume_nonneg p) as Hp.
  unfold applyEvent. cbn [of_uint plus minus js exact].
  rewrite parseInt_safe by lia.
  set (amount := Z.of_N (value e)) in *.
  assert (Hamt : 0 <= amount) by (subst amount; lia).
  pose proof (or_zero_bounds p m (from e) Hm) as Hfrom.
  rewrite sub_safe by lia.
  set (m1 := if negb (String.eqb (from e) ZeroAddress) then _ else m).
  assert (H1 : creditBounded p m1).
  { subst m1. destruct (negb _); [|assumption].
    destruct (Z.leb_spec (JSNumber.or_zero (JSMap.get m (from e)) - amount) 0).
    - intros a b. destruct (String.eqb_spec (from e) a) as [<-|Hne].
      + now rewrite get_delete_same.
      + rewrite get_delete_other by assumption. apply Hm.
    - intros a b. destruct (String.eqb_spec (from e) a) as [<-|Hne].
      + rewrite get_set_same. intros [= <-].
        pose proof (Hm (from e)) as Hb.
        destruct (JSMap.get m (from e)) as [c|]; simpl in *; [|lia].
        specialize (Hb c eq_refl). lia.
      + rewrite get_set_other by assumption. apply Hm. }
  pose proof (or_zero_bounds p m1 (to e) H1) as Hto.
  rewrite add_safe by lia. reflexivity.
Qed.

Lemma applyEvents_js_exact events :
  volume events <= JSNumber.MAX_SAFE ->
  applyEvents js JSMap.empty events = applyEvents exact JSMap.empty events.
Proof.
  induction events as [|e events IH] using rev_ind; intros Hvol; [reflexivity|].
  rewrite !applyEvents_snoc.
  assert (Hprefix : volume events <= JSNumber.MAX_SAFE).
  { rewrite volume_app in Hvol. pose proof (volume_nonneg [e]). lia. }
  rewrite IH by assumption.
  apply applyEvent_js_exact with (p := events); [|assumption].
  apply creditBounded_applyEvents.
Qed.

Lemma replay_js_exact events :
  volume events <= JSNumber.MAX_SAFE -> replay js events = replay exact events.
Proof. intros H. unfold replay. now rewrite applyEvents_js_exact. Qed.

End ExactLedger.

(** ** Covered debits: the ledger is the net balance *)

Section NetLedger.

Import WinnerTracker.

Lemma net_snoc a p e :
  net a (p ++ [e]) =
  net a p + (if String.eqb (to e) a then Z.of_N (value e) else 0)
          - (if String.eqb (from e) a then Z.of_N (value e) else 0).
Proof. unfold net. rewrite received_snoc, sent_snoc. lia. Qed.

Lemma coveredAfter_snoc h p e :
  coveredAfter h (p ++ [e]) =
  coveredAfter h p &&
  (String.eqb (from e) ZeroAddress || (Z.of_N (value e) <=? net (from e) (h ++ p))).
Proof.
  revert h. induction p as [|x p IH]; intros h; simpl.
  - rewrite app_nil_r. now rewrite andb_true_r.
  - rewrite IH. rewrite <- app_assoc. simpl. now rewrite andb_assoc.
Qed.

(** The debit half of [applyEvent], seen through [get]. *)
Lemma debit_lookup (m : JSMap.t Z) (f a : string) (amount : Z) :
  0 <= JSNumber.or_zero (JSMap.get m f) - amount ->
  JSNumber.or_zero
    (JSMap.get
       (if JSNumber.or_zero (JSMap.get m f) - amount <=? 0
        then JSMap.delete m f
        else JSMap.set m f (JSNumber.or_zero (JSMap.get m f) - amount)) a) =
  if String.eqb f a then JSNumber.or_zero (JSMap.get m f) - amount
  else JSNumber.or_zero (JSMap.get m a).
Proof.
  intros Hcov.
  destruct (Z.leb_spec (JSNumber.or_zero (JSMap.get m f) - amount) 0);
    destruct (String.eqb_spec f a) as [<-|Hne].
  - rewrite get_delete_same. simpl. lia.
  - now rewrite get_delete_other.
  - now rewrite get_set_same.
  - now rewrite get_set_other.
Qed.

Lemma debit_lookup_other (m : JSMap.t Z) (f a : string) (amount : Z) :
  f <> a ->
  JSMap.get
    (if JSNumber.or_zero (JSMap.get m f) - amount <=? 0
     then JSMap.delete m f
     else JSMap.set m f (JSNumber.or_zero (JSMap.get m f) - amount)) a =
  JSMap.get m a.
Proof.
  intros Hne. destruct (_ <=? _).
  - now rewrite get_delete_other.
  - now rewrite get_set_other.
Qed.

Lemma tracksNet_empty : tracksNet [] JSMap.empty.
Proof. split; [reflexivity|]. intros a _. reflexivity. Qed.

Lemma tracksNet_applyEvent p m e :
  tracksNet p m ->
  String.eqb (from e) ZeroAddress || (Z.of_N (value e) <=? net (from e) p) = true ->
  tracksNet (p ++ [e]) (applyEvent exact m e).
Proof.
  intros [Hzero Hnet] Hcov. unfold applyEvent. cbn [of_uint plus minus exact].
  set (amount := Z.of_N (value e)) in *.
  set (m1 := if negb (String.eqb (from e) ZeroAddress) then _ else m).
  assert (H1 : JSMap.get m1 ZeroAddress = None /\
               forall a, a <> ZeroAddress ->
                 JSNumber.or_zero (JSMap.get m1 a) =
                 net a p - (if String.eqb (from e) a then amount else 0)).
  { subst m1. destruct (String.eqb_spec (from e) ZeroAddress) as [Ez|Hnz]; simpl.
    - split; [assumption|]. intros a Ha. rewrite Hnet by assumption.
      destruct (String.eqb_spec (from e) a); [congruence | lia].
    - simpl in Hcov. apply Z.leb_le in Hcov.
      split.
      + rewrite debit_lookup_other by assumption. assumption.
      + intros a Ha. rewrite debit_lookup by (rewrite Hnet by assumption; lia).
        destruct (String.eqb_spec (from e) a) as [<-|Hne];
          rewrite Hnet by assumption; lia. }
  clearbody m1. destruct H1 as [H1z H1n].
  destruct (String.eqb_spec (to e) ZeroAddress) as [Ez|Hnz]; simpl.
  - split; [assumption|]. intros a Ha. rewrite H1n by assumption.
    rewrite net_snoc. fold amount.
    destruct (String.eqb_spec (to e) a); [congruence | lia].
  - split.
    + now rewrite get_set_other.
    + intros a Ha. rewrite net_snoc. fold amount.
      destruct (String.eqb_spec (to e) a) as [<-|Hne].
      * rewrite get_set_same. simpl. rewrite H1n by assumption. lia.
      * rewrite get_set_other by assumption. rewrite H1n by assumption. lia.
Qed.

Lemma tracksNet_applyEvents events :
  covered events = true ->
  tracksNet events (applyEvents exact JSMap.empty events).
Proof.
  unfold covered.
  induction events as [|e events IH] using rev_ind; intros Hcov.
  - apply tracksNet_empty.
  - rewrite coveredAfter_snoc in Hcov. apply andb_true_iff in Hcov as [Hp He].
    rewrite applyEvents_snoc. apply tracksNet_applyEvent; [now apply IH | exact He].
Qed.

(** The ledger of a covered, exactly computed replay in closed form. *)
Lemma replay_exact_lookup events a :
  covered events = true ->
  JSMap.get (replay exact events) a =
  if negb (String.eqb a ZeroAddress) && (0 <? net a events)
  then Some (net a events) else None.
Proof.
  intros Hcov. unfold replay.
  rewrite get_activeHolders by (apply wf_applyEvents, wf_empty).
  destruct (tracksNet_applyEvents events Hcov) as [Hzero Hnet].
  destruct (String.eqb_spec a ZeroAddress) as [->|Hne]; simpl.
  - now rewrite Hzero.
  - specialize (Hnet a Hne).
    destruct (JSMap.get (applyEvents exact JSMap.empty events) a) as [b|];
      simpl in Hnet; rewrite <- Hnet; reflexivity.
Qed.

End NetLedger.

(** ** Claims about the replay *)

Section ReplayClaims.

Import WinnerTracker.

(** C1, as stated, fails: after a debit that the sender's balance does not
    cover, the entry is dropped instead of going negative, so the later
    balance is no longer received minus sent. Here alice ends with 20 while
    she received 20 and sent 10. *)
Lemma overdraft_balance_is_not_net :
  JSMap.get (replay js Sample.overdraft) Sample.alice = Some 20 /\
  received Sample.alice Sample.overdraft - sent Sample.alice Sample.overdraft = 10.
Proof. split; reflexivity. Qed.

(** C1 (amended): every address present in the replayed ledger has a
    strictly positive balance; and when every debit is covered by what its
    sender holds at that point and the amounts add up to at most 2^53, a
    present address holds exactly received minus sent, an address whose net
    is zero or negative is absent, and every other address with a positive
    net is present. *)
Theorem replay_balance_is_net_when_covered :
  forall (events : list TransferSingle) (a : string),
    (forall b, JSMap.get (replay js events) a = Some b -> 0 < b) /\
    (covered events = true ->
     volume events <= JSNumber.MAX_SAFE ->
     (forall b, JSMap.get (replay js events) a = Some b ->
                b = received a events - sent a events) /\
     (received a events - sent a events <= 0 ->
      JSMap.get (replay js events) a = None) /\
     (a <> ZeroAddress -> 0 < received a events - sent a events ->
      JSMap.get (replay js events) a = Some (received a events - sent a events))).
Proof.
  intros events a. split.
  - intros b. unfold replay.
    rewrite get_activeHolders by (apply wf_applyEvents, wf_empty).
    destruct (JSMap.get _ a) as [c|]; [|discriminate].
    destruct (Z.ltb_spec 0 c); [|discriminate].
    intros [= <-]. assumption.
  - intros Hcov Hvol. rewrite replay_js_exact by assumption.
    rewrite (replay_exact_lookup events a Hcov). fold (net a events).
    destruct (String.eqb_spec a ZeroAddress) as [->|Hne]; simpl.
    + repeat split; [discriminate | congruence].
    + destruct (Z.ltb_spec 0 (net a events)).
      * repeat split; [intros b [= <-]; reflexivity | lia].
      * repeat split; [discriminate | lia].
Qed.

Lemma replay_balance_is_net_when_covered_witness :
  JSMap.get (replay js Sample.tradedOut) Sample.bob = Some 50 /\
  JSMap.get (replay js Sample.tradedOut) Sample.alice = None.
Proof.
  split.
  - destruct (replay_balance_is_net_when_covered Sample.tradedOut Sample.bob)
      as [_ H].
    destruct H as (_ & _ & H); [reflexivity | vm_compute; discriminate |].
    apply H; [discriminate | reflexivity].
  - destruct (replay_balance_is_net_when_covered Sample.tradedOut Sample.alice)
      as [_ H].
    destruct H as (_ & H & _); [reflexivity | vm_compute; discriminate |].
    apply H. vm_compute. discriminate.
Defined.

(** C5, as stated, fails: a credit of zero units to an address the ledger
    does not hold writes a zero entry, which stays until the final pass. *)
Lemma zero_mint_leaves_zero_entry :
  JSMap.get (applyEvents js JSMap.empty Sample.zeroMint) Sample.alice = Some 0.
Proof. reflexivity. Qed.

(** C5 (amended): after any number of applied events, so also between two
    windows, the ledger holds no negative balance; and it holds no zero
    balance either as long as every event applied so far moved a non-zero
    amount. *)
Theorem ledger_positive_at_every_step :
  forall (events : list TransferSingle) (n : nat) (a : string) (b : Z),
    JSMap.get (applyEvents js JSMap.empty (firstn n events)) a = Some b ->
    0 <= b /\
    (Forall (fun e => value e <> 0%N) (firstn n events) -> 0 < b).
Proof.
  intros events n a b Hget. split.
  - refine (noNegative_applyEvents (firstn n events) JSMap.empty _ a b Hget).
    intros ? ?. discriminate.
  - intros Hall.
    refine (allPositive_applyEvents (firstn n events) JSMap.empty Hall _ a b Hget).
    intros ? ?. discriminate.
Qed.

Lemma ledger_positive_at_every_step_witness :
  0 <= 30 /\
  (Forall (fun e => value e <> 0%N) (firstn 2 Sample.tradedOut) -> 0 < 30).
Proof.
  apply (ledger_positive_at_every_step Sample.tradedOut 2 Sample.alice 30).
  reflexivity.
Defined.

End ReplayClaims.

(** ** The payout total *)

Section PayoutFacts.

Import WinnerTracker.

Lemma sumOver_indicator (t : string) (v : Z) (ks : list string) :
  0 <= v -> NoDup ks ->
  0 <= sumOver (fun a => if String.eqb t a then v else 0) ks <= v
  /\ (~ In t ks -> sumOver (fun a => if String.eqb t a then v else 0) ks = 0).
Proof.
  intros Hv. induction ks as [|k ks IH]; intros Hnd; simpl.
  - split; [lia | reflexivity].
  - inversion Hnd as [|? ? Hnot Hnd']; subst.
    destruct (IH Hnd') as [Hb Hz].
    destruct (String.eqb_spec t k) as [->|Hne].
    + rewrite (Hz Hnot). split; [lia|]. intros H. exfalso. apply H. now left.
    + split; [lia|]. intros H. rewrite Hz; [lia|]. intros HI. apply H. now right.
Qed.

Lemma sumOver_received (p : list TransferSingle) (ks : list string) :
  NoDup ks -> sumOver (fun a => received a p) ks <= volume p.
Proof.
  intros Hnd. induction p as [|e p IH].
  - unfold volume. simpl. induction ks as [|k ks IHk]; simpl.
    + lia.
    + inversion Hnd; subst. unfold received in *. simpl in *.
      specialize (IHk ltac:(assumption)). lia.
  - assert (Hsplit : sumOver (fun a => received a (e :: p)) ks =
                     sumOver (fun a => if String.eqb (to e) a then Z.of_N (value e) else 0) ks
                     + sumOver (fun a => received a p) ks).
    { clear. unfold sumOver. induction ks as [|k ks IHk]; [reflexivity|].
      cbn [fold_right]. rewrite IHk. unfold received. cbn [fold_right]. lia. }
    rewrite Hsplit.
    destruct (sumOver_indicator (to e) (Z.of_N (value e)) ks ltac:(lia) Hnd) as [Hb _].
    unfold volume in *. simpl. lia.
Qed.

Lemma totalOf_active_bounds (f : string -> Z) (m : JSMap.t Z) :
  (forall a b, In (a, b) m -> 0 <= b <= f a) ->
  0 <= totalOf (activeHolders m) <= sumOver f (JSMap.keys m)
  /\ Forall (fun b => 0 <= b) (JSMap.values (activeHolders m)).
Proof.
  unfold totalOf, activeHolders, JSMap.values, JSMap.keys.
  induction m as [|[k v] m IH]; intros Hm; simpl.
  - split; [lia | constructor].
  - destruct IH as [IH1 IH2].
    { intros a b HI. apply Hm. now right. }
    pose proof (Hm k v (or_introl eq_refl)) as Hk.
    destruct (0 <? v); simpl.
    + split; [lia|]. constructor; [lia | assumption].
    + split; [lia | assumption].
Qed.

Lemma fold_add_exact (l : list Z) (acc : Z) :
  Forall (fun b => 0 <= b) l -> 0 <= acc ->
  acc + fold_right Z.add 0 l <= JSNumber.MAX_SAFE ->
  fold_left JSNumber.add l acc = acc + fold_right Z.add 0 l.
Proof.
  revert acc. induction l as [|x l IH]; intros acc Hall Hacc Hsum; simpl.
  - lia.
  - inversion Hall as [|? ? Hx Hl]; subst. simpl in Hsum.
    assert (0 <= fold_right Z.add 0 l).
    { clear -Hl. induction Hl; simpl; lia. }
    rewrite add_safe by lia. rewrite IH by (assumption || lia). lia.
Qed.

Lemma fold_add_integers (l : list Z) (acc : Z) :
  fold_left Z.add l acc = acc + fold_right Z.add 0 l.
Proof.
  revert acc. induction l as [|x l IH]; intros acc; simpl; [lia|].
  rewrite IH. lia.
Qed.

Lemma replay_exact_total events :
  0 <= totalOf (replay exact events) <= volume events
  /\ Forall (fun b => 0 <= b) (JSMap.values (replay exact events)).
Proof.
  unfold replay.
  set (m := applyEvents exact JSMap.empty events).
  assert (Hwf : JSMap.wf m) by (apply wf_applyEvents, wf_empty).
  destruct (totalOf_active_bounds (fun a => received a events) m) as [Hb Hall].
  { intros a b HI. apply (creditBounded_applyEvents events a b).
    now apply in_get_wf. }
  split; [|assumption].
  pose proof (sumOver_received events (JSMap.keys m) Hwf). lia.
Qed.

(** C9, as stated, fails: amounts are turned into JavaScript numbers, and a
    mint of [2^53 + 1] units is booked, and paid out, as [2^53]. *)
Lemma huge_mint_is_rounded :
  replay js Sample.hugeMint = [(Sample.alice, 9007199254740992)] /\
  replay exact Sample.hugeMint = [(Sample.alice, 9007199254740993)] /\
  sumBalances js (replay js Sample.hugeMint) <> volume Sample.hugeMint.
Proof. repeat split. vm_compute. discriminate. Qed.

(** C9 (amended): the ledger and the payout total are computed in binary64
    numbers; as long as the amounts of the replayed events add up to at most
    2^53, every balance, every payout and the payout total are the ones
    exact integer arithmetic gives. *)
Theorem arithmetic_is_exact_up_to_2_53 :
  forall events : list TransferSingle,
    volume events <= JSNumber.MAX_SAFE ->
    replay js events = replay exact events /\
    winnersOf (replay js events) = winnersOf (replay exact events) /\
    sumBalances js (replay js events) = totalOf (replay exact events).
Proof.
  intros events Hvol. rewrite replay_js_exact by assumption.
  repeat split.
  destruct (replay_exact_total events) as [Hb Hall].
  unfold sumBalances. cbn [plus js].
  rewrite fold_add_exact; unfold totalOf in *; (assumption || lia).
Qed.

Lemma arithmetic_is_exact_up_to_2_53_witness :
  replay js Sample.tradedOut = replay exact Sample.tradedOut /\
  winnersOf (replay js Sample.tradedOut) = winnersOf (replay exact Sample.tradedOut) /\
  sumBalances js (replay js Sample.tradedOut) = totalOf (replay exact Sample.tradedOut).
Proof.
  apply (arithmetic_is_exact_up_to_2_53 Sample.tradedOut).
  vm_compute. discriminate.
Defined.

End PayoutFacts.

(** ** The windowed replay *)

Section WindowFacts.

Import WinnerTracker.

(** The loop, one turn unrolled. *)
Lemma windows_unfold A qf c bn start m :
  windows A qf c bn start m =
  if start <=? bn then
    match qf start (Z.min (start + Z.pos c - 1) bn) with
    | Fulfilled events =>
        windows A qf c bn (start + Z.pos c) (applyEvents A m events)
    | Rejected error => Rejected error
    end
  else Fulfilled m.
Proof.
  rewrite windows_equation_1.
  destruct (Z_le_gt_dec start bn); simpl;
    destruct (Z.leb_spec start bn); try lia; reflexivity.
Qed.

Lemma filter_inRange_empty (s e : Z) (log : list TransferSingle) :
  Forall (fun x => blockNumber x < s \/ e < blockNumber x) log ->
  filter (inRange s e) log = [].
Proof.
  induction 1 as [|x log Hx _ IH]; simpl; [reflexivity|].
  unfold inRange at 1.
  destruct (Z.leb_spec s (blockNumber x)); destruct (Z.leb_spec (blockNumber x) e);
    simpl; (exact IH || lia).
Qed.

(** Two adjacent block ranges of an ordered log, queried one after the
    other, give what the joined range gives. *)
Lemma filter_inRange_split (s mid e : Z) (log : list TransferSingle) :
  chainOrdered log -> s <= mid -> mid <= e + 1 ->
  filter (inRange s (mid - 1)) log ++ filter (inRange mid e) log =
  filter (inRange s e) log.
Proof.
  intros Hord Hs He. induction Hord as [|x log Hord IH Hx]; [reflexivity|].
  cbn [filter].
  destruct (inRange s (mid - 1) x) eqn:E1; destruct (inRange mid e x) eqn:E2;
    destruct (inRange s e x) eqn:E3; unfold inRange in E1, E2, E3;
    rewrite ?andb_true_iff, ?andb_false_iff, ?Z.leb_le, ?Z.leb_gt in E1, E2, E3;
    try lia; try (cbn [app]; rewrite IH; reflexivity); try exact IH.
  assert (Hnone : filter (inRange s (mid - 1)) log = []).
  { apply filter_inRange_empty. eapply Forall_impl; [|exact Hx].
    cbv beta. intros y Hy. lia. }
  rewrite Hnone in *. cbn [app] in *. now rewrite IH.
Qed.

(** Over a log in chain order the windows, whatever their size, replay the
    entries of the blocks from [start] to the cutoff, in log order. *)
Lemma windows_logQuery A (log : list TransferSingle) c bn :
  chainOrdered log ->
  forall (n : nat) (start : Z) (m : JSMap.t Z),
    (Z.to_nat (bn - start + 1) <= n)%nat ->
    windows A (logQuery log) c bn start m =
    Fulfilled (applyEvents A m (filter (inRange start bn) log)).
Proof.
  intros Hord. induction n as [|n IH]; intros start m Hn;
    rewrite windows_unfold; destruct (Z.leb_spec start bn) as [Hle|Hgt]; try lia.
  - rewrite filter_inRange_empty; [reflexivity|].
    apply Forall_forall. intros; lia.
  - unfold logQuery at 1. rewrite IH by lia.
    rewrite <- applyEvents_app. do 2 f_equal.
    destruct (Z.min_spec (start + Z.pos c - 1) bn) as [[Hlt ->]|[Hge ->]].
    + replace (start + Z.pos c - 1) with ((start + Z.pos c) - 1) by lia.
      apply filter_inRange_split; [assumption | lia | lia].
    + rewrite (filter_inRange_empty (start + Z.pos c)).
      * apply app_nil_r.
      * apply Forall_forall. intros; lia.
  - rewrite filter_inRange_empty; [reflexivity|].
    apply Forall_forall. intros; lia.
Qed.

Lemma buildHolderSnapshotWith_logQuery A (log : list TransferSingle) c bn :
  chainOrdered log ->
  buildHolderSnapshotWith A c (logQuery log) bn =
  Fulfilled (replay A (filter (inRange 0 bn) log)).
Proof.
  intros Hord. unfold buildHolderSnapshotWith.
  now rewrite (windows_logQuery A log c bn Hord (Z.to_nat (bn - 0 + 1))) by lia.
Qed.

(** A window whose query is rejected stops the loop with an error, whatever
    the windows before it delivered. *)
Lemma windows_rejected A qf c bn error :
  forall (j : nat) (start : Z) (m : JSMap.t Z),
    start + Z.of_nat j * Z.pos c <= bn ->
    qf (start + Z.of_nat j * Z.pos c)
       (Z.min (start + Z.of_nat j * Z.pos c + Z.pos c - 1) bn) = Rejected error ->
    exists error', windows A qf c bn start m = Rejected error'.
Proof.
  induction j as [|j IH]; intros start m Hle Hq; rewrite windows_unfold.
  - replace (start + Z.of_nat 0 * Z.pos c) with start in * by lia.
    destruct (Z.leb_spec start bn); [|lia]. rewrite Hq. now exists error.
  - destruct (Z.leb_spec start bn); [|lia].
    destruct (qf start _) as [events|error0]; [|now exists error0].
    apply IH.
    + lia.
    + replace (start + Z.pos c + Z.of_nat j * Z.pos c)
        with (start + Z.of_nat (S j) * Z.pos c) by lia.
      exact Hq.
Qed.

End WindowFacts.

(** ** Claims about the windowed replay *)

Section WindowClaims.

Import WinnerTracker.

Lemma tradedOut_chainOrdered : chainOrdered Sample.tradedOut.
Proof.
  unfold chainOrdered, Sample.tradedOut.
  repeat (constructor; [|repeat constructor; simpl; lia]).
  constructor.
Qed.

(** C3: over a log in chain order, the reconstruction up to a cutoff gives
    the same ledger for every two window sizes. *)
Theorem reconstruction_invariant_under_chunking :
  forall (log : list TransferSingle) (size1 size2 : positive) (cutoff : Z),
    chainOrdered log ->
    buildHolderSnapshotWith js size1 (logQuery log) cutoff =
    buildHolderSnapshotWith js size2 (logQuery log) cutoff.
Proof.
  intros log size1 size2 cutoff Hord.
  now rewrite !buildHolderSnapshotWith_logQuery.
Qed.

Lemma reconstruction_invariant_under_chunking_witness :
  buildHolderSnapshotWith js chunkSize (logQuery Sample.tradedOut) 30000 =
  buildHolderSnapshotWith js 7 (logQuery Sample.tradedOut) 30000.
Proof.
  apply (reconstruction_invariant_under_chunking Sample.tradedOut chunkSize 7 30000).
  unfold chainOrdered, Sample.tradedOut.
  repeat (constructor; [|repeat constructor; simpl; lia]).
  constructor.
Defined.

(** The replay of the spec's example, in three windows of the source's
    size. *)
Example tradedOut_snapshot :
  buildHolderSnapshot (logQuery Sample.tradedOut) 30000 =
  Fulfilled [(Sample.bob, 50)].
Proof. reflexivity. Qed.

(** The spec's examples: a mint of 50 to alice and a payment of 20 to bob
    leave 30 and 20; a further payment of 30 removes alice. *)
Example mint_then_pay :
  replay js (firstn 2 Sample.tradedOut) = [(Sample.alice, 30); (Sample.bob, 20)] /\
  replay js Sample.tradedOut = [(Sample.bob, 50)].
Proof. split; reflexivity. Qed.

(** A single mint of 100 units gives one winner paid 100. *)
Example single_mint_winner :
  exists record,
    fst (trackMarketWinners
           {| getPositionId := fun _ _ => Some "7"%string;
              getBlockNumber := Fulfilled 30000;
              queryFilter := fun _ => logQuery [Sample.mint Sample.alice 100 5];
              clock := "2024-01-01T00:00:00.000Z" |}
           JSMap.empty "market" "Yes" None) = Some record /\
    winnerCount record = 1 /\ totalPayout record = 100 /\
    winners record =
      [{| address := Sample.alice; winningTokens := 100; payoutUSDC := 100 |}].
Proof. eexists. repeat split. Qed.

(** With [getPositionId] as the source has it, a placeholder that answers
    [null], [trackMarketWinners] returns [null] and files nothing. *)
Example placeholder_position_lookup (p : Provider) (filed : JSMap.t WinnerData)
  (market outcome_ : string) (block : option Z) :
  trackMarketWinners
    {| getPositionId := fun _ _ => None;
       getBlockNumber := getBlockNumber p;
       queryFilter := queryFilter p;
       clock := clock p |} filed market outcome_ block = (None, filed).
Proof. reflexivity. Qed.

(** C2, as stated, fails: when the query of the second window is rejected,
    the reconstruction does not fail; its caller is handed an empty ledger,
    the same value it gets for a position without any event. *)
Lemma rejected_window_is_not_reported :
  Sample.secondWindowFails 10000 (Z.min (10000 + 10000 - 1) 30000) = Rejected "timeout" /\
  buildHolderSnapshot Sample.secondWindowFails 30000 = Fulfilled JSMap.empty /\
  buildHolderSnapshot (logQuery []) 30000 = Fulfilled JSMap.empty.
Proof. repeat split. Qed.

(** The caller then files a winner record without winners. *)
Example rejected_window_files_empty_record :
  exists record,
    trackMarketWinners Sample.flakyProvider JSMap.empty "market" "Yes" None =
      (Some record, [("market"%string, record)]) /\
    winners record = [] /\ totalPayout record = 0 /\ winnerCount record = 0.
Proof. eexists. repeat split. Qed.

(** C2 (amended): when the query of any window of the reconstruction is
    rejected, the loop stops, whatever was folded so far is dropped, and the
    caller is handed an empty ledger; a partly built ledger is never
    returned. *)
Theorem rejected_window_gives_empty_ledger :
  forall (queryFilter : QueryFilter) (blockNumber : Z) (k : nat) (error : string),
    Z.of_nat k * Z.pos chunkSize <= blockNumber ->
    queryFilter (Z.of_nat k * Z.pos chunkSize)
      (Z.min (Z.of_nat k * Z.pos chunkSize + Z.pos chunkSize - 1) blockNumber)
      = Rejected error ->
    buildHolderSnapshot queryFilter blockNumber = Fulfilled JSMap.empty.
Proof.
  intros qf bn k error Hle Hq.
  unfold buildHolderSnapshot, buildHolderSnapshotWith.
  destruct (windows_rejected js qf chunkSize bn error k 0 JSMap.empty) as [e' ->];
    [lia | exact Hq | reflexivity].
Qed.

Lemma rejected_window_gives_empty_ledger_witness :
  buildHolderSnapshot Sample.secondWindowFails 30000 = Fulfilled JSMap.empty.
Proof.
  apply (rejected_window_gives_empty_ledger Sample.secondWindowFails 30000 1 "timeout").
  - vm_compute. discriminate.
  - reflexivity.
Defined.

End WindowClaims.

(** ** The reconnect schedule *)

Section ReconnectClaims.

Import MarketTracker.

Lemma pow2_finite (k : N) :
  (k < 1024)%N -> JSOverflow.pow2 k = JSOverflow.Finite (2 ^ Z.of_N k).
Proof.
  intros Hk. unfold JSOverflow.pow2.
  destruct (N.ltb_spec k 1024); [reflexivity | lia].
Qed.

(** Below [2^1024] the delay is the exact product. *)
Lemma scale_pow2_finite (a : Z) (k : N) :
  a <> 0 -> Z.abs a * 2 ^ Z.of_N k < JSOverflow.OVERFLOW ->
  JSOverflow.scale a (JSOverflow.pow2 k) = JSOverflow.Finite (a * 2 ^ Z.of_N k).
Proof.
  intros Ha Hlt.
  assert (Hp : 0 < 2 ^ Z.of_N k) by (apply Z.pow_pos_nonneg; lia).
  assert (Hone : 2 ^ Z.of_N k <= Z.abs a * 2 ^ Z.of_N k) by nia.
  assert (Hk : (k < 1024)%N).
  { apply N2Z.inj_lt. apply (Z.pow_lt_mono_r_iff 2); [lia | lia |].
    eapply Z.le_lt_trans; [exact Hone | exact Hlt]. }
  rewrite (pow2_finite k Hk). unfold JSOverflow.scale.
  rewrite Z.abs_mul, (Z.abs_eq (2 ^ Z.of_N k)) by lia.
  destruct (Z.ltb_spec (Z.abs a * 2 ^ Z.of_N k) JSOverflow.OVERFLOW);
    [reflexivity | lia].
Qed.

(** From [2^1024] on it is [Infinity]. *)
Lemma scale_pow2_overflow (a : Z) (k : N) :
  0 < a -> JSOverflow.OVERFLOW <= a * 2 ^ Z.of_N k ->
  JSOverflow.scale a (JSOverflow.pow2 k) = JSOverflow.PlusInfinity.
Proof.
  intros Ha Hge.
  assert (Hp : 0 < 2 ^ Z.of_N k) by (apply Z.pow_pos_nonneg; lia).
  unfold JSOverflow.pow2, JSOverflow.scale.
  destruct (N.ltb_spec k 1024).
  - rewrite Z.abs_mul, (Z.abs_eq a), (Z.abs_eq (2 ^ Z.of_N k)) by lia.
    destruct (Z.ltb_spec (a * 2 ^ Z.of_N k) JSOverflow.OVERFLOW); [lia|].
    destruct (Z.ltb_spec 0 a); [reflexivity | lia].
  - destruct (Z.ltb_spec 0 a); [reflexivity | lia].
Qed.

Lemma scheduleReconnect_exhausted (c : Channel) :
  maxReconnectAttempts c <= Z.of_N (wsReconnectAttempts c) ->
  timers (scheduleReconnect c) = timers c /\
  wsReconnectAttempts (scheduleReconnect c) = wsReconnectAttempts c /\
  maxReconnectAttempts (scheduleReconnect c) = maxReconnectAttempts c /\
  reconnectDelay (scheduleReconnect c) = reconnectDelay c.
Proof.
  intros H. unfold scheduleReconnect.
  destruct (Z.leb_spec (maxReconnectAttempts c) (Z.of_N (wsReconnectAttempts c)));
    [|lia].
  now simpl.
Qed.

(** Below the maximum, and while the counter counts exactly, a disconnect
    counts one attempt and sets one timer. *)
Lemma scheduleReconnect_next (c : Channel) :
  Z.of_N (wsReconnectAttempts c) < maxReconnectAttempts c ->
  Z.of_N (wsReconnectAttempts c) < JSNumber.MAX_SAFE ->
  scheduleReconnect c =
    {| wsReconnectAttempts := (wsReconnectAttempts c + 1)%N;
       maxReconnectAttempts := maxReconnectAttempts c;
       reconnectDelay := reconnectDelay c;
       timers := timers c
         ++ [JSOverflow.scale (reconnectDelay c)
               (JSOverflow.pow2 (wsReconnectAttempts c))];
       gaveUp := gaveUp c |}.
Proof.
  intros Hmax Hsafe. unfold scheduleReconnect.
  destruct (Z.leb_spec (maxReconnectAttempts c) (Z.of_N (wsReconnectAttempts c)));
    [lia|].
  rewrite add_safe by lia.
  replace (Z.to_N (Z.of_N (wsReconnectAttempts c) + 1))
    with (wsReconnectAttempts c + 1)%N by lia.
  rewrite sub_safe by lia.
  replace (Z.to_N (Z.of_N (wsReconnectAttempts c + 1) - 1))
    with (wsReconnectAttempts c) by lia.
  reflexivity.
Qed.

Lemma disconnects_after_exhaustion (events : list SocketEvent) :
  forall c : Channel,
    maxReconnectAttempts c <= Z.of_N (wsReconnectAttempts c) ->
    forallb isDisconnect events = true ->
    timers (fold_left handleSocketEvent events c) = timers c /\
    wsReconnectAttempts (fold_left handleSocketEvent events c) = wsReconnectAttempts c.
Proof.
  induction events as [|ev events IH]; intros c Hc Hall; simpl;
    [split; reflexivity|].
  simpl in Hall. apply andb_true_iff in Hall as [Hev Hall].
  assert (Hstep : handleSocketEvent c ev = scheduleReconnect c)
    by (destruct ev; [discriminate | reflexivity | reflexivity]).
  rewrite Hstep.
  destruct (scheduleReconnect_exhausted c Hc) as (Ht & Ha & Hm & _).
  destruct (IH (scheduleReconnect c)) as [IHt IHa]; [lia | assumption |].
  rewrite IHt, IHa. split; assumption.
Qed.

(** The delays of the spec's example: a base delay of 5000 and three
    disconnects in a row. *)
Example three_reconnects :
  timers (fold_left handleSocketEvent [OnClose; OnClose; OnError]
            (freshChannel 10 5000))
  = [JSOverflow.Finite 5000; JSOverflow.Finite 10000; JSOverflow.Finite 20000].
Proof. reflexivity. Qed.

(** With at most three attempts, the fourth and fifth disconnect schedule
    nothing. *)
Example gives_up_after_three :
  let c := fold_left handleSocketEvent [OnClose; OnClose; OnClose; OnClose; OnError]
             (freshChannel 3 5000) in
  timers c = [JSOverflow.Finite 5000; JSOverflow.Finite 10000; JSOverflow.Finite 20000]
  /\ gaveUp c = 2%nat.
Proof. split; reflexivity. Qed.

(** C7, as stated, fails twice. Giving up is not terminal: a channel with at
    most three attempts that has given up on the fourth disconnect (the
    timer of the third attempt is still pending) counts from zero again as
    soon as a socket opens, and schedules a reconnect at the next close. And
    the delay is not always the product: at attempt 1013 with a base delay of
    5000 it is [Infinity]. *)
Lemma reconnect_resumes_after_giving_up :
  let gone := fold_left handleSocketEvent [OnClose; OnClose; OnClose; OnError]
                (freshChannel 3 5000) in
  let later := fold_left handleSocketEvent [OnOpen; OnClose] gone in
  (gaveUp gone = 1%nat /\
   maxReconnectAttempts gone <= Z.of_N (wsReconnectAttempts gone) /\
   timers gone
     = [JSOverflow.Finite 5000; JSOverflow.Finite 10000; JSOverflow.Finite 20000] /\
   timers later = timers gone ++ [JSOverflow.Finite 5000]) /\
  (wsReconnectAttempts (scheduleReconnect Fixture.wornChannel) = 1013%N /\
   timers (scheduleReconnect Fixture.wornChannel) = [JSOverflow.PlusInfinity] /\
   JSOverflow.PlusInfinity <> JSOverflow.Finite (5000 * 2 ^ (1013 - 1))).
Proof.
  split.
  - repeat split. simpl. lia.
  - repeat split. discriminate.
Qed.

(** C7 (amended): for an attempt [n] between 1 and the configured maximum
    the reconnect is scheduled after [reconnectDelay * 2^(n-1)] milliseconds
    as long as that product is below [2^1024], and after [Infinity] beyond;
    once the attempt count has reached the maximum, close and error events
    schedule nothing and leave the count alone; an open event resets the
    count, and the next close schedules a reconnect after [reconnectDelay]
    again. *)
Theorem reconnect_delay_doubles_until_giving_up :
  forall (c : Channel) (n : Z) (events : list SocketEvent),
    (1 <= n <= maxReconnectAttempts c ->
     n <= JSNumber.MAX_SAFE ->
     Z.of_N (wsReconnectAttempts c) = n - 1 ->
     Z.of_N (wsReconnectAttempts (scheduleReconnect c)) = n /\
     (reconnectDelay c <> 0 ->
      Z.abs (reconnectDelay c) * 2 ^ (n - 1) < JSOverflow.OVERFLOW ->
      timers (scheduleReconnect c) =
        timers c ++ [JSOverflow.Finite (reconnectDelay c * 2 ^ (n - 1))]) /\
     (0 < reconnectDelay c ->
      JSOverflow.OVERFLOW <= reconnectDelay c * 2 ^ (n - 1) ->
      timers (scheduleReconnect c) = timers c ++ [JSOverflow.PlusInfinity])) /\
    (maxReconnectAttempts c <= Z.of_N (wsReconnectAttempts c) ->
     forallb isDisconnect events = true ->
     timers (fold_left handleSocketEvent events c) = timers c /\
     wsReconnectAttempts (fold_left handleSocketEvent events c)
       = wsReconnectAttempts c) /\
    (1 <= maxReconnectAttempts c ->
     Z.abs (reconnectDelay c) < JSOverflow.OVERFLOW ->
     timers (fold_left handleSocketEvent [OnOpen; OnClose] c) =
       timers c ++ [JSOverflow.Finite (reconnectDelay c)]).
Proof.
  intros c n events. split; [|split].
  - intros Hn Hsafe Hat.
    rewrite scheduleReconnect_next by lia.
    cbn [wsReconnectAttempts timers].
    replace (n - 1) with (Z.of_N (wsReconnectAttempts c)) by lia.
    split; [lia|]. split.
    + intros Hd Hlt. now rewrite scale_pow2_finite.
    + intros Hd Hge. now rewrite scale_pow2_overflow.
  - intros Hmax Hall. now apply disconnects_after_exhaustion.
  - intros Hmax Hlt. cbn [fold_left handleSocketEvent].
    rewrite scheduleReconnect_next.
    + cbn [timers reconnectDelay wsReconnectAttempts]. do 2 f_equal.
      unfold JSOverflow.scale. change (JSOverflow.pow2 0) with (JSOverflow.Finite 1).
      cbv iota. rewrite Z.mul_1_r.
      destruct (Z.ltb_spec (Z.abs (reconnectDelay c)) JSOverflow.OVERFLOW);
        [reflexivity | lia].
    + cbn. lia.
    + cbn. reflexivity.
Qed.

Lemma reconnect_delay_doubles_until_giving_up_witness :
  timers (scheduleReconnect
            (scheduleReconnect (scheduleReconnect (freshChannel 10 5000))))
  = [JSOverflow.Finite 5000; JSOverflow.Finite 10000]
    ++ [JSOverflow.Finite (5000 * 2 ^ (3 - 1))].
Proof.
  destruct (reconnect_delay_doubles_until_giving_up
              (scheduleReconnect (scheduleReconnect (freshChannel 10 5000)))
              3 []) as [H _].
  destruct H as (_ & H & _);
    [simpl; lia | vm_compute; discriminate | reflexivity |].
  apply H; [simpl; lia | vm_compute; reflexivity].
Defined.

End ReconnectClaims.

(** ** The request queue *)

Section QueueFacts.

Import MarketTracker.

(** A turn moves the request it serves either to the settled callers or
    back to the queue, and touches no other caller. *)
Lemma turn_keeps_callers d req rest arrived answer :
  Permutation
    (settledCallers (turn d req rest arrived answer)
     ++ callersOf (requestQueue (turn d req rest arrived answer)))
    (settledCallers d ++ callersOf (req :: rest) ++ callersOf arrived).
Proof.
  unfold turn, settledCallers, callersOf.
  destruct (result answer) as [error|data]; [destruct (retryable _ _)|];
    cbn [settled requestQueue caller map]; rewrite ?map_app; cbn [map settledCaller].
  - apply Permutation_app_head. reflexivity.
  - rewrite <- app_assoc. apply Permutation_app_head. cbn [app].
    reflexivity.
  - rewrite <- app_assoc. apply Permutation_app_head. cbn [app].
    reflexivity.
Qed.

Lemma totalBudget_app (q1 q2 : list Request) :
  totalBudget (q1 ++ q2) = (totalBudget q1 + totalBudget q2)%nat.
Proof.
  unfold totalBudget. induction q1 as [|r q1 IH]; cbn [app fold_right]; [reflexivity|].
  rewrite IH. apply Nat.add_assoc.
Qed.

Lemma turn_budget d req rest arrived answer :
  (totalBudget (requestQueue (turn d req rest arrived answer))
   < totalBudget (req :: rest) + totalBudget arrived)%nat.
Proof.
  change (req :: rest) with ([req] ++ rest).
  unfold turn.
  destruct (result answer) as [error|data]; [destruct (retryable _ _) eqn:E|];
    cbn [requestQueue];
    try change ({| url := url req; retries := retries req - 1; caller := caller req |}
                :: rest ++ arrived)
      with ([{| url := url req; retries := retries req - 1; caller := caller req |}]
            ++ rest ++ arrived);
    rewrite !totalBudget_app;
    generalize (totalBudget rest) (totalBudget arrived); intros b1 b2;
    unfold totalBudget, budget; cbn [fold_right retries].
  - unfold retryable in E. apply andb_true_iff in E as [Hpos _].
    apply Z.ltb_lt in Hpos. lia.
  - lia.
  - lia.
Qed.


(** *** The three ways a turn ends *)




Lemma slept_nonneg (ms lag : Z) : 0 <= slept ms lag.
Proof. unfold slept. lia. Qed.

(** A turn logs one dispatch, at the time it leaves in [lastRequestTime];
    the clock only moves forward. *)
Lemma turn_dispatch_log d req rest arrived answer :
  dispatched (turn d req rest arrived answer) =
    dispatched d ++ [(lastRequestTime (turn d req rest arrived answer), url req)] /\
  now d <= lastRequestTime (turn d req rest arrived answer)
        <= now (turn d req rest arrived answer).
Proof.
  pose proof (slept_nonneg (rateLimitsDelay - (now d - lastRequestTime d))
                (spacingLag answer)) as Hs.
  pose proof (slept_nonneg retryPause (pauseLag answer)) as Hp.
  unfold turn.
  destruct (result answer) as [error|data]; [destruct (retryable _ _)|];
    cbn [lastRequestTime dispatched now];
    (destruct (Z.ltb_spec (now d - lastRequestTime d) rateLimitsDelay);
     repeat split; lia).
Qed.

Lemma turn_dispatches_once d req rest arrived answer :
  List.length (dispatched (turn d req rest arrived answer)) =
  S (List.length (dispatched d)).
Proof.
  destruct (turn_dispatch_log d req rest arrived answer) as (-> & _).
  rewrite length_app. cbn [List.length]. lia.
Qed.

(** *** The worker against the account of the specification *)









(** *** Spacing *)

Lemma spacedBy_snoc (gap : Z) (times : list Z) (t : Z) :
  spacedBy gap times -> Forall (fun x => x + gap <= t) times ->
  spacedBy gap (times ++ [t]).
Proof.
  induction times as [|a times IH]; intros Hsp Hall; cbn [app spacedBy].
  - split; exact I.
  - destruct Hsp as [Hhead Htail]. inversion Hall as [|? ? Ha Hrest]; subst.
    split; [|now apply IH].
    destruct times as [|b times]; cbn [app]; assumption.
Qed.

(** A turn dispatches no earlier than [rateLimitsDelay] after the dispatch
    before it, less what its spacing timer fired early. *)
Lemma turn_dispatch_gap d req rest arrived answer (early : Z) :
  0 <= early -> - early <= spacingLag answer ->
  lastRequestTime d + (rateLimitsDelay - early)
    <= lastRequestTime (turn d req rest arrived answer).
Proof.
  intros Hearly Hlag. unfold turn, slept.
  destruct (result answer) as [error|data]; [destruct (retryable _ _)|];
    cbn [lastRequestTime];
    (destruct (Z.ltb_spec (now d - lastRequestTime d) rateLimitsDelay); lia).
Qed.

Lemma turn_spaced d req rest arrived answer (early : Z) :
  0 <= early -> - early <= spacingLag answer ->
  clockConsistent d ->
  spacedBy (rateLimitsDelay - early) (map fst (dispatched d)) ->
  clockConsistent (turn d req rest arrived answer) /\
  spacedBy (rateLimitsDelay - early)
    (map fst (dispatched (turn d req rest arrived answer))).
Proof.
  intros Hearly Hlag [Hclock Hpast] Hsp.
  destruct (turn_dispatch_log d req rest arrived answer) as (Hsent & Hnow).
  pose proof (turn_dispatch_gap d req rest arrived answer early Hearly Hlag) as Hgap.
  set (d1 := turn d req rest arrived answer) in *.
  unfold clockConsistent. rewrite Hsent.
  repeat split.
  - lia.
  - apply Forall_app. split.
    + eapply Forall_impl; [|exact Hpast]. cbv beta. intros x Hx. lia.
    + repeat constructor. simpl. lia.
  - rewrite map_app. cbn [map fst]. apply spacedBy_snoc; [assumption|].
    apply Forall_map. eapply Forall_impl; [|exact Hpast]. cbv beta. intros x Hx. lia.
Qed.

Lemma worker_spaced net (early : Z) :
  0 <= early ->
  (forall k target, - early <= spacingLag (axiosGet net k target)) ->
  forall (fuel k : nat) (d : Dispatcher),
    clockConsistent d ->
    spacedBy (rateLimitsDelay - early) (map fst (dispatched d)) ->
    clockConsistent (worker net fuel k d) /\
    spacedBy (rateLimitsDelay - early) (map fst (dispatched (worker net fuel k d))).
Proof.
  intros Hearly Hlag.
  induction fuel as [|fuel IH]; intros k d Hc Hsp; cbn [worker];
    destruct (requestQueue d) as [|req rest]; try (split; assumption).
  destruct (turn_spaced d req rest (arrivals net k) (axiosGet net k (url req)) early
              Hearly (Hlag k (url req)) Hc Hsp).
  now apply IH.
Qed.



(** The run of the sample queue: the first caller is served on the third
    try, the second is rejected when its only retry is spent, the third is
    served at once. *)
Example moody_run :
  let d := processQueue Sample.moodyNetwork 20 Sample.loaded in
  settled d = [Resolved 1 "[events]"; RejectedWith 2 Sample.connectionReset;
               Resolved 3 "[tags]"] /\
  map fst (dispatched d) = [1000; 3031; 5062; 5166; 7197; 7301].
Proof. split; reflexivity. Qed.

(** The same run in the account of the specification. *)
Example moody_run_served :
  servedInOrder Sample.moodyNetwork 0 Sample.threeRequests
    [Resolved 1 "[events]"; RejectedWith 2 Sample.connectionReset;
     Resolved 3 "[tags]"] 6.
Proof.
  apply (served_next _ 0 _ _ 3); [reflexivity|].
  apply (served_next _ 3 _ _ 2); [reflexivity|].
  apply (served_next _ 5 _ _ 1 _ _ 0); [reflexivity|].
  apply served_none.
Qed.

(** A request that does not fail, made while the dispatcher is idle, is
    dispatched at once and resolved. *)
Example single_request_served :
  let d := makeRequest Sample.moodyNetwork 5 (idle 1000) "/tags" 3 7 in
  settled d = [Resolved 7 "[tags]"] /\
  dispatched d = [(1000, "/tags"%string)] /\
  requestQueue d = [] /\ isProcessingQueue d = false.
Proof. repeat split. Qed.

(** A timeout ([ECONNABORTED]) is not retried, whatever retries are left. *)
Example timeout_not_retried :
  retryable 3 Sample.timedOut = false.
Proof. reflexivity. Qed.

(** C8, as stated, fails: the worker sets one timer for the missing time
    and dispatches when it fires, without looking at the clock again. On a
    machine whose timer fires one millisecond early by [Date.now()], three
    requests that are answered within 30 ms leave 99 ms apart. *)
Lemma early_timer_breaks_spacing :
  let d := processQueue Fixture.hastyNetwork 5 Sample.loaded in
  map fst (dispatched d) = [1000; 1099; 1198] /\
  ~ spacedBy rateLimitsDelay (map fst (dispatched d)).
Proof.
  split; [reflexivity|].
  cbn. unfold rateLimitsDelay. lia.
Qed.

(** C8 (amended): before each dispatch, a turn that finds less than
    [rateLimitsDelay] elapsed since the dispatch before it sets one timer
    for the missing time and dispatches when the timer fires, without
    reading the spacing again. When no spacing timer fires more than [early]
    milliseconds ahead of its delay, every dispatch comes at least
    [rateLimitsDelay - early] milliseconds after the one before it; so when
    no timer fires early ([early = 0]), no two dispatches are closer than
    [rateLimitsDelay]. *)
Theorem dispatches_keep_minimum_spacing :
  forall (net : Network) (fuel : nat) (d : Dispatcher) (early : Z)
         (req : Request) (rest arrived : list Request) (answer : Answer),
    0 <= early ->
    (forall k target, - early <= spacingLag (axiosGet net k target)) ->
    clockConsistent d ->
    spacedBy (rateLimitsDelay - early) (map fst (dispatched d)) ->
    (- early <= spacingLag answer ->
     Z.max (now d) (lastRequestTime d + (rateLimitsDelay - early))
       <= lastRequestTime (turn d req rest arrived answer)) /\
    spacedBy (rateLimitsDelay - early)
      (map fst (dispatched (processQueue net fuel d))) /\
    clockConsistent (processQueue net fuel d).
Proof.
  intros net fuel d early req rest arrived answer Hearly Hlag Hc Hsp. split.
  - intros Hanswer.
    pose proof (turn_dispatch_gap d req rest arrived answer early Hearly Hanswer).
    destruct (turn_dispatch_log d req rest arrived answer) as (_ & Hnow & _).
    lia.
  - unfold processQueue.
    destruct (isProcessingQueue d || _); [split; assumption|].
    apply and_comm. apply worker_spaced; assumption.
Qed.

Lemma dispatches_keep_minimum_spacing_witness :
  spacedBy (rateLimitsDelay - 0)
    (map fst (dispatched (processQueue Sample.moodyNetwork 20 Sample.loaded))).
Proof.
  destruct (dispatches_keep_minimum_spacing Sample.moodyNetwork 20 Sample.loaded 0
              {| url := "/events"; retries := 3; caller := 1%nat |} [] []
              (axiosGet Sample.moodyNetwork 0 "/events")) as (_ & H & _).
  - lia.
  - intros k target. simpl. lia.
  - split; [simpl; lia | constructor].
  - exact I.
  - exact H.
Defined.

End QueueFacts.

(** ** The realtime fan-out *)

Section FanOutClaims.

Import MarketTracker.

Lemma notify_fold (data : RealtimeUpdate) (callbacks : list Callback) :
  forall s : State,
    let s' := fold_left (notifyOne data) callbacks s in
    realtimeCallbacks s' = realtimeCallbacks s /\
    active s' = active s /\ resolved s' = resolved s /\ saves s' = saves s /\
    deliveries s' =
      deliveries s
      ++ map (fun c => {| receiver := callbackId c; payload := data |}) callbacks.
Proof.
  induction callbacks as [|c callbacks IH]; intros s; cbn [fold_left map].
  - repeat split. now rewrite app_nil_r.
  - destruct (IH (notifyOne data s c)) as (Hc & Ha & Hr & Hs & Hd).
    cbv zeta in *. rewrite Hc, Ha, Hr, Hs, Hd. cbn [notifyOne realtimeCallbacks
      active resolved saves deliveries]. repeat split.
    now rewrite <- app_assoc.
Qed.

(** Every registered callback is called once per update, in registration
    order, whether or not an earlier one threw; nobody is unsubscribed. *)
Lemma notifyRealtimeUpdate_delivers (s : State) (data : RealtimeUpdate) :
  realtimeCallbacks (notifyRealtimeUpdate s data) = realtimeCallbacks s /\
  deliveries (notifyRealtimeUpdate s data) =
    deliveries s
    ++ map (fun c => {| receiver := callbackId c; payload := data |})
         (realtimeCallbacks s).
Proof.
  unfold notifyRealtimeUpdate.
  destruct (notify_fold data (realtimeCallbacks s) s) as (Hc & _ & _ & _ & Hd).
  split; assumption.
Qed.

(** Registering keeps the set free of duplicates, so no callback is called
    twice for one update. *)
Lemma addRealtimeCallback_nodup (s : State) (callback : Callback) :
  NoDup (map callbackId (realtimeCallbacks s)) ->
  NoDup (map callbackId (realtimeCallbacks (addRealtimeCallback s callback))).
Proof.
  intros Hnd. unfold addRealtimeCallback. cbn [realtimeCallbacks].
  destruct (existsb (sameCallback callback) (realtimeCallbacks s)) eqn:E;
    [assumption|].
  rewrite map_app. cbn [map]. apply NoDup_app; [assumption | repeat constructor; simpl; tauto |].
  intros x Hx [<-|[]].
  apply in_map_iff in Hx as (c & Hid & Hc).
  assert (existsb (sameCallback callback) (realtimeCallbacks s) = true); [|congruence].
  apply existsb_exists. exists c. split; [assumption|].
  unfold sameCallback. rewrite Hid. apply Nat.eqb_refl.
Qed.

Lemma notify_errors (data : RealtimeUpdate) (callbacks : list Callback) :
  forall s : State,
    callbackErrors (fold_left (notifyOne data) callbacks s) =
      callbackErrors s
      ++ flat_map (fun c => match throws c data with
                            | Some message => [message]
                            | None => []
                            end) callbacks.
Proof.
  induction callbacks as [|c callbacks IH]; intros s; cbn [fold_left flat_map].
  - now rewrite app_nil_r.
  - rewrite IH. cbn [notifyOne callbackErrors].
    destruct (throws c data); [now rewrite <- app_assoc | reflexivity].
Qed.

(** Among the deliveries of one update to callbacks with distinct
    identities, each callback finds its own once. *)
Lemma one_delivery_each (data : RealtimeUpdate) (callbacks : list Callback)
  (callback : Callback) :
  NoDup (map callbackId callbacks) -> In callback callbacks ->
  List.length
    (filter (fun sent => Nat.eqb (receiver sent) (callbackId callback))
       (map (fun c => {| receiver := callbackId c; payload := data |}) callbacks))
  = 1%nat.
Proof.
  induction callbacks as [|c callbacks IH]; intros Hnd Hin; [destruct Hin|].
  cbn [map] in Hnd. inversion Hnd as [|? ? Hfresh Hnd']; subst.
  cbn [map filter receiver].
  destruct (Nat.eqb_spec (callbackId c) (callbackId callback)) as [Heq|Hne].
  - cbn [List.length]. f_equal.
    assert (Hnone : forall l,
               ~ In (callbackId callback) (map callbackId l) ->
               filter (fun sent => Nat.eqb (receiver sent) (callbackId callback))
                 (map (fun c0 => {| receiver := callbackId c0; payload := data |}) l)
               = []).
    { induction l as [|c0 l IHl]; intros Hno; [reflexivity|].
      cbn [map filter receiver].
      destruct (Nat.eqb_spec (callbackId c0) (callbackId callback)) as [E|_].
      - exfalso. apply Hno. left. exact E.
      - apply IHl. intros Hl. apply Hno. right. exact Hl. }
    rewrite Hnone; [reflexivity|]. now rewrite <- Heq.
  - apply IH; [assumption|]. destruct Hin as [->|Hin]; [congruence | assumption].
Qed.

(** After [removeRealtimeCallback] no delivery goes to the callback. *)
Lemma removed_gets_nothing (data : RealtimeUpdate) (callbacks : list Callback)
  (callback : Callback) :
  filter (fun sent => Nat.eqb (receiver sent) (callbackId callback))
    (map (fun c => {| receiver := callbackId c; payload := data |})
       (filter (fun c => negb (sameCallback callback c)) callbacks))
  = [].
Proof.
  induction callbacks as [|c callbacks IH]; [reflexivity|].
  cbn [filter]. unfold sameCallback at 1.
  destruct (Nat.eqb_spec (callbackId callback) (callbackId c)) as [Heq|Hne];
    cbn [negb]; [exact IH|].
  cbn [map filter receiver].
  destruct (Nat.eqb_spec (callbackId c) (callbackId callback)) as [E|_];
    [congruence | exact IH].
Qed.

(** C4, as stated, fails: a callback that throws on the first update is
    still registered afterwards and is called again with the second update.
    The other callback receives each update once. *)
Lemma throwing_callback_stays_subscribed :
  let s1 := notifyRealtimeUpdate Sample.tracking Sample.update1 in
  let s2 := notifyRealtimeUpdate s1 Sample.update2 in
  throws Sample.thrower Sample.update1 = Some "write after end"%string /\
  realtimeCallbacks s1 = [Sample.thrower; Sample.listener] /\
  deliveries s2 =
    [ {| receiver := 1%nat; payload := Sample.update1 |};
      {| receiver := 2%nat; payload := Sample.update1 |};
      {| receiver := 1%nat; payload := Sample.update2 |};
      {| receiver := 2%nat; payload := Sample.update2 |} ] /\
  callbackErrors s2 = ["write after end"%string; "write after end"%string].
Proof. repeat split. Qed.

(** C4 (amended): an update goes once to every callback registered at that
    moment, in the order of registration, whether or not one of them throws;
    what a callback throws is caught and logged, the callback stays
    registered and is called again with the next update; a callback leaves
    the set through [removeRealtimeCallback] only, and then receives
    nothing. *)
Theorem thrower_is_logged_and_stays_subscribed :
  forall (s : State) (data next : RealtimeUpdate) (callback : Callback),
    let s1 := notifyRealtimeUpdate s data in
    let gone := removeRealtimeCallback s callback in
    let mine := fun sent : Delivery => Nat.eqb (receiver sent) (callbackId callback) in
    (realtimeCallbacks s1 = realtimeCallbacks s /\
     deliveries s1 =
       deliveries s
       ++ map (fun c => {| receiver := callbackId c; payload := data |})
            (realtimeCallbacks s) /\
     callbackErrors s1 =
       callbackErrors s
       ++ flat_map (fun c => match throws c data with
                             | Some message => [message]
                             | None => []
                             end) (realtimeCallbacks s)) /\
    (forall message,
       In callback (realtimeCallbacks s) ->
       throws callback data = Some message ->
       In message (callbackErrors s1) /\
       In callback (realtimeCallbacks s1) /\
       In {| receiver := callbackId callback; payload := next |}
          (deliveries (notifyRealtimeUpdate s1 next))) /\
    (NoDup (map callbackId (realtimeCallbacks s)) ->
     In callback (realtimeCallbacks s) ->
     List.length (filter mine (deliveries s1)) =
       S (List.length (filter mine (deliveries s)))) /\
    (~ In callback (realtimeCallbacks gone) /\
     filter mine (deliveries (notifyRealtimeUpdate gone data)) =
       filter mine (deliveries s)).
Proof.
  intros s data next callback s1 gone mine.
  destruct (notifyRealtimeUpdate_delivers s data) as [Hc Hd]. fold s1 in Hc, Hd.
  assert (He : callbackErrors s1 =
               callbackErrors s
               ++ flat_map (fun c => match throws c data with
                                     | Some message => [message]
                                     | None => []
                                     end) (realtimeCallbacks s))
    by apply notify_errors.
  split; [repeat split; assumption|]. split; [|split].
  - intros message Hin Hthrows. split; [|split].
    + rewrite He. apply in_or_app. right. apply in_flat_map.
      exists callback. split; [assumption|]. rewrite Hthrows. now left.
    + now rewrite Hc.
    + destruct (notifyRealtimeUpdate_delivers s1 next) as [_ ->].
      apply in_or_app. right. rewrite Hc.
      apply (in_map (fun c => {| receiver := callbackId c; payload := next |})).
      assumption.
  - intros Hnd Hin. rewrite Hd, filter_app, length_app.
    subst mine. rewrite (one_delivery_each data _ callback Hnd Hin). lia.
  - split.
    + subst gone. cbn [removeRealtimeCallback realtimeCallbacks].
      intros Hin. apply filter_In in Hin as [_ Hneg].
      unfold sameCallback in Hneg. now rewrite Nat.eqb_refl in Hneg.
    + destruct (notifyRealtimeUpdate_delivers gone data) as [_ ->].
      rewrite filter_app. subst gone mine.
      cbn [removeRealtimeCallback realtimeCallbacks deliveries].
      rewrite removed_gets_nothing. apply app_nil_r.
Qed.

Lemma thrower_is_logged_and_stays_subscribed_witness :
  In "write after end"%string
     (callbackErrors (notifyRealtimeUpdate Sample.tracking Sample.update1)) /\
  In Sample.thrower
     (realtimeCallbacks (notifyRealtimeUpdate Sample.tracking Sample.update1)) /\
  In {| receiver := callbackId Sample.thrower; payload := Sample.update2 |}
     (deliveries
        (notifyRealtimeUpdate
           (notifyRealtimeUpdate Sample.tracking Sample.update1) Sample.update2)).
Proof.
  destruct (thrower_is_logged_and_stays_subscribed Sample.tracking Sample.update1
              Sample.update2 Sample.thrower) as (_ & H & _).
  apply H; [simpl; tauto | reflexivity].
Defined.

(** The SSE broadcast of the application, one level down, does drop the
    client whose write throws. *)
Lemma broadcastToClients_drops_failed (clients : list App.Client) (message : string) :
  fst (App.broadcastToClients clients message) =
    filter (fun c => match App.writeThrows c message with
                     | Some _ => false
                     | None => true
                     end) clients /\
  snd (App.broadcastToClients clients message) = map App.clientId clients.
Proof.
  induction clients as [|c clients IH]; cbn [App.broadcastToClients filter map].
  - split; reflexivity.
  - destruct (App.broadcastToClients clients message) as [kept written].
    cbn [fst snd] in IH. destruct IH as [-> ->].
    destruct (App.writeThrows c message); split; reflexivity.
Qed.

Example dead_client_dropped :
  App.broadcastToClients [Sample.deadClient; Sample.liveClient] "data: {}" =
  ([Sample.liveClient], [1%nat; 2%nat]).
Proof. reflexivity. Qed.

End FanOutClaims.

(** ** The resolution handler *)

Section ResolutionClaims.

Import MarketTracker.

Lemma findIndex_some (ms : list Market) (marketId : string) :
  forall i, findIndex ms marketId = Some i ->
    exists m, nth_error ms i = Some m /\ nth i ms noMarket = m /\ id m = marketId.
Proof.
  induction ms as [|m0 ms IH]; intros i; cbn [findIndex]; [discriminate|].
  destruct (String.eqb_spec (id m0) marketId) as [E|Hne].
  - intros [= <-]. exists m0. repeat split. exact E.
  - destruct (findIndex ms marketId) as [j|]; [|discriminate].
    intros [= <-]. destruct (IH j eq_refl) as (m & Hn & Hd & Hid).
    exists m. repeat split; assumption.
Qed.

Lemma replaceAt_length (ms : list Market) (i : nat) (m' : Market) :
  List.length (replaceAt ms i m') = List.length ms.
Proof.
  revert i. induction ms as [|m ms IH]; intros [|i]; cbn [replaceAt List.length];
    try reflexivity. now rewrite IH.
Qed.

Lemma replaceAt_other (ms : list Market) (i j : nat) (m' : Market) :
  j <> i -> nth_error (replaceAt ms i m') j = nth_error ms j.
Proof.
  revert i j. induction ms as [|m ms IH]; intros [|i] [|j] Hne;
    cbn [replaceAt nth_error]; try reflexivity; try congruence.
  apply IH. congruence.
Qed.

Lemma replaceAt_same (ms : list Market) (i : nat) (m m' : Market) :
  nth_error ms i = Some m -> nth_error (replaceAt ms i m') i = Some m'.
Proof.
  revert i. induction ms as [|m0 ms IH]; intros [|i]; cbn [replaceAt nth_error];
    try discriminate; [reflexivity | apply IH].
Qed.

Lemma resolveFirst_absent (evs : JSMap.t EventData) (marketId at_ sentAt : string) :
  (forall k e, In (k, e) evs -> findIndex (markets e) marketId = None) ->
  resolveFirst evs marketId at_ sentAt = None.
Proof.
  induction evs as [|[k e] evs IH]; intros Hnone; cbn [resolveFirst]; [reflexivity|].
  rewrite (Hnone k e) by now left.
  rewrite IH; [reflexivity|]. intros k0 e0 HI. apply (Hnone k0 e0). now right.
Qed.

Lemma resolveFirst_present (marketId at_ sentAt : string)
  (pre : JSMap.t EventData) (k : string) (e : EventData) (post : JSMap.t EventData)
  (i : nat) :
  (forall k0 e0, In (k0, e0) pre -> findIndex (markets e0) marketId = None) ->
  findIndex (markets e) marketId = Some i ->
  resolveFirst (pre ++ (k, e) :: post) marketId at_ sentAt =
  Some (pre ++ (k, resolveInEvent e i (resolveMarket (nth i (markets e) noMarket) at_))
            :: post,
        {| eventId := k;
           marketId := marketId;
           market := resolveMarket (nth i (markets e) noMarket) at_;
           eventTitle := title e;
           eventActiveMarketsCount := activeMarketsCount e - 1;
           eventResolvedMarketsCount := resolvedMarketsCount e + 1;
           timestamp := sentAt |}).
Proof.
  intros Hpre Hfound. induction pre as [|[k0 e0] pre IH]; cbn [app resolveFirst].
  - rewrite Hfound. reflexivity.
  - rewrite (Hpre k0 e0) by now left.
    rewrite IH; [reflexivity|]. intros k1 e1 HI. apply (Hpre k1 e1). now right.
Qed.

Lemma resolveFirst_keys (marketId at_ sentAt : string) (evs : JSMap.t EventData) :
  forall evs' update,
    resolveFirst evs marketId at_ sentAt = Some (evs', update) ->
    JSMap.keys evs' = JSMap.keys evs.
Proof.
  induction evs as [|[k e] evs IH]; intros evs' update; cbn [resolveFirst];
    [discriminate|].
  destruct (findIndex (markets e) marketId) as [i|].
  - intros [= <- _]. reflexivity.
  - destruct (resolveFirst evs marketId at_ sentAt) as [[evs'' u]|]; [|discriminate].
    intros [= <- _]. unfold JSMap.keys in *. cbn [map fst].
    now rewrite (IH evs'' u eq_refl).
Qed.

(** What [handleMarketResolution] leaves of the state when the scan found
    the market. *)
Lemma handleMarketResolution_found (s : State) (marketId at_ sentAt : string)
  (active' : JSMap.t EventData) (update : RealtimeUpdate) :
  resolveFirst (active s) marketId at_ sentAt = Some (active', update) ->
  let s' := handleMarketResolution s marketId at_ sentAt in
  active s' = active' /\ resolved s' = resolved s /\
  realtimeCallbacks s' = realtimeCallbacks s /\
  deliveries s' =
    deliveries s
    ++ map (fun c => {| receiver := callbackId c; payload := update |})
         (realtimeCallbacks s).
Proof.
  intros Hr. unfold handleMarketResolution. rewrite Hr. cbv zeta.
  unfold saveData, notifyRealtimeUpdate.
  cbn [active resolved realtimeCallbacks deliveries].
  match goal with
  | |- context [fold_left (notifyOne update) ?cbs ?s0] =>
      destruct (notify_fold update cbs s0) as (Hc & Ha & Hres & _ & Hd)
  end.
  cbv zeta in *. cbn [active resolved realtimeCallbacks deliveries] in *.
  repeat split; assumption.
Qed.

(** C10: the handler leaves the resolved events, the keys of the active
    events and the callbacks as they were. When no active event holds the
    market, the state is unchanged (so nothing is sent). When the first
    active event that holds it is [e], found after the events [pre], only
    that event changes, it stays in its place in the active map, and in it
    only the two counters (one down, one up, sum kept) and, of the market
    found, only the status and [resolvedAt]; one update for that event and
    market goes to each callback. *)
Theorem resolution_changes_one_market_and_its_counters :
  forall (s : State) (marketId at_ sentAt : string),
    let s' := handleMarketResolution s marketId at_ sentAt in
    resolved s' = resolved s /\
    JSMap.keys (active s') = JSMap.keys (active s) /\
    realtimeCallbacks s' = realtimeCallbacks s /\
    ((forall k e, In (k, e) (active s) -> findIndex (markets e) marketId = None) ->
     s' = s) /\
    (forall pre k e post i,
       active s = pre ++ (k, e) :: post ->
       (forall k0 e0, In (k0, e0) pre -> findIndex (markets e0) marketId = None) ->
       findIndex (markets e) marketId = Some i ->
       exists (m : Market) (e' : EventData) (update : RealtimeUpdate),
         nth_error (markets e) i = Some m /\ id m = marketId /\
         active s' = pre ++ (k, e') :: post /\
         title e' = title e /\ eventDetails e' = eventDetails e /\
         activeMarketsCount e' = activeMarketsCount e - 1 /\
         resolvedMarketsCount e' = resolvedMarketsCount e + 1 /\
         activeMarketsCount e' + resolvedMarketsCount e' =
           activeMarketsCount e + resolvedMarketsCount e /\
         List.length (markets e') = List.length (markets e) /\
         (forall j, j <> i -> nth_error (markets e') j = nth_error (markets e) j) /\
         nth_error (markets e') i =
           Some {| id := id m; question := question m; marketStatus := "resolved";
                   resolvedAt := Some at_; details := details m |} /\
         eventId update = k /\ MarketTracker.marketId update = marketId /\
         deliveries s' =
           deliveries s
           ++ map (fun c => {| receiver := callbackId c; payload := update |})
                (realtimeCallbacks s)).
Proof.
  intros s marketId at_ sentAt s'.
  assert (Hframe : resolved s' = resolved s /\
                   JSMap.keys (active s') = JSMap.keys (active s) /\
                   realtimeCallbacks s' = realtimeCallbacks s).
  { destruct (resolveFirst (active s) marketId at_ sentAt) as [[active' update]|] eqn:Hr.
    - destruct (handleMarketResolution_found s marketId at_ sentAt active' update Hr)
        as (Ha & Hres & Hc & _).
      fold s' in Ha, Hres, Hc. rewrite Ha.
      repeat split; try assumption.
      exact (resolveFirst_keys marketId at_ sentAt (active s) active' update Hr).
    - subst s'. unfold handleMarketResolution. rewrite Hr. repeat split. }
  destruct Hframe as (Hres & Hkeys & Hcbs).
  repeat split; try assumption.
  - intros Hnone. subst s'. unfold handleMarketResolution.
    now rewrite (resolveFirst_absent (active s) marketId at_ sentAt Hnone).
  - intros pre k e post i Hact Hpre Hfound.
    destruct (findIndex_some (markets e) marketId i Hfound) as (m & Hnth & Hdef & Hid).
    pose proof (resolveFirst_present marketId at_ sentAt pre k e post i Hpre Hfound)
      as Hr.
    rewrite <- Hact, Hdef in Hr.
    destruct (handleMarketResolution_found s marketId at_ sentAt _ _ Hr)
      as (Ha & _ & _ & Hd).
    fold s' in Ha, Hd.
    exists m, (resolveInEvent e i (resolveMarket m at_)),
      {| eventId := k;
         MarketTracker.marketId := marketId;
         market := resolveMarket m at_;
         eventTitle := title e;
         eventActiveMarketsCount := activeMarketsCount e - 1;
         eventResolvedMarketsCount := resolvedMarketsCount e + 1;
         timestamp := sentAt |}.
    cbn [resolveInEvent title eventDetails activeMarketsCount resolvedMarketsCount
         markets eventId MarketTracker.marketId].
    split; [exact Hnth|]. split; [exact Hid|]. split; [exact Ha|].
    split; [reflexivity|]. split; [reflexivity|]. split; [reflexivity|].
    split; [reflexivity|]. split; [lia|].
    split; [apply replaceAt_length|].
    split; [intros j Hj; now apply replaceAt_other|].
    split; [unfold resolveMarket; now apply replaceAt_same with (m := m)|].
    split; [reflexivity|]. split; [reflexivity|]. exact Hd.
Qed.

Lemma resolution_changes_one_market_and_its_counters_witness :
  handleMarketResolution Sample.tracking "m-0" "t1" "t2" = Sample.tracking.
Proof.
  destruct (resolution_changes_one_market_and_its_counters
              Sample.tracking "m-0" "t1" "t2") as (_ & _ & _ & H & _).
  apply H. intros k e [E|[E|[]]]; injection E as <- <-; reflexivity.
Defined.

(** The second market of the sample event resolves: the event keeps its
    place, its counters move from 2 and 0 to 1 and 1, the first market and
    the resolved events are untouched, both callbacks are called. *)
Example weather_market_resolves :
  let s' := handleMarketResolution Sample.tracking "m-2" "t1" "t2" in
  JSMap.keys (active s') = ["e-0"%string; "e-1"%string] /\
  resolved s' = resolved Sample.tracking /\
  option_map activeMarketsCount (JSMap.get (active s') "e-1") = Some 1 /\
  option_map resolvedMarketsCount (JSMap.get (active s') "e-1") = Some 1 /\
  option_map markets (JSMap.get (active s') "e-1") =
    Some [Sample.marketA;
          {| id := "m-2"; question := "Will it snow?"; marketStatus := "resolved";
             resolvedAt := Some "t1"%string;
             details := [("slug"%string, "snow"%string)] |}] /\
  map receiver (deliveries s') = [1%nat; 2%nat].
Proof. repeat split. Qed.

End ResolutionClaims.

(** ** The winner queries *)

Section WinnerQueryFacts.

Import WinnerTracker WinnerQueries.

Lemma insertByPayout_perm x l : Permutation (insertByPayout x l) (x :: l).
Proof.
  induction l as [|y l IH]; cbn [insertByPayout]; [reflexivity|].
  destruct (payout y <=? payout x); [reflexivity|].
  rewrite IH. apply perm_swap.
Qed.

Lemma sortByPayout_perm l : Permutation (sortByPayout l) l.
Proof.
  induction l as [|x l IH]; cbn [sortByPayout fold_right]; [reflexivity|].
  fold (sortByPayout l). rewrite insertByPayout_perm. now constructor.
Qed.

Lemma insertByPayout_sorted x l :
  StronglySorted fallingPayout l -> StronglySorted fallingPayout (insertByPayout x l).
Proof.
  induction 1 as [|y l Hs IH Hy]; cbn [insertByPayout].
  - repeat constructor.
  - destruct (Z.leb_spec (payout y) (payout x)) as [Hle|Hgt].
    + constructor; [now constructor|].
      constructor; [exact Hle|].
      eapply Forall_impl; [|exact Hy]. unfold fallingPayout. intros q Hq. lia.
    + constructor; [exact IH|].
      eapply Permutation_Forall; [symmetry; apply insertByPayout_perm|].
      constructor; [unfold fallingPayout; lia | exact Hy].
Qed.

Lemma sortByPayout_sorted l : StronglySorted fallingPayout (sortByPayout l).
Proof.
  induction l as [|x l IH]; cbn [sortByPayout fold_right]; [constructor|].
  now apply insertByPayout_sorted.
Qed.

Lemma sorted_app_dominates (l1 l2 : list RankedWinner) :
  StronglySorted fallingPayout (l1 ++ l2) ->
  StronglySorted fallingPayout l1 /\
  forall r q, In r l1 -> In q l2 -> payout q <= payout r.
Proof.
  induction l1 as [|x l1 IH]; cbn [app]; intros Hs.
  - split; [constructor | intros r q []].
  - inversion Hs as [|? ? Hs' Hx]; subst. destruct (IH Hs') as [IH1 IH2].
    apply Forall_app in Hx as [Hx1 Hx2]. split.
    + now constructor.
    + intros r q [<-|Hr] Hq.
      * rewrite Forall_forall in Hx2. exact (Hx2 q Hq).
      * now apply IH2.
Qed.

Lemma slice0_prefix {T : Type} (l : list T) (limit : Z) :
  exists rest, l = slice0 l limit ++ rest.
Proof.
  unfold slice0. destruct (limit <? 0);
    eexists; symmetry; apply firstn_skipn.
Qed.

Lemma allWinners_In (mw : JSMap.t WinnerData) (r : RankedWinner) :
  In r (allWinners mw) <->
  exists data, In (ofMarket r, data) mw /\ In (winner r) (winners data) /\
               ofOutcome r = winningOutcome data.
Proof.
  unfold allWinners. rewrite in_flat_map. split.
  - intros ([k data] & Hin & Hr). apply in_map_iff in Hr as (w & <- & Hw).
    cbn [fst snd] in *. exists data. cbn [winner ofMarket ofOutcome]. auto.
  - intros (data & Hin & Hw & Ho). exists (ofMarket r, data). split; [exact Hin|].
    apply in_map_iff. exists (winner r). split; [|exact Hw].
    cbn [fst snd]. rewrite <- Ho. now destruct r.
Qed.

(** X1: the entries [getTopWinners] returns are in falling order of payout,
    and together with the entries it leaves out they are exactly, with
    multiplicity, the winners of all filed records; no entry left out is
    paid more than an entry returned. *)
Theorem getTopWinners_returns_the_best_paid :
  forall (marketWinners : JSMap.t WinnerData) (limit : Z),
    StronglySorted fallingPayout (getTopWinners marketWinners limit) /\
    exists rest,
      Permutation (getTopWinners marketWinners limit ++ rest)
                  (allWinners marketWinners) /\
      forall r q, In r (getTopWinners marketWinners limit) -> In q rest ->
                  payout q <= payout r.
Proof.
  intros mw limit. unfold getTopWinners.
  destruct (slice0_prefix (sortByPayout (allWinners mw)) limit) as [rest Hsplit].
  pose proof (sortByPayout_sorted (allWinners mw)) as Hs.
  rewrite Hsplit in Hs. destruct (sorted_app_dominates _ _ Hs) as [Hs1 Hdom].
  split; [exact Hs1|]. exists rest. split; [|exact Hdom].
  rewrite <- Hsplit. apply sortByPayout_perm.
Qed.

(** X2: [getTopWinners(limit)] returns [limit] entries, or all of them when
    there are fewer; a negative [limit] does not give an empty list but
    drops that many entries from the low end. *)
Theorem getTopWinners_length :
  forall (marketWinners : JSMap.t WinnerData) (limit : Z),
    Z.of_nat (List.length (getTopWinners marketWinners limit)) =
    if limit <? 0
    then Z.max 0 (Z.of_nat (List.length (allWinners marketWinners)) + limit)
    else Z.min limit (Z.of_nat (List.length (allWinners marketWinners))).
Proof.
  intros mw limit. unfold getTopWinners, slice0.
  pose proof (Permutation_length (sortByPayout_perm (allWinners mw))) as Hlen.
  destruct (Z.ltb_spec limit 0); rewrite length_firstn, Hlen; lia.
Qed.

(** X3: every entry of [getTopWinners] is a winner of the record filed
    under the market it names, with that record's outcome; so
    [getMarketWinners] finds the record. *)
Theorem getTopWinners_entries_are_filed :
  forall (marketWinners : JSMap.t WinnerData) (limit : Z) (r : RankedWinner),
    JSMap.wf marketWinners ->
    In r (getTopWinners marketWinners limit) ->
    exists data,
      getMarketWinners marketWinners (ofMarket r) = Some data /\
      In (winner r) (winners data) /\ ofOutcome r = winningOutcome data.
Proof.
  intros mw limit r Hwf Hin.
  assert (Hall : In r (allWinners mw)).
  { unfold getTopWinners in Hin.
    destruct (slice0_prefix (sortByPayout (allWinners mw)) limit) as [rest Hsplit].
    apply (Permutation_in r (sortByPayout_perm (allWinners mw))).
    rewrite Hsplit. apply in_or_app. now left. }
  apply allWinners_In in Hall as (data & Hd & Hw & Ho).
  exists data. split; [|split; assumption].
  unfold getMarketWinners. now apply in_get_wf.
Qed.

Lemma insertByPayout_filter (p : Z) x l :
  filter (fun r => payout r =? p) (insertByPayout x l) =
  filter (fun r => payout r =? p) (x :: l).
Proof.
  induction l as [|y l IH]; cbn [insertByPayout]; [reflexivity|].
  destruct (Z.leb_spec (payout y) (payout x)) as [Hle|Hgt]; [reflexivity|].
  cbn [filter] in *. rewrite IH.
  destruct (Z.eqb_spec (payout x) p); destruct (Z.eqb_spec (payout y) p);
    try reflexivity. lia.
Qed.

Lemma sortByPayout_filter (p : Z) l :
  filter (fun r => payout r =? p) (sortByPayout l) =
  filter (fun r => payout r =? p) l.
Proof.
  induction l as [|x l IH]; cbn [sortByPayout fold_right]; [reflexivity|].
  fold (sortByPayout l). rewrite insertByPayout_filter. cbn [filter]. now rewrite IH.
Qed.

(** X4: among winners paid the same, [getTopWinners] keeps the order in
    which they are filed (market by market, holder by holder): the entries
    of one payout it returns are the first ones of that payout on file. *)
Theorem getTopWinners_ties_keep_filing_order :
  forall (marketWinners : JSMap.t WinnerData) (limit p : Z),
    exists rest,
      filter (fun r => payout r =? p) (allWinners marketWinners) =
      filter (fun r => payout r =? p) (getTopWinners marketWinners limit) ++ rest.
Proof.
  intros mw limit p. unfold getTopWinners.
  destruct (slice0_prefix (sortByPayout (allWinners mw)) limit) as [rest Hsplit].
  exists (filter (fun r => payout r =? p) rest).
  rewrite <- filter_app, <- Hsplit. symmetry. apply sortByPayout_filter.
Qed.

Lemma fold_left_map {S T U : Type} (f : S -> T -> S) (g : U -> T) (l : list U) :
  forall a, fold_left (fun acc u => f acc (g u)) l a = fold_left f (map g l) a.
Proof. induction l as [|u l IH]; intros a; cbn [fold_left map]; [reflexivity | apply IH]. Qed.

Lemma allWinners_length (mw : JSMap.t WinnerData) :
  (forall k data, In (k, data) mw ->
     winnerCount data = Z.of_nat (List.length (winners data))) ->
  fold_right Z.add 0 (map winnerCount (JSMap.values mw)) =
    Z.of_nat (List.length (allWinners mw))
  /\ Forall (fun c => 0 <= c) (map winnerCount (JSMap.values mw)).
Proof.
  unfold allWinners, JSMap.values.
  induction mw as [|[k data] mw IH]; intros Hc; cbn [map flat_map fold_right snd fst].
  - split; [reflexivity | constructor].
  - destruct IH as [IH1 IH2]; [intros k0 d0 HI; apply (Hc k0 d0); now right|].
    rewrite length_app, length_map, IH1, (Hc k data) by now left.
    split; [lia|]. constructor; [lia | exact IH2].
Qed.

(** X5: the [topWinner] of [getWinnerStats] is missing exactly when no
    record lists a winner; otherwise it is a winner on file that no other
    winner on file is paid more than; and [totalWinners] is the number of
    winners on file when every record counts its own winners and that
    number stays below 2^53. *)
Theorem getWinnerStats_top_and_total :
  forall marketWinners : JSMap.t WinnerData,
    (topWinner (getWinnerStats marketWinners) = None <->
     allWinners marketWinners = []) /\
    (forall r, topWinner (getWinnerStats marketWinners) = Some r ->
       In r (allWinners marketWinners) /\
       forall q, In q (allWinners marketWinners) -> payout q <= payout r) /\
    ((forall k data, In (k, data) marketWinners ->
        winnerCount data = Z.of_nat (List.length (winners data))) ->
     Z.of_nat (List.length (allWinners marketWinners)) <= JSNumber.MAX_SAFE ->
     totalWinners (getWinnerStats marketWinners) =
       Z.of_nat (List.length (allWinners marketWinners))).
Proof.
  intros mw. cbn [getWinnerStats topWinner totalWinners].
  unfold getTopWinners, slice0. cbn [Z.ltb Z.compare Z.to_nat Pos.to_nat Pos.iter_op].
  pose proof (sortByPayout_perm (allWinners mw)) as Hperm.
  pose proof (sortByPayout_sorted (allWinners mw)) as Hsorted.
  destruct (sortByPayout (allWinners mw)) as [|r rest] eqn:Hs.
  - apply Permutation_nil in Hperm. cbn [firstn hd_error].
    split; [split; [intros _; exact Hperm | reflexivity]|].
    split; [discriminate|].
    intros Hc Hb. rewrite fold_left_map.
    destruct (allWinners_length mw Hc) as [Hsum Hall].
    rewrite fold_add_exact; lia || assumption.
  - cbn [firstn hd_error]. split; [|split].
    + split; [discriminate|]. intros He. rewrite He in Hperm.
      symmetry in Hperm. apply Permutation_nil in Hperm. discriminate.
    + intros r0 [= <-]. split.
      * apply (Permutation_in r Hperm). now left.
      * intros q Hq. apply (Permutation_in q (Permutation_sym Hperm)) in Hq.
        inversion Hsorted as [|? ? _ Hdom]; subst.
        destruct Hq as [<-|Hq]; [lia|].
        rewrite Forall_forall in Hdom. exact (Hdom q Hq).
    + intros Hc Hb. rewrite fold_left_map.
      destruct (allWinners_length mw Hc) as [Hsum Hall].
      rewrite fold_add_exact; lia || assumption.
Qed.

End WinnerQueryFacts.

(** ** The records [trackMarketWinners] files *)

(** The loop of the windows, one turn unrolled, under a name of its own. *)
Lemma windows_turn (A : WinnerTracker.Arith) (qf : WinnerTracker.QueryFilter)
  (c : positive) (bn start : Z) (m : JSMap.t Z) :
  WinnerTracker.windows A qf c bn start m =
  if start <=? bn then
    match qf start (Z.min (start + Z.pos c - 1) bn) with
    | WinnerTracker.Fulfilled events =>
        WinnerTracker.windows A qf c bn (start + Z.pos c)
          (WinnerTracker.applyEvents A m events)
    | WinnerTracker.Rejected error => WinnerTracker.Rejected error
    end
  else WinnerTracker.Fulfilled m.
Proof. exact (windows_unfold A qf c bn start m). Qed.

Section FiledRecordFacts.

Import WinnerTracker WinnerQueries.

Lemma zero_absent_applyEvent (A : Arith) (m : JSMap.t Z) e :
  JSMap.get (applyEvent A m e) ZeroAddress = JSMap.get m ZeroAddress.
Proof.
  unfold applyEvent. cbv zeta.
  destruct (String.eqb_spec (to e) ZeroAddress) as [Et|Ht]; cbn [negb].
  - destruct (String.eqb_spec (from e) ZeroAddress) as [Ef|Hf]; cbn [negb];
      [reflexivity|].
    destruct (_ <=? _); [now rewrite get_delete_other | now rewrite get_set_other].
  - rewrite get_set_other by assumption.
    destruct (String.eqb_spec (from e) ZeroAddress) as [Ef|Hf]; cbn [negb];
      [reflexivity|].
    destruct (_ <=? _); [now rewrite get_delete_other | now rewrite get_set_other].
Qed.

Lemma zero_absent_applyEvents (A : Arith) (events : list TransferSingle) :
  forall m, JSMap.get (applyEvents A m events) ZeroAddress = JSMap.get m ZeroAddress.
Proof.
  induction events as [|e events IH]; intros m; cbn [applyEvents fold_left];
    [reflexivity|].
  fold (applyEvents A (applyEvent A m e) events).
  now rewrite IH, zero_absent_applyEvent.
Qed.

(** What holds of the ledger before the loop holds after it, when every
    window keeps it. *)
Lemma windows_keeps (A : Arith) (qf : QueryFilter) (c : positive) (bn : Z)
  (P : JSMap.t Z -> Prop) :
  (forall m events, P m -> P (applyEvents A m events)) ->
  forall (n : nat) (start : Z) (m h : JSMap.t Z),
    (Z.to_nat (bn - start + 1) <= n)%nat ->
    P m -> windows A qf c bn start m = Fulfilled h -> P h.
Proof.
  intros Hkeep. induction n as [|n IH]; intros start m h Hn Hm Hw;
    rewrite windows_turn in Hw; destruct (Z.leb_spec start bn); try lia;
    try (injection Hw as <-; exact Hm).
  destruct (qf start _) as [events|error]; [|discriminate].
  revert Hw. apply IH; [lia | now apply Hkeep].
Qed.

Lemma nodup_keys_filter {V : Type} (P : string * V -> bool) (m : JSMap.t V) :
  JSMap.wf m -> JSMap.wf (filter P m).
Proof.
  unfold JSMap.wf, JSMap.keys. induction m as [|[k v] m IH]; intros Hnd;
    cbn [filter map]; [constructor|].
  inversion Hnd as [|? ? Hnot Hnd']; subst.
  destruct (P (k, v)); cbn [map fst]; [|now apply IH].
  constructor; [|now apply IH].
  intros Hin. apply Hnot. apply in_map_iff in Hin as ([k0 v0] & Hk & Hf).
  apply filter_In in Hf as [Hf _]. apply in_map_iff. now exists (k0, v0).
Qed.

(** The ledger [buildHolderSnapshot] hands out: distinct addresses, none of
    them the zero address, every balance positive. *)
Lemma buildHolderSnapshot_shape (qf : QueryFilter) (bn : Z) :
  exists holders,
    buildHolderSnapshot qf bn = Fulfilled holders /\
    JSMap.wf holders /\
    forall a b, In (a, b) holders -> 0 < b /\ a <> ZeroAddress.
Proof.
  unfold buildHolderSnapshot, buildHolderSnapshotWith.
  destruct (windows js qf chunkSize bn 0 JSMap.empty) as [h|error] eqn:Hw.
  - exists (activeHolders h).
    assert (Hh : JSMap.wf h /\ JSMap.get h ZeroAddress = None).
    { apply (windows_keeps js qf chunkSize bn
               (fun m => JSMap.wf m /\ JSMap.get m ZeroAddress = None))
        with (n := Z.to_nat (bn - 0 + 1)) (start := 0) (m := JSMap.empty);
        [| lia | split; [apply wf_empty | reflexivity] | exact Hw].
      intros m events [Hwf Hz]. split; [now apply wf_applyEvents|].
      now rewrite zero_absent_applyEvents. }
    destruct Hh as [Hwf Hz].
    split; [reflexivity|]. split; [now apply nodup_keys_filter|].
    intros a b Hin. unfold activeHolders in Hin.
    apply filter_In in Hin as [Hin Hpos]. cbn [snd] in Hpos.
    apply Z.ltb_lt in Hpos. split; [exact Hpos|].
    intros ->. apply get_none_iff in Hz. apply Hz.
    apply in_map_iff. now exists (ZeroAddress, b).
  - exists JSMap.empty. split; [reflexivity|]. split; [apply wf_empty|].
    intros a b [].
Qed.

(** How a call of [trackMarketWinners] that returns a record came about. *)
Lemma trackMarketWinners_filed (p : Provider) (mw mw' : JSMap.t WinnerData)
  (market outcome_ : string) (block : option Z) (record : WinnerData) :
  trackMarketWinners p mw market outcome_ block = (Some record, mw') ->
  mw' = JSMap.set mw market record /\
  marketId record = market /\ winningOutcome record = outcome_ /\
  exists holders,
    JSMap.wf holders /\
    (forall a b, In (a, b) holders -> 0 < b /\ a <> ZeroAddress) /\
    winners record = winnersOf holders /\
    winnerCount record = JSMap.size holders /\
    totalPayout record = sumBalances js holders.
Proof.
  unfold trackMarketWinners.
  destruct (getPositionId p market outcome_) as [pid|]; [|discriminate].
  destruct (String.eqb pid EmptyString); [discriminate|].
  destruct (resolutionBlockOf p block) as [bn|error]; [|discriminate].
  destruct (buildHolderSnapshot_shape (queryFilter p pid) bn)
    as (holders & -> & Hwf & Hpos).
  intros [= <- <-]. cbn [marketId winningOutcome winners winnerCount totalPayout].
  repeat split. exists holders. repeat split; try assumption; apply (Hpos a b H).
Qed.

(** X6: a record [trackMarketWinners] files lists every winner once, under
    an address that is not the zero address, with a positive number of
    tokens and a payout equal to it, and its [winnerCount] is the number of
    winners listed. *)
Theorem filed_record_is_well_formed :
  forall (p : Provider) (marketWinners marketWinners' : JSMap.t WinnerData)
         (market outcome_ : string) (block : option Z) (record : WinnerData),
    trackMarketWinners p marketWinners market outcome_ block
      = (Some record, marketWinners') ->
    wellFormedRecord record.
Proof.
  intros p mw mw' market outcome_ block record Ht.
  destruct (trackMarketWinners_filed p mw mw' market outcome_ block record Ht)
    as (_ & _ & _ & holders & Hwf & Hpos & Hw & Hc & _).
  unfold wellFormedRecord. rewrite Hw, Hc. unfold winnersOf, JSMap.entries, JSMap.size.
  split; [now rewrite length_map|]. split.
  - rewrite map_map. cbn [address]. exact Hwf.
  - intros w Hin. apply in_map_iff in Hin as ([a b] & <- & Hin).
    cbn [payoutUSDC winningTokens address fst snd].
    destruct (Hpos a b Hin). repeat split; assumption.
Qed.

Lemma filed_record_is_well_formed_witness :
  exists record,
    JSMap.get Fixture.filed "market-1" = Some record /\ wellFormedRecord record.
Proof.
  eexists. split; [reflexivity|].
  apply (filed_record_is_well_formed Fixture.provider JSMap.empty Fixture.filed
           "market-1" "Yes" None).
  reflexivity.
Defined.

(** X7: a call of [trackMarketWinners] that returns [null] leaves the
    records on file as they were; a call that returns a record has filed it
    under its market, where [getMarketWinners] finds it in place of any
    earlier record, and has left the record of every other market alone. *)
Theorem trackMarketWinners_files_under_its_market :
  forall (p : Provider) (marketWinners marketWinners' : JSMap.t WinnerData)
         (market outcome_ other : string) (block : option Z)
         (returned : option WinnerData),
    trackMarketWinners p marketWinners market outcome_ block
      = (returned, marketWinners') ->
    match returned with
    | None => marketWinners' = marketWinners
    | Some record =>
        getMarketWinners marketWinners' market = Some record /\
        (other <> market ->
         getMarketWinners marketWinners' other = getMarketWinners marketWinners other) /\
        (JSMap.wf marketWinners -> JSMap.wf marketWinners')
    end.
Proof.
  intros p mw mw' market outcome_ other block [record|] Ht.
  - destruct (trackMarketWinners_filed p mw mw' market outcome_ block record Ht)
      as (-> & _).
    unfold getMarketWinners. split; [apply get_set_same|]. split.
    + intros Hne. apply get_set_other. congruence.
    + apply wf_set.
  - revert Ht. unfold trackMarketWinners.
    destruct (getPositionId p market outcome_) as [pid|]; [|now intros [= <-]].
    destruct (String.eqb pid EmptyString); [now intros [= <-]|].
    destruct (resolutionBlockOf p block) as [bn|error]; [|now intros [= <-]].
    destruct (buildHolderSnapshot (queryFilter p pid) bn); [discriminate|].
    now intros [= <-].
Qed.

Lemma trackMarketWinners_files_under_its_market_witness :
  getMarketWinners Fixture.filed "market-2" = getMarketWinners JSMap.empty "market-2".
Proof.
  pose proof (trackMarketWinners_files_under_its_market Fixture.provider JSMap.empty
                Fixture.filed "market-1" "Yes" "market-2" None _ eq_refl) as H.
  cbv beta iota in H. destruct H as (_ & H & _). apply H. discriminate.
Defined.

Lemma find_by_key {T : Type} (f : T -> string) (key : string) (l : list T) (w : T) :
  NoDup (map f l) -> In w l -> f w = key ->
  find (fun x => String.eqb (f x) key) l = Some w.
Proof.
  induction l as [|x l IH]; cbn [map find]; intros Hnd Hin Hk; [destruct Hin|].
  inversion Hnd as [|? ? Hnot Hnd']; subst.
  destruct (String.eqb_spec (f x) (f w)) as [E|Hne].
  - destruct Hin as [->|Hin]; [reflexivity|].
    exfalso. apply Hnot. rewrite E. now apply in_map.
  - destruct Hin as [->|Hin]; [congruence | now apply IH].
Qed.

(** X8: after [trackMarketWinners] filed a record whose winners' addresses
    differ in more than letter case, [verifyWinnerPayout] confirms every
    winner of the record, under any spelling of its address that differs in
    letter case only, with the tokens it holds paid one to one. *)
Theorem tracked_winner_is_verified :
  forall (p : Provider) (marketWinners marketWinners' : JSMap.t WinnerData)
         (market outcome_ : string) (block : option Z) (record : WinnerData)
         (w : Winner) (spelling : string),
    trackMarketWinners p marketWinners market outcome_ block
      = (Some record, marketWinners') ->
    NoDup (map (fun w => toLowerCase (address w)) (winners record)) ->
    In w (winners record) ->
    toLowerCase spelling = toLowerCase (address w) ->
    verifyWinnerPayout marketWinners' market spelling =
      Verified (winningTokens w) (winningTokens w) market outcome_.
Proof.
  intros p mw mw' market outcome_ block record w spelling Ht Hnd Hin Hsp.
  destruct (trackMarketWinners_filed p mw mw' market outcome_ block record Ht)
    as (-> & _ & Ho & holders & _ & _ & Hw & _).
  unfold verifyWinnerPayout. rewrite get_set_same.
  unfold sameAddress.
  rewrite (find_by_key (fun x => toLowerCase (address x)) (toLowerCase spelling)
             (winners record) w Hnd Hin (eq_sym Hsp)).
  rewrite Hw in Hin. unfold winnersOf in Hin.
  apply in_map_iff in Hin as (entry & <- & _). cbn [payoutUSDC winningTokens].
  now rewrite Ho.
Qed.

Lemma tracked_winner_is_verified_witness :
  verifyWinnerPayout Fixture.filed "market-1"
    "0XABCDEF0000000000000000000000000000000001" =
  Verified 60 60 "market-1" "Yes".
Proof.
  apply (tracked_winner_is_verified Fixture.provider JSMap.empty Fixture.filed
           "market-1" "Yes" None
           {| marketId := "market-1"; winningOutcome := "Yes"; positionId := "7";
              resolutionBlock := 30000;
              winners := winnersOf [(Fixture.carol, 60); (Fixture.dave, 40)];
              totalPayout := 100; winnerCount := 2;
              timestamp := "2024-01-01T00:00:00.000Z" |}
           {| address := Fixture.carol; winningTokens := 60; payoutUSDC := 60 |}).
  - reflexivity.
  - repeat constructor; simpl; intuition discriminate.
  - left. reflexivity.
  - reflexivity.
Defined.

End FiledRecordFacts.

(** ** Supply and cutoff *)

Section SupplyFacts.

Import WinnerTracker WinnerQueries.

Lemma totalOf_set (m : JSMap.t Z) (k : string) (v : Z) :
  totalOf (JSMap.set m k v) = totalOf m - JSNumber.or_zero (JSMap.get m k) + v.
Proof.
  unfold totalOf, JSMap.values.
  induction m as [|[k0 v0] m IH]; cbn [JSMap.set JSMap.get map fold_right snd].
  - cbn [JSNumber.or_zero]. lia.
  - destruct (String.eqb k k0); cbn [map fold_right snd JSNumber.or_zero]; lia.
Qed.

Lemma totalOf_delete (m : JSMap.t Z) (k : string) :
  JSMap.wf m ->
  totalOf (JSMap.delete m k) = totalOf m - JSNumber.or_zero (JSMap.get m k).
Proof.
  unfold totalOf, JSMap.values, JSMap.wf, JSMap.keys.
  induction m as [|[k0 v0] m IH]; intros Hnd;
    cbn [JSMap.delete JSMap.get map fold_right snd].
  - cbn [JSNumber.or_zero]. lia.
  - inversion Hnd as [|? ? Hnot Hnd']; subst. specialize (IH Hnd').
    destruct (String.eqb_spec k k0) as [->|Hne];
      cbn [map fold_right snd JSNumber.or_zero]; [|lia].
    rewrite IH. replace (JSMap.get m k0) with (@None Z); [cbn; lia|].
    symmetry. now apply get_none_iff.
Qed.

Lemma totalOf_activeHolders (m : JSMap.t Z) :
  (forall a b, In (a, b) m -> 0 <= b) -> totalOf (activeHolders m) = totalOf m.
Proof.
  unfold totalOf, activeHolders, JSMap.values.
  induction m as [|[k v] m IH]; intros Hpos; cbn [filter map fold_right snd];
    [reflexivity|].
  pose proof (Hpos k v (or_introl eq_refl)).
  rewrite <- IH by (intros a b HI; apply (Hpos a b); now right).
  destruct (Z.ltb_spec 0 v); cbn [map fold_right snd]; lia.
Qed.

Lemma minted_burnt_snoc p e :
  minted (p ++ [e]) - burnt (p ++ [e]) =
  minted p - burnt p
  + (if String.eqb (from e) ZeroAddress then Z.of_N (value e) else 0)
  - (if String.eqb (to e) ZeroAddress then Z.of_N (value e) else 0).
Proof. unfold minted, burnt. rewrite sent_snoc, received_snoc. lia. Qed.

(** With covered debits one exact step moves the total of the ledger by
    what the event mints or burns. *)
Lemma totalOf_applyEvent p m e :
  JSMap.wf m -> tracksNet p m ->
  String.eqb (from e) ZeroAddress || (Z.of_N (value e) <=? net (from e) p) = true ->
  totalOf (applyEvent exact m e) =
  totalOf m
  + (if String.eqb (from e) ZeroAddress then Z.of_N (value e) else 0)
  - (if String.eqb (to e) ZeroAddress then Z.of_N (value e) else 0).
Proof.
  intros Hwf [Hzero Hnet] Hcov. unfold applyEvent. cbn [of_uint plus minus exact].
  set (amount := Z.of_N (value e)) in *.
  set (m1 := if negb (String.eqb (from e) ZeroAddress) then _ else m).
  assert (H1 : JSMap.wf m1 /\
               totalOf m1 = totalOf m
                 - (if String.eqb (from e) ZeroAddress then 0 else amount)).
  { subst m1. destruct (String.eqb_spec (from e) ZeroAddress) as [Ez|Hnz];
      cbn [negb]; [split; [assumption | lia]|].
    cbn [orb] in Hcov. apply Z.leb_le in Hcov. rewrite <- (Hnet _ Hnz) in Hcov.
    destruct (Z.leb_spec (JSNumber.or_zero (JSMap.get m (from e)) - amount) 0).
    - split; [now apply wf_delete|]. rewrite totalOf_delete by assumption. lia.
    - split; [now apply wf_set|]. rewrite totalOf_set. lia. }
  clearbody m1. destruct H1 as [Hwf1 Ht1].
  destruct (String.eqb_spec (to e) ZeroAddress) as [Ez|Hnz]; cbn [negb].
  - rewrite Ht1. destruct (String.eqb (from e) ZeroAddress); lia.
  - rewrite totalOf_set, Ht1. destruct (String.eqb (from e) ZeroAddress); lia.
Qed.

Lemma totalOf_applyEvents events :
  covered events = true ->
  totalOf (applyEvents exact JSMap.empty events) = minted events - burnt events.
Proof.
  unfold covered.
  induction events as [|e events IH] using rev_ind; intros Hcov; [reflexivity|].
  rewrite coveredAfter_snoc in Hcov. apply andb_true_iff in Hcov as [Hp He].
  rewrite applyEvents_snoc, minted_burnt_snoc.
  rewrite (totalOf_applyEvent events); [rewrite IH by assumption; lia | | | exact He].
  - apply wf_applyEvents, wf_empty.
  - now apply tracksNet_applyEvents.
Qed.

(** X9: when every debit is covered and the amounts add up to at most 2^53,
    the [totalPayout] of the replayed ledger is what was minted minus what
    was burnt: transfers between holders neither create nor destroy
    tokens. *)
Theorem payout_is_outstanding_supply :
  forall events : list TransferSingle,
    covered events = true ->
    volume events <= JSNumber.MAX_SAFE ->
    sumBalances js (replay js events) = minted events - burnt events.
Proof.
  intros events Hcov Hvol.
  rewrite replay_js_exact by assumption.
  destruct (replay_exact_total events) as [Hb Hall].
  unfold sumBalances. cbn [plus js].
  rewrite fold_add_exact by (unfold totalOf in *; assumption || lia).
  fold (totalOf (replay exact events)). unfold replay.
  rewrite totalOf_activeHolders.
  - rewrite totalOf_applyEvents by assumption. lia.
  - intros a b Hin.
    apply (creditBounded_applyEvents events a b).
    apply in_get_wf; [apply wf_applyEvents, wf_empty | exact Hin].
Qed.

Lemma payout_is_outstanding_supply_witness :
  sumBalances js (replay js Sample.tradedOut) =
  minted Sample.tradedOut - burnt Sample.tradedOut.
Proof.
  apply (payout_is_outstanding_supply Sample.tradedOut);
    [reflexivity | vm_compute; discriminate].
Defined.

Lemma chainOrdered_app_l (l1 l2 : list TransferSingle) :
  chainOrdered (l1 ++ l2) -> chainOrdered l1.
Proof.
  unfold chainOrdered. induction l1 as [|x l1 IH]; cbn [app]; intros Hs;
    [constructor|].
  inversion Hs as [|? ? Hs' Hx]; subst. apply Forall_app in Hx as [Hx _].
  constructor; [now apply IH | exact Hx].
Qed.

(** X10: the snapshot at a cutoff block is not changed by anything mined
    after that block, whatever the window size; and for a cutoff below
    block 0 it is the empty ledger, without a single query being looked
    at. *)
Theorem snapshot_depends_on_blocks_up_to_cutoff :
  forall (log later : list TransferSingle) (size : positive) (cutoff : Z)
         (queryFilter : QueryFilter),
    (chainOrdered (log ++ later) ->
     Forall (fun e => cutoff < blockNumber e) later ->
     buildHolderSnapshotWith js size (logQuery (log ++ later)) cutoff =
     buildHolderSnapshotWith js size (logQuery log) cutoff) /\
    (cutoff < 0 ->
     buildHolderSnapshotWith js size queryFilter cutoff = Fulfilled JSMap.empty).
Proof.
  intros log later size cutoff qf. split.
  - intros Hord Hlater.
    rewrite !buildHolderSnapshotWith_logQuery
      by (assumption || now apply chainOrdered_app_l with (l2 := later)).
    rewrite filter_app, (filter_inRange_empty 0 cutoff later), app_nil_r;
      [reflexivity|].
    eapply Forall_impl; [|exact Hlater]. cbv beta. intros e He. now right.
  - intros Hneg. unfold buildHolderSnapshotWith. rewrite windows_turn.
    destruct (Z.leb_spec 0 cutoff); [lia | reflexivity].
Qed.

Lemma snapshot_depends_on_blocks_up_to_cutoff_witness :
  buildHolderSnapshotWith js chunkSize (logQuery Sample.tradedOut) 20000 =
  buildHolderSnapshotWith js chunkSize (logQuery (firstn 2 Sample.tradedOut)) 20000.
Proof.
  destruct (snapshot_depends_on_blocks_up_to_cutoff
              (firstn 2 Sample.tradedOut) (skipn 2 Sample.tradedOut)
              chunkSize 20000 (logQuery [])) as [H _].
  apply H.
  - unfold chainOrdered. cbn [firstn skipn app Sample.tradedOut].
    repeat first [constructor | simpl; lia].
  - repeat first [constructor | simpl; lia].
Defined.

End SupplyFacts.

(** ** More on the reconnect schedule *)

Section ReconnectFacts.

Import MarketTracker.

Lemma disconnects_run (events : list SocketEvent) :
  forall c : Channel,
    maxReconnectAttempts c <= JSNumber.MAX_SAFE ->
    forallb isDisconnect events = true ->
    let m := Nat.min (List.length events)
               (Z.to_nat (maxReconnectAttempts c - Z.of_N (wsReconnectAttempts c))) in
    timers (fold_left handleSocketEvent events c) =
      timers c
      ++ map (fun i => JSOverflow.scale (reconnectDelay c)
                         (JSOverflow.pow2 (wsReconnectAttempts c + N.of_nat i)))
           (seq 0 m) /\
    wsReconnectAttempts (fold_left handleSocketEvent events c) =
      (wsReconnectAttempts c + N.of_nat m)%N.
Proof.
  induction events as [|ev events IH]; intros c Hsafe Hall.
  - cbn. rewrite app_nil_r. split; [reflexivity | lia].
  - cbn [forallb] in Hall. apply andb_true_iff in Hall as [Hev Hall].
    assert (Hstep : handleSocketEvent c ev = scheduleReconnect c)
      by (destruct ev; [discriminate | reflexivity | reflexivity]).
    cbn [fold_left List.length]. rewrite Hstep.
    destruct (Z.leb_spec (maxReconnectAttempts c) (Z.of_N (wsReconnectAttempts c)))
      as [Hmax|Hmax].
    + destruct (scheduleReconnect_exhausted c Hmax) as (Ht & Ha & Hm & Hd).
      replace (Z.to_nat (maxReconnectAttempts c - Z.of_N (wsReconnectAttempts c)))
        with O by lia.
      rewrite Nat.min_0_r. cbn [seq map]. rewrite app_nil_r.
      destruct (IH (scheduleReconnect c)) as [IHt IHa]; [lia | assumption|].
      rewrite Ha, Hm in IHt, IHa.
      replace (Z.to_nat (maxReconnectAttempts c - Z.of_N (wsReconnectAttempts c)))
        with O in IHt, IHa by lia.
      rewrite Nat.min_0_r in IHt, IHa. cbn [seq map] in IHt.
      rewrite app_nil_r in IHt. split; [congruence | lia].
    + rewrite scheduleReconnect_next by lia.
      match goal with |- context [fold_left _ _ ?c1] => set (c' := c1) end.
      destruct (IH c') as [IHt IHa]; [exact Hsafe | assumption|].
      subst c'. cbn [wsReconnectAttempts maxReconnectAttempts reconnectDelay timers]
        in IHt, IHa.
      replace (Z.to_nat (maxReconnectAttempts c - Z.of_N (wsReconnectAttempts c)))
        with (S (Z.to_nat (maxReconnectAttempts c
                           - Z.of_N (wsReconnectAttempts c + 1))))
        by lia.
      rewrite <- Nat.succ_min_distr. cbn [seq map].
      rewrite <- seq_shift, map_map. split.
      * rewrite IHt, <- app_assoc. cbn [app]. do 2 f_equal.
        -- do 2 f_equal. lia.
        -- apply map_ext. intros i. do 2 f_equal. lia.
      * rewrite IHa. lia.
Qed.

(** X11: a run of close and error events on a channel schedules one
    reconnect per event until the attempt count reaches the maximum, and
    nothing after that; the delays are the base delay scaled by rising
    powers of two as binary64 computes them, so each is twice the one before
    as long as the largest the settings allow is below [2^1024]. *)
Theorem disconnects_schedule_doubling_delays :
  forall (c : Channel) (events : list SocketEvent),
    maxReconnectAttempts c <= JSNumber.MAX_SAFE ->
    forallb isDisconnect events = true ->
    let scheduled :=
      Nat.min (List.length events)
        (Z.to_nat (maxReconnectAttempts c - Z.of_N (wsReconnectAttempts c))) in
    timers (fold_left handleSocketEvent events c) =
      timers c
      ++ map (fun i => JSOverflow.scale (reconnectDelay c)
                         (JSOverflow.pow2 (wsReconnectAttempts c + N.of_nat i)))
           (seq 0 scheduled) /\
    (reconnectDelay c <> 0 ->
     Z.abs (reconnectDelay c) * 2 ^ (maxReconnectAttempts c - 1) < JSOverflow.OVERFLOW ->
     timers (fold_left handleSocketEvent events c) =
       timers c
       ++ map (fun i => JSOverflow.Finite
                          (reconnectDelay c
                           * 2 ^ (Z.of_N (wsReconnectAttempts c) + Z.of_nat i)))
            (seq 0 scheduled)).
Proof.
  intros c events Hsafe Hall scheduled.
  destruct (disconnects_run events c Hsafe Hall) as [Ht _]. fold scheduled in Ht.
  split; [exact Ht|]. intros Hd Hlt. rewrite Ht. f_equal.
  apply map_ext_in. intros i Hi. apply in_seq in Hi.
  assert (Hexp : Z.of_N (wsReconnectAttempts c + N.of_nat i)
                 = Z.of_N (wsReconnectAttempts c) + Z.of_nat i) by lia.
  rewrite scale_pow2_finite; [now rewrite Hexp | assumption |].
  rewrite Hexp. eapply Z.le_lt_trans; [|exact Hlt].
  apply Z.mul_le_mono_nonneg_l; [lia|].
  apply Z.pow_le_mono_r; lia.
Qed.

Lemma disconnects_schedule_doubling_delays_witness :
  timers (fold_left handleSocketEvent [OnClose; OnError; OnClose; OnClose; OnClose]
            (freshChannel 3 5000)) =
  [] ++ map (fun i => JSOverflow.Finite (5000 * 2 ^ (Z.of_N 0 + Z.of_nat i)))
          (seq 0 (Nat.min 5 (Z.to_nat (3 - Z.of_N 0)))).
Proof.
  destruct (disconnects_schedule_doubling_delays (freshChannel 3 5000)
              [OnClose; OnError; OnClose; OnClose; OnClose]) as [_ H].
  - vm_compute. discriminate.
  - reflexivity.
  - apply H; [simpl; lia | vm_compute; reflexivity].
Defined.

(** X12: whatever the socket reports and in whatever order (opens, closes,
    errors), every reconnect delay a fresh channel ever schedules is the
    base delay scaled by a power of two below [2^maxReconnectAttempts], as
    binary64 computes it; for a positive base delay whose largest multiple
    [reconnectDelay * 2^(max-1)] is below [2^1024], every delay is the exact
    product, so none exceeds that multiple. *)
Theorem every_delay_is_a_bounded_doubling :
  forall (maxAttempts baseDelay : Z) (events : list SocketEvent),
    maxAttempts <= JSNumber.MAX_SAFE ->
    let scheduled :=
      timers (fold_left handleSocketEvent events (freshChannel maxAttempts baseDelay)) in
    Forall (fun delay =>
              exists j, 0 <= j < maxAttempts /\
                delay = JSOverflow.scale baseDelay (JSOverflow.pow2 (Z.to_N j)))
      scheduled /\
    (0 < baseDelay ->
     baseDelay * 2 ^ (maxAttempts - 1) < JSOverflow.OVERFLOW ->
     Forall (fun delay =>
               exists j, 0 <= j < maxAttempts /\
                 delay = JSOverflow.Finite (baseDelay * 2 ^ j) /\
                 baseDelay <= baseDelay * 2 ^ j <= baseDelay * 2 ^ (maxAttempts - 1))
       scheduled).
Proof.
  intros maxAttempts baseDelay events Hsafe scheduled.
  assert (Hall : Forall (fun delay =>
              exists j, 0 <= j < maxAttempts /\
                delay = JSOverflow.scale baseDelay (JSOverflow.pow2 (Z.to_N j)))
            scheduled).
  { set (good := fun c : Channel =>
      maxReconnectAttempts c = maxAttempts /\ reconnectDelay c = baseDelay /\
      Forall (fun delay =>
                exists j, 0 <= j < maxAttempts /\
                  delay = JSOverflow.scale baseDelay (JSOverflow.pow2 (Z.to_N j)))
        (timers c)).
    assert (Hkeep : forall evs c, good c -> good (fold_left handleSocketEvent evs c)).
    { induction evs as [|ev evs IH]; intros c Hc; [exact Hc|].
      cbn [fold_left]. apply IH. destruct Hc as (Hm & Hd & Ht).
      assert (Hsched : good (scheduleReconnect c)).
      { destruct (Z.leb_spec (maxReconnectAttempts c) (Z.of_N (wsReconnectAttempts c)))
          as [Hmax|Hmax].
        - destruct (scheduleReconnect_exhausted c Hmax) as (Ht' & _ & Hm' & Hd').
          unfold good. rewrite Ht', Hm', Hd'. repeat split; assumption.
        - rewrite scheduleReconnect_next by lia. unfold good.
          cbn [maxReconnectAttempts reconnectDelay timers].
          repeat split; try assumption.
          apply Forall_app. split; [assumption|]. repeat constructor.
          exists (Z.of_N (wsReconnectAttempts c)). split; [lia|].
          now rewrite N2Z.id, Hd. }
      destruct ev; [|exact Hsched|exact Hsched].
      unfold good. cbn. repeat split; assumption. }
    apply (Hkeep events (freshChannel maxAttempts baseDelay)).
    unfold good. cbn. repeat split. constructor. }
  split; [exact Hall|]. intros Hpos Hlt.
  eapply Forall_impl; [|exact Hall]. cbv beta.
  intros delay (j & Hj & ->). exists j. split; [exact Hj|].
  assert (Hp : 0 < 2 ^ j) by (apply Z.pow_pos_nonneg; lia).
  assert (Hle : baseDelay * 2 ^ j <= baseDelay * 2 ^ (maxAttempts - 1)).
  { apply Z.mul_le_mono_nonneg_l; [lia|]. apply Z.pow_le_mono_r; lia. }
  split; [|nia].
  rewrite scale_pow2_finite; rewrite ?Z2N.id by lia; [reflexivity | lia |].
  rewrite Z.abs_eq by lia. lia.
Qed.

Lemma every_delay_is_a_bounded_doubling_witness :
  Forall (fun delay =>
            exists j, 0 <= j < 3 /\
              delay = JSOverflow.Finite (5000 * 2 ^ j) /\
              5000 <= 5000 * 2 ^ j <= 5000 * 2 ^ (3 - 1))
    (timers (fold_left handleSocketEvent [OnClose; OnOpen; OnClose; OnError; OnClose]
               (freshChannel 3 5000))).
Proof.
  destruct (every_delay_is_a_bounded_doubling 3 5000
              [OnClose; OnOpen; OnClose; OnError; OnClose]) as [_ H].
  - vm_compute. discriminate.
  - apply H; [lia | vm_compute; reflexivity].
Defined.

(** The delays of that run: the open event lets the schedule start over. *)
Example delays_start_over_after_open :
  timers (fold_left handleSocketEvent [OnClose; OnOpen; OnClose; OnError; OnClose]
            (freshChannel 3 5000))
  = [JSOverflow.Finite 5000; JSOverflow.Finite 5000; JSOverflow.Finite 10000;
     JSOverflow.Finite 20000].
Proof. reflexivity. Qed.

End ReconnectFacts.

(** ** More on the request queue *)

Section QueueBounds.

Import MarketTracker.

Lemma worker_dispatch_bound net :
  forall (fuel k n : nat) (d : Dispatcher),
    (forall j, (k + n <= j)%nat -> arrivals net j = []) ->
    (List.length (dispatched (worker net fuel k d))
     <= List.length (dispatched d) + totalBudget (requestQueue d)
        + totalBudget (arrivalsBetween net k n))%nat.
Proof.
  induction fuel as [|fuel IH]; intros k n d Hquiet; cbn [worker];
    destruct (requestQueue d) as [|req rest] eqn:E; cbn [dispatched]; try lia.
  set (d1 := turn d req rest (arrivals net k) (axiosGet net k (url req))).
  pose proof (turn_budget d req rest (arrivals net k) (axiosGet net k (url req)))
    as Hb. fold d1 in Hb.
  pose proof (turn_dispatches_once d req rest (arrivals net k)
                (axiosGet net k (url req))) as Hone. fold d1 in Hone.
  assert (Hnext : exists n', (forall j, (S k + n' <= j)%nat -> arrivals net j = []) /\
            (totalBudget (arrivals net k) + totalBudget (arrivalsBetween net (S k) n')
             <= totalBudget (arrivalsBetween net k n))%nat).
  { destruct n as [|n'].
    - exists O. split; [intros j Hj; apply Hquiet; lia|].
      rewrite (Hquiet k) by lia. unfold arrivalsBetween. simpl. lia.
    - exists n'. split; [intros j Hj; apply Hquiet; lia|].
      unfold arrivalsBetween. cbn [seq flat_map].
      rewrite totalBudget_app. lia. }
  destruct Hnext as (n' & Hquiet' & Hle).
  specialize (IH (S k) n' d1 Hquiet'). lia.
Qed.

(** X13: the worker sends a request at most once per retry it was given
    and once more: however the network answers, the dispatches of a run are
    no more than the retries of the queued requests and of those arriving
    during the run, plus one each. *)
Theorem dispatches_bounded_by_retry_budget :
  forall (net : Network) (fuel n : nat) (d : Dispatcher),
    (forall j, (n <= j)%nat -> arrivals net j = []) ->
    (List.length (dispatched (processQueue net fuel d))
     <= List.length (dispatched d) + totalBudget (requestQueue d)
        + totalBudget (arrivalsBetween net 0 n))%nat.
Proof.
  intros net fuel n d Hquiet. unfold processQueue.
  destruct (isProcessingQueue d || _); [lia|].
  match goal with |- context [worker net fuel 0 ?d0] =>
    pose proof (worker_dispatch_bound net fuel 0 n d0) as H end.
  cbn [dispatched requestQueue] in H. apply H. intros j Hj. apply Hquiet. lia.
Qed.

Lemma dispatches_bounded_by_retry_budget_witness :
  (List.length (dispatched (processQueue Sample.moodyNetwork 20 Sample.loaded))
   <= List.length (dispatched Sample.loaded)
      + totalBudget (requestQueue Sample.loaded)
      + totalBudget (arrivalsBetween Sample.moodyNetwork 0 0))%nat.
Proof.
  apply (dispatches_bounded_by_retry_budget Sample.moodyNetwork 20 0 Sample.loaded).
  intros j _. reflexivity.
Defined.

Lemma arrivalsBetween_succ net (k n : nat) :
  arrivalsBetween net k (S n) = arrivals net k ++ arrivalsBetween net (S k) n.
Proof. reflexivity. Qed.

Lemma worker_fifo net :
  (forall k target, exists data, result (axiosGet net k target) = inr data) ->
  forall (fuel k n : nat) (d : Dispatcher),
    (forall j, (k + n <= j)%nat -> arrivals net j = []) ->
    (totalBudget (requestQueue d) + totalBudget (arrivalsBetween net k n) <= fuel)%nat ->
    exists turns : nat,
      turns = (List.length (requestQueue d)
               + List.length (arrivalsBetween net k turns))%nat /\
      (forall earlier, (earlier < turns)%nat ->
         (earlier < List.length (requestQueue d)
                    + List.length (arrivalsBetween net k earlier))%nat) /\
      requestQueue (worker net fuel k d) = [] /\
      settledCallers (worker net fuel k d) =
        settledCallers d ++ callersOf (requestQueue d)
        ++ callersOf (arrivalsBetween net k turns) /\
      List.length (dispatched (worker net fuel k d)) =
        (List.length (dispatched d) + List.length (requestQueue d)
         + List.length (arrivalsBetween net k turns))%nat.
Proof.
  intros Hok. induction fuel as [|fuel IH]; intros k n d Hquiet Hfuel.
  - destruct (requestQueue d) as [|req rest] eqn:E.
    + exists O. cbn [worker]. rewrite E. cbn. repeat split.
      * intros earlier Hlt. lia.
      * unfold settledCallers. now rewrite app_nil_r.
      * lia.
    + change (req :: rest) with ([req] ++ rest) in Hfuel.
      rewrite totalBudget_app in Hfuel.
      unfold totalBudget at 1, budget in Hfuel. simpl in Hfuel. lia.
  - cbn [worker]. destruct (requestQueue d) as [|req rest] eqn:E.
    + exists O. cbn. repeat split.
      * intros earlier Hlt. lia.
      * unfold settledCallers. cbn [settled]. now rewrite app_nil_r.
      * lia.
    + set (d1 := turn d req rest (arrivals net k) (axiosGet net k (url req))).
      pose proof (turn_budget d req rest (arrivals net k) (axiosGet net k (url req)))
        as Hb. fold d1 in Hb.
      pose proof (turn_dispatches_once d req rest (arrivals net k)
                    (axiosGet net k (url req))) as Hone. fold d1 in Hone.
      destruct (Hok k (url req)) as [data Hdata].
      assert (Hd1 : requestQueue d1 = rest ++ arrivals net k /\
                    settled d1 = settled d ++ [Resolved (caller req) data]).
      { subst d1. unfold turn. rewrite Hdata. split; reflexivity. }
      destruct Hd1 as [Hq1 Hs1].
      assert (Hnext : exists n', (forall j, (S k + n' <= j)%nat -> arrivals net j = []) /\
                (totalBudget (arrivals net k) + totalBudget (arrivalsBetween net (S k) n')
                 <= totalBudget (arrivalsBetween net k n))%nat).
      { destruct n as [|n'].
        - exists O. split; [intros j Hj; apply Hquiet; lia|].
          rewrite (Hquiet k) by lia. unfold arrivalsBetween. simpl. lia.
        - exists n'. split; [intros j Hj; apply Hquiet; lia|].
          unfold arrivalsBetween. cbn [seq flat_map].
          rewrite totalBudget_app. lia. }
      destruct Hnext as (n' & Hquiet' & Hle).
      destruct (IH (S k) n' d1 Hquiet') as (turns & Hfix & Hleast & Hq & Hs & Hl);
        [lia|].
      rewrite Hq1, length_app in Hfix.
      exists (S turns). split; [|split; [|split; [exact Hq|split]]].
      * rewrite arrivalsBetween_succ, length_app. cbn [List.length]. lia.
      * intros [|earlier] Hlt; [cbn [List.length]; lia|].
        specialize (Hleast earlier ltac:(lia)).
        rewrite Hq1, length_app in Hleast.
        rewrite arrivalsBetween_succ, length_app. cbn [List.length]. lia.
      * rewrite Hs. unfold settledCallers, callersOf, arrivalsBetween.
        rewrite Hs1, Hq1. cbn [seq flat_map].
        rewrite !map_app. cbn [map settledCaller]. rewrite <- !app_assoc.
        reflexivity.
      * rewrite Hl, Hone, Hq1. unfold arrivalsBetween. cbn [seq flat_map List.length].
        rewrite !length_app. lia.
Qed.

(** X14: while no request fails, the queue is first in, first out. A worker
    with fuel for the queue and for what arrives while it runs takes one
    turn per request and stops at the first turn count at which nobody
    waits: [turns] is the least count that equals the requests queued at the
    start plus those that arrived during that many turns. It settles the
    callers in the order they were queued, followed by the arrivals of these
    turns in the order they arrived, and sends one request for each. *)
Theorem queue_is_fifo_without_failures :
  forall (net : Network) (fuel n : nat) (d : Dispatcher),
    (forall k target, exists data, result (axiosGet net k target) = inr data) ->
    isProcessingQueue d = false ->
    (forall j, (n <= j)%nat -> arrivals net j = []) ->
    (totalBudget (requestQueue d) + totalBudget (arrivalsBetween net 0 n) <= fuel)%nat ->
    exists turns : nat,
      turns = (List.length (requestQueue d)
               + List.length (arrivalsBetween net 0 turns))%nat /\
      (forall earlier, (earlier < turns)%nat ->
         (earlier < List.length (requestQueue d)
                    + List.length (arrivalsBetween net 0 earlier))%nat) /\
      requestQueue (processQueue net fuel d) = [] /\
      settledCallers (processQueue net fuel d) =
        settledCallers d ++ callersOf (requestQueue d)
        ++ callersOf (arrivalsBetween net 0 turns) /\
      List.length (dispatched (processQueue net fuel d)) =
        (List.length (dispatched d) + List.length (requestQueue d)
         + List.length (arrivalsBetween net 0 turns))%nat.
Proof.
  intros net fuel n d Hok Hidle Hquiet Hfuel. unfold processQueue. rewrite Hidle.
  cbn [orb]. destruct (requestQueue d) as [|r q] eqn:E; cbn [List.length Nat.eqb].
  - exists O. unfold arrivalsBetween. cbn. rewrite E. repeat split.
    + intros earlier Hlt. lia.
    + now rewrite app_nil_r.
    + lia.
  - match goal with |- context [worker net fuel 0 ?d0] =>
      destruct (worker_fifo net Hok fuel 0 n d0) as (turns & Hfix & Hleast & Hq & Hs & Hl)
    end.
    + intros j Hj. apply Hquiet. lia.
    + exact Hfuel.
    + exists turns. repeat split; assumption.
Qed.

End QueueBounds.

(** ** Polling *)

Section PollingFacts.

Import MarketTracker Polling.

Lemma has_set {V : Type} (m : JSMap.t V) (k k' : string) (v : V) :
  JSMap.has (JSMap.set m k v) k' = String.eqb k k' || JSMap.has m k'.
Proof.
  unfold JSMap.has. destruct (String.eqb_spec k k') as [<-|Hne].
  - now rewrite get_set_same.
  - now rewrite get_set_other.
Qed.

Lemma has_delete {V : Type} (m : JSMap.t V) (k k' : string) :
  JSMap.has (JSMap.delete m k) k' = negb (String.eqb k k') && JSMap.has m k'.
Proof.
  unfold JSMap.has. destruct (String.eqb_spec k k') as [<-|Hne].
  - now rewrite get_delete_same.
  - now rewrite get_delete_other.
Qed.

Lemma size_set {V : Type} (m : JSMap.t V) (k : string) (v : V) :
  JSMap.size (JSMap.set m k v) =
  if JSMap.has m k then JSMap.size m else JSMap.size m + 1.
Proof.
  unfold JSMap.size, JSMap.has.
  induction m as [|[k0 v0] m IH]; cbn [JSMap.set JSMap.get List.length].
  - lia.
  - destruct (String.eqb k k0); cbn [List.length]; [reflexivity|].
    destruct (JSMap.get m k); lia.
Qed.

Lemma trackActivePages_pagesRead (fetchEvents : FetchEvents) :
  forall (fuel : nat) (offset : Z) (acc : JSMap.t EventData * Tally),
    trackActivePages fetchEvents fuel offset acc =
    trackBatch acc (pagesRead fetchEvents fuel offset).
Proof.
  induction fuel as [|fuel IH]; intros offset acc;
    cbn [trackActivePages pagesRead]; [reflexivity|].
  destruct (fetchEvents offset) as [|first others]; [reflexivity|].
  cbv zeta. destruct (_ <? 100); [reflexivity|].
  rewrite IH. unfold trackBatch. now rewrite fold_left_app.
Qed.

Lemma trackBatch_effect (events : list RawEvent) :
  forall (active : JSMap.t EventData) (tally : Tally),
    let result := trackBatch (active, tally) events in
    JSMap.size (fst result) - JSMap.size active
      = newCount (snd result) - newCount tally /\
    (newCount (snd result) - newCount tally)
      + (updatedCount (snd result) - updatedCount tally)
      = Z.of_nat (List.length events) /\
    (forall k, JSMap.has active k = true -> JSMap.has (fst result) k = true) /\
    (forall e, In e events ->
       exists e', In e' events /\ eventKey e' = eventKey e /\
         JSMap.get (fst result) (eventKey e) = Some (parseEventData e')) /\
    (forall k v, JSMap.get (fst result) k = Some v ->
       JSMap.get active k = Some v \/ exists e, In e events /\ v = parseEventData e).
Proof.
  induction events as [|e events IH] using rev_ind; intros active tally.
  - cbn. repeat split; try lia; try tauto.
  - cbv zeta. unfold trackBatch. rewrite fold_left_app. cbn [fold_left].
    fold (trackBatch (active, tally) events).
    specialize (IH active tally). cbv zeta in IH.
    destruct (trackBatch (active, tally) events) as [a1 t1].
    cbn [fst snd] in IH. destruct IH as (Hsize & Hcount & Hkeep & Hread & Hfrom).
    unfold trackOne. cbn [fst snd]. rewrite length_app. cbn [List.length].
    rewrite size_set.
    split; [|split; [|split; [|split]]].
    + destruct (JSMap.has a1 (eventKey e)); cbn [newCount]; lia.
    + destruct (JSMap.has a1 (eventKey e)); cbn [newCount updatedCount]; lia.
    + intros k Hk. rewrite has_set. rewrite (Hkeep k Hk). apply orb_true_r.
    + intros x Hx. destruct (String.eqb_spec (eventKey e) (eventKey x)) as [E|Hne].
      * exists e. split; [apply in_or_app; right; now left|].
        split; [exact E|]. rewrite <- E. apply get_set_same.
      * apply in_app_or in Hx as [Hx|[->|[]]]; [|congruence].
        destruct (Hread x Hx) as (e' & He' & Hk' & Hg).
        exists e'. split; [apply in_or_app; now left|]. split; [exact Hk'|].
        now rewrite get_set_other.
    + intros k v. destruct (String.eqb_spec (eventKey e) k) as [<-|Hne].
      * rewrite get_set_same. intros [= <-]. right. exists e.
        split; [apply in_or_app; right; now left | reflexivity].
      * rewrite get_set_other by assumption. intros Hg.
        destruct (Hfrom k v Hg) as [Hold|(e' & He' & ->)]; [now left|].
        right. exists e'. split; [apply in_or_app; now left | reflexivity].
Qed.

(** X15: [trackActiveEvents] never removes an event; [events.active] grows
    by exactly the [newEvents] it counts, the two counters together count
    the events read, and every event read is afterwards filed under its id
    with the parse of an event of that id that was read. *)
Theorem trackActiveEvents_only_adds :
  forall (fetchEvents : FetchEvents) (fuel : nat) (active : JSMap.t EventData),
    let result := trackActiveEvents fetchEvents fuel active in
    JSMap.size (fst result) = JSMap.size active + newCount (snd result) /\
    newCount (snd result) + updatedCount (snd result)
      = Z.of_nat (List.length (pagesRead fetchEvents fuel 0)) /\
    (forall k, JSMap.has active k = true -> JSMap.has (fst result) k = true) /\
    (forall e, In e (pagesRead fetchEvents fuel 0) ->
       exists e', In e' (pagesRead fetchEvents fuel 0) /\
         eventKey e' = eventKey e /\
         JSMap.get (fst result) (eventKey e) = Some (parseEventData e')).
Proof.
  intros fetchEvents fuel active. cbv zeta. unfold trackActiveEvents.
  rewrite trackActivePages_pagesRead.
  destruct (trackBatch_effect (pagesRead fetchEvents fuel 0) active
              {| newCount := 0; updatedCount := 0 |}) as (Hs & Hc & Hk & Hr & _).
  cbn [newCount updatedCount] in Hs, Hc.
  repeat split; try assumption; lia.
Qed.

Lemma parseMarket_status (ms : list RawMarket) :
  countStatus "active" (map parseMarket ms) + countStatus "resolved" (map parseMarket ms)
  = Z.of_nat (List.length ms).
Proof.
  unfold countStatus. induction ms as [|m ms IH]; [reflexivity|].
  cbn [map filter].
  assert (Ha : hasStatus "active" (parseMarket m) = negb (closed m))
    by (unfold hasStatus, parseMarket; cbn [marketStatus]; now destruct (closed m)).
  assert (Hr : hasStatus "resolved" (parseMarket m) = closed m)
    by (unfold hasStatus, parseMarket; cbn [marketStatus]; now destruct (closed m)).
  rewrite Ha, Hr. destruct (closed m); cbn [negb List.length]; lia.
Qed.

(** X16: an event as [parseEventData] builds it has counters that agree
    with its markets: each market is active or resolved, so the two
    counters add up to the number of markets; and every event
    [trackActiveEvents] files has such counters when the events on file
    before had them. *)
Theorem parsed_counters_agree :
  forall (event : RawEvent) (fetchEvents : FetchEvents) (fuel : nat)
         (active : JSMap.t EventData) (k : string) (e : EventData),
    (countersAgree (parseEventData event) /\
     activeMarketsCount (parseEventData event)
       + resolvedMarketsCount (parseEventData event)
       = Z.of_nat (List.length (markets (parseEventData event)))) /\
    ((forall k0 e0, JSMap.get active k0 = Some e0 -> countersAgree e0) ->
     JSMap.get (fst (trackActiveEvents fetchEvents fuel active)) k = Some e ->
     countersAgree e).
Proof.
  intros event fetchEvents fuel active k e. split.
  - split; [split; reflexivity|].
    unfold parseEventData. cbn [activeMarketsCount resolvedMarketsCount markets].
    rewrite parseMarket_status. now rewrite length_map.
  - intros Hold Hget. unfold trackActiveEvents in Hget.
    rewrite trackActivePages_pagesRead in Hget.
    destruct (trackBatch_effect (pagesRead fetchEvents fuel 0) active
                {| newCount := 0; updatedCount := 0 |}) as (_ & _ & _ & _ & Hfrom).
    destruct (Hfrom k e Hget) as [Hk|(e' & _ & ->)].
    + exact (Hold k e Hk).
    + split; reflexivity.
Qed.

End PollingFacts.

(** ** Counters under a resolution notice *)

Section CounterFacts.

Import MarketTracker Polling.

Lemma countStatus_replaceAt (status : string) (ms : list Market) :
  forall (i : nat) (m m' : Market),
    nth_error ms i = Some m ->
    countStatus status (replaceAt ms i m') =
    countStatus status ms
    - (if hasStatus status m then 1 else 0)
    + (if hasStatus status m' then 1 else 0).
Proof.
  unfold countStatus. induction ms as [|m0 ms IH]; intros [|i] m m';
    cbn [nth_error replaceAt]; try discriminate.
  - intros [= ->]. cbn [filter].
    destruct (hasStatus status m); destruct (hasStatus status m');
      cbn [List.length]; lia.
  - intros Hn. cbn [filter]. specialize (IH i m m' Hn).
    destruct (hasStatus status m0); cbn [List.length]; lia.
Qed.

(** X17: when a resolution notice names a market of an event whose
    counters agree with its markets, the counters still agree afterwards
    exactly when that market was active before; a second notice for the
    same market moves the counters once more and leaves them off by one. *)
Theorem resolution_keeps_counters_iff_market_was_active :
  forall (s : State) (marketId at_ sentAt : string)
         (pre : JSMap.t EventData) (k : string) (e : EventData)
         (post : JSMap.t EventData) (i : nat) (m : Market),
    active s = pre ++ (k, e) :: post ->
    (forall k0 e0, In (k0, e0) pre -> findIndex (markets e0) marketId = None) ->
    findIndex (markets e) marketId = Some i ->
    nth_error (markets e) i = Some m ->
    countersAgree e ->
    exists e',
      active (handleMarketResolution s marketId at_ sentAt) = pre ++ (k, e') :: post /\
      (countersAgree e' <-> marketStatus m = "active"%string).
Proof.
  intros s marketId at_ sentAt pre k e post i m Hact Hpre Hfound Hnth [Ha Hr].
  destruct (findIndex_some (markets e) marketId i Hfound) as (m1 & Hnth1 & Hdef & _).
  rewrite Hnth in Hnth1. injection Hnth1 as <-.
  pose proof (resolveFirst_present marketId at_ sentAt pre k e post i Hpre Hfound)
    as Hres.
  rewrite <- Hact, Hdef in Hres.
  destruct (handleMarketResolution_found s marketId at_ sentAt _ _ Hres) as (Hs' & _).
  exists (resolveInEvent e i (resolveMarket m at_)). split; [exact Hs'|].
  unfold countersAgree.
  cbn [resolveInEvent activeMarketsCount resolvedMarketsCount markets].
  rewrite !(countStatus_replaceAt _ (markets e) i m _ Hnth).
  unfold hasStatus at 2 4. cbn [resolveMarket marketStatus].
  cbn [String.eqb Ascii.eqb Bool.eqb andb].
  rewrite Ha, Hr. unfold hasStatus.
  destruct (String.eqb_spec (marketStatus m) "active") as [Ea|Hna];
    destruct (String.eqb_spec (marketStatus m) "resolved") as [Er|Hnr].
  - rewrite Ea in Er. discriminate.
  - split; [intros _; exact Ea | intros _; lia].
  - split; [intros [H1 H2]; lia | intros; contradiction].
  - split; [intros [H1 H2]; lia | intros; contradiction].
Qed.

Lemma resolution_keeps_counters_iff_market_was_active_witness :
  exists e',
    active (handleMarketResolution Fixture.polled "m-1" "t1" "t2")
      = [] ++ ("e-1"%string, e') :: [] /\
    (countersAgree e' <->
     marketStatus (parseMarket {| rawId := "m-1"; rawQuestion := "Will it rain?";
                                  closed := false; rawDetails := [] |})
       = "active"%string).
Proof.
  apply (resolution_keeps_counters_iff_market_was_active Fixture.polled
           "m-1" "t1" "t2" [] "e-1" (parseEventData Fixture.rawOpen) [] 0).
  - reflexivity.
  - intros k0 e0 [].
  - reflexivity.
  - reflexivity.
  - split; reflexivity.
Defined.

(** The same notice twice: two active markets counted as none. *)
Example repeated_notice_drifts :
  let s1 := handleMarketResolution Fixture.polled "m-1" "t1" "t2" in
  let s2 := handleMarketResolution s1 "m-1" "t3" "t4" in
  option_map activeMarketsCount (JSMap.get (active s2) "e-1") = Some (-1) /\
  option_map (fun e => countStatus "active" (markets e)) (JSMap.get (active s2) "e-1")
    = Some 0.
Proof. split; reflexivity. Qed.

End CounterFacts.

(** ** Polling the resolved events *)

Section ResolvedPollingFacts.

Import MarketTracker Polling.

Lemma trackResolvedPages_pagesRead (fetchEvents : FetchEvents) :
  forall (fuel : nat) (offset : Z) (acc : Events * Tally),
    trackResolvedPages fetchEvents fuel offset acc =
    resolveBatch acc (pagesRead fetchEvents fuel offset).
Proof.
  induction fuel as [|fuel IH]; intros offset acc;
    cbn [trackResolvedPages pagesRead]; [reflexivity|].
  destruct (fetchEvents offset) as [|first others]; [reflexivity|].
  cbv zeta. destruct (_ <? 100); [reflexivity|].
  rewrite IH. unfold resolveBatch. now rewrite fold_left_app.
Qed.

Lemma resolveOne_effect (events : Events) (tally : Tally) (event : RawEvent) :
  let result := fst (resolveOne (events, tally) event) in
  (forall k, JSMap.has (activeEvents result) k =
             JSMap.has (activeEvents events) k
             && negb (qualifies event && String.eqb (eventKey event) k)) /\
  (forall k, JSMap.has (resolvedEvents result) k =
             JSMap.has (resolvedEvents events) k
             || (qualifies event && String.eqb (eventKey event) k)).
Proof.
  cbv zeta. unfold resolveOne, qualifies.
  destruct (rawMarkets event) as [ms|];
    [destruct (endsSinceCutoff event && eventClosed event)|];
    cbn [fst activeEvents resolvedEvents andb negb];
    try (split; intros k; [now rewrite andb_true_r | now rewrite orb_false_r]).
  split; intros k.
  - destruct (JSMap.has (activeEvents events) (eventKey event)) eqn:Hh.
    + rewrite has_delete. apply andb_comm.
    + destruct (String.eqb_spec (eventKey event) k) as [<-|Hne]; cbn [negb].
      * now rewrite Hh.
      * now rewrite andb_true_r.
  - rewrite has_set. apply orb_comm.
Qed.

Lemma resolveBatch_effect (batch : list RawEvent) :
  forall (events : Events) (tally : Tally),
    let result := fst (resolveBatch (events, tally) batch) in
    (forall k, JSMap.has (activeEvents result) k =
               JSMap.has (activeEvents events) k
               && negb (existsb (fun ev => qualifies ev && String.eqb (eventKey ev) k)
                          batch)) /\
    (forall k, JSMap.has (resolvedEvents result) k =
               JSMap.has (resolvedEvents events) k
               || existsb (fun ev => qualifies ev && String.eqb (eventKey ev) k) batch).
Proof.
  induction batch as [|event batch IH]; intros events tally; cbv zeta.
  - cbn. split; intros k; [now rewrite andb_true_r | now rewrite orb_false_r].
  - cbn [resolveBatch fold_left existsb].
    destruct (resolveOne (events, tally) event) as [events1 tally1] eqn:Hone.
    fold (resolveBatch (events1, tally1) batch).
    destruct (IH events1 tally1) as [IHa IHr].
    pose proof (resolveOne_effect events tally event) as Hstep.
    cbv zeta in Hstep. rewrite Hone in Hstep. cbn [fst] in Hstep.
    destruct Hstep as [Ha Hr]. split; intros k.
    + rewrite IHa, Ha, negb_orb. now rewrite andb_assoc.
    + rewrite IHr, Hr. now rewrite orb_assoc.
Qed.

(** X18: [trackResolvedMarkets] moves events and loses none: afterwards an
    id is on file as resolved exactly if it was before or an event of that
    id that is closed, has markets and ended since the cutoff date was
    read, and on file as active exactly if it was before and no such event
    was read; so maps that shared no id before share none afterwards. *)
Theorem trackResolvedMarkets_moves_closed_events :
  forall (fetchEvents : FetchEvents) (fuel : nat) (events : Events) (k : string),
    let result := fst (trackResolvedMarkets fetchEvents fuel events) in
    let moved :=
      existsb (fun ev => qualifies ev && String.eqb (eventKey ev) k)
        (pagesRead fetchEvents fuel 0) in
    JSMap.has (resolvedEvents result) k = JSMap.has (resolvedEvents events) k || moved /\
    JSMap.has (activeEvents result) k = JSMap.has (activeEvents events) k && negb moved /\
    (disjointMaps events -> disjointMaps result).
Proof.
  intros fetchEvents fuel events k. cbv zeta. unfold trackResolvedMarkets.
  rewrite trackResolvedPages_pagesRead.
  destruct (resolveBatch_effect (pagesRead fetchEvents fuel 0) events
              {| newCount := 0; updatedCount := 0 |}) as [Ha Hr].
  cbv zeta in Ha, Hr. split; [apply Hr|]. split; [apply Ha|].
  intros Hdis k0. rewrite Ha, Hr. intros H. apply andb_true_iff in H as [H1 H2].
  rewrite (Hdis k0 H1). apply negb_true_iff in H2. now rewrite H2.
Qed.

Lemma trackResolvedMarkets_moves_closed_events_witness :
  disjointMaps (fst (trackResolvedMarkets Fixture.onePage 3 Fixture.bothActive)).
Proof.
  destruct (trackResolvedMarkets_moves_closed_events Fixture.onePage 3
              Fixture.bothActive "e-2") as (_ & _ & H).
  apply H. intros k _. reflexivity.
Defined.

(** The sample page: the closed event moves, the open one stays. *)
Example closed_event_moves :
  let result := fst (trackResolvedMarkets Fixture.onePage 3 Fixture.bothActive) in
  JSMap.keys (activeEvents result) = ["e-1"%string] /\
  JSMap.keys (resolvedEvents result) = ["e-2"%string].
Proof. split; reflexivity. Qed.

End ResolvedPollingFacts.

(** ** The SSE clients *)

Section SseFacts.

Import App Sse.

(** X19: a broadcast writes to every client of the set once, in order, and
    leaves in the set exactly the clients whose write did not throw; a
    client whose request closed or failed before the broadcast is not
    written to. *)
Theorem broadcast_keeps_the_writable_clients :
  forall (sseClients : list Client) (message : string) (gone c : Client),
    snd (broadcastToClients sseClients message) = map clientId sseClients /\
    (In c (fst (broadcastToClients sseClients message)) <->
     In c sseClients /\ writeThrows c message = None) /\
    ~ In (clientId gone)
        (snd (broadcastToClients (onClientGone sseClients gone) message)).
Proof.
  intros sseClients message gone c.
  destruct (broadcastToClients_drops_failed sseClients message) as [Hk Hw].
  split; [exact Hw|]. split.
  - rewrite Hk, filter_In. split; intros [H1 H2]; split; try assumption.
    + now destruct (writeThrows c message).
    + now rewrite H2.
  - destruct (broadcastToClients_drops_failed (onClientGone sseClients gone) message)
      as [_ ->].
    unfold onClientGone. intros Hin. apply in_map_iff in Hin as (x & Hid & Hx).
    apply filter_In in Hx as [_ Hx]. unfold sameClient in Hx.
    rewrite Hid, Nat.eqb_refl in Hx. discriminate.
Qed.

(** A client is added once: connecting a second time changes nothing, and
    a client whose greeting cannot be written is not added. *)
Lemma handleSSE_adds_once (greeting : string) (sseClients : list Client) (res : Client) :
  NoDup (map clientId sseClients) ->
  NoDup (map clientId (handleSSE greeting sseClients res)).
Proof.
  intros Hnd. unfold handleSSE. destruct (writeThrows res greeting); [assumption|].
  destruct (existsb (sameClient res) sseClients) eqn:E; [assumption|].
  rewrite map_app. cbn [map]. apply NoDup_app; [assumption | repeat constructor; simpl; tauto |].
  intros x Hx [<-|[]]. apply in_map_iff in Hx as (c & Hid & Hc).
  assert (existsb (sameClient res) sseClients = true); [|congruence].
  apply existsb_exists. exists c. split; [assumption|].
  unfold sameClient. rewrite Hid. apply Nat.eqb_refl.
Qed.

End SseFacts.

(** ** Address formatting *)

Section FormatFacts.

Import WinnerQueries.

Lemma substring_prefix (a b : string) :
  substring 0 (String.length a) (a ++ b) = a.
Proof.
  induction a as [|c a IH]; cbn [String.length append substring].
  - now destruct b.
  - now rewrite IH.
Qed.

Lemma substring_whole (s : string) (n : nat) :
  (String.length s <= n)%nat -> substring 0 n s = s.
Proof.
  revert n. induction s as [|c s IH]; intros n Hn.
  - now destruct n.
  - destruct n as [|n]; cbn [String.length] in Hn; [lia|].
    cbn [substring]. rewrite IH by lia. reflexivity.
Qed.

Lemma substring_suffix (a b : string) :
  substring (String.length a) (String.length b) (a ++ b) = b.
Proof.
  induction a as [|c a IH]; cbn [String.length append].
  - now apply substring_whole.
  - cbn [substring]. exact IH.
Qed.

Lemma length_append (a b : string) :
  String.length (a ++ b) = (String.length a + String.length b)%nat.
Proof. induction a as [|c a IH]; cbn [String.length append]; [reflexivity | now rewrite IH]. Qed.

Lemma append_assoc_string (a b c : string) :
  (a ++ (b ++ c) = (a ++ b) ++ c)%string.
Proof. induction a as [|x a IH]; cbn [append]; [reflexivity | now rewrite IH]. Qed.

(** X20: of an address of ten characters or more, [formatAddress] shows the
    first six and the last four with three dots between; a text of four
    characters or fewer is shown whole on both sides of the dots. *)
Theorem formatAddress_keeps_both_ends :
  forall head middle tail short : string,
    (String.length head = 6%nat -> String.length tail = 4%nat ->
     formatAddress (head ++ middle ++ tail) = (head ++ "..." ++ tail)%string) /\
    ((String.length short <= 4)%nat ->
     formatAddress short = (short ++ "..." ++ short)%string).
Proof.
  intros head middle tail short. split.
  - intros Hh Ht. unfold formatAddress, sliceLast.
    rewrite <- Hh at 1. rewrite substring_prefix.
    rewrite (append_assoc_string head middle tail).
    replace (String.length ((head ++ middle) ++ tail) - 4)%nat
      with (String.length (head ++ middle))
      by (rewrite (length_append (head ++ middle) tail); lia).
    rewrite <- Ht at 1. now rewrite substring_suffix.
  - intros Hs. unfold formatAddress, sliceLast.
    replace (String.length short - 4)%nat with O by lia.
    rewrite !substring_whole by lia. reflexivity.
Qed.

Lemma formatAddress_keeps_both_ends_witness :
  formatAddress ("0xAbCd" ++ "Ef00000000000000000000000000000000" ++ "0001")
  = ("0xAbCd" ++ "..." ++ "0001")%string.
Proof.
  destruct (formatAddress_keeps_both_ends "0xAbCd"
              "Ef00000000000000000000000000000000" "0001" "abc") as [H _].
  apply H; reflexivity.
Defined.

End FormatFacts.

(** ** The theorems at the sample inputs *)

Section AtSamples.

Import WinnerTracker WinnerQueries MarketTracker Polling.

Lemma getTopWinners_entries_are_filed_witness :
  exists data,
    getMarketWinners Fixture.filed "market-1" = Some data /\
    In {| address := Fixture.carol; winningTokens := 60; payoutUSDC := 60 |}
       (winners data) /\
    "Yes"%string = winningOutcome data.
Proof.
  apply (getTopWinners_entries_are_filed Fixture.filed 1
           {| winner := {| address := Fixture.carol; winningTokens := 60;
                           payoutUSDC := 60 |};
              ofMarket := "market-1"; ofOutcome := "Yes" |}).
  - repeat constructor. simpl. tauto.
  - left. reflexivity.
Defined.

Lemma getWinnerStats_top_and_total_witness :
  totalWinners (getWinnerStats Fixture.filed) =
  Z.of_nat (List.length (allWinners Fixture.filed)).
Proof.
  destruct (getWinnerStats_top_and_total Fixture.filed) as (_ & _ & H).
  apply H.
  - intros k data [E|[]]. injection E as <- <-. reflexivity.
  - vm_compute. discriminate.
Defined.

Lemma queue_is_fifo_without_failures_witness :
  exists turns : nat,
    turns = (List.length (requestQueue Sample.loaded)
             + List.length (arrivalsBetween Fixture.steadyNetwork 0 turns))%nat /\
    (forall earlier, (earlier < turns)%nat ->
       (earlier < List.length (requestQueue Sample.loaded)
                  + List.length (arrivalsBetween Fixture.steadyNetwork 0 earlier))%nat) /\
    requestQueue (processQueue Fixture.steadyNetwork 20 Sample.loaded) = [] /\
    settledCallers (processQueue Fixture.steadyNetwork 20 Sample.loaded) =
      settledCallers Sample.loaded ++ callersOf (requestQueue Sample.loaded)
      ++ callersOf (arrivalsBetween Fixture.steadyNetwork 0 turns) /\
    List.length (dispatched (processQueue Fixture.steadyNetwork 20 Sample.loaded)) =
      (List.length (dispatched Sample.loaded)
       + List.length (requestQueue Sample.loaded)
       + List.length (arrivalsBetween Fixture.steadyNetwork 0 turns))%nat.
Proof.
  apply (queue_is_fifo_without_failures Fixture.steadyNetwork 20 1 Sample.loaded).
  - intros k target. exists "[]"%string. reflexivity.
  - reflexivity.
  - intros [|j] Hj; [lia | reflexivity].
  - vm_compute. lia.
Defined.

(** The steady run: the three queued callers in order, then the late one. *)
Example steady_run :
  settledCallers (processQueue Fixture.steadyNetwork 20 Sample.loaded)
  = [1%nat; 2%nat; 3%nat; 9%nat].
Proof. reflexivity. Qed.

Lemma parsed_counters_agree_witness :
  countersAgree (parseEventData Fixture.rawOpen).
Proof.
  destruct (parsed_counters_agree Fixture.rawOpen Fixture.onePage 3 JSMap.empty
              "e-1" (parseEventData Fixture.rawOpen)) as [_ H].
  apply H.
  - intros k0 e0. discriminate.
  - reflexivity.
Defined.

(** One poll of the sample page files both events as new. *)
Example one_page_polled :
  let result := trackActiveEvents Fixture.onePage 3 JSMap.empty in
  JSMap.keys (fst result) = ["e-1"%string; "e-2"%string] /\
  snd result = {| newCount := 2; updatedCount := 0 |}.
Proof. split; reflexivity. Qed.

End AtSamples.

(** ** The winners endpoint and failed verifications *)

Section ApiFacts.

Import WinnerTracker WinnerQueries Api.

Lemma getTopWinners_length_law (mw : JSMap.t WinnerData) (limit : Z) :
  0 < limit ->
  Z.of_nat (List.length (getTopWinners mw limit)) =
  Z.min limit (Z.of_nat (List.length (allWinners mw))).
Proof.
  intros Hpos. unfold getTopWinners, slice0.
  pose proof (Permutation_length (sortByPayout_perm (allWinners mw))) as Hlen.
  destruct (Z.ltb_spec limit 0); [lia|]. rewrite length_firstn, Hlen. lia.
Qed.

(** X21: without a market id, [/winners] answers 200 with the top winners
    and their number, which for a positive limit is the smaller of the limit
    and the number of winners on file; a limit of 0, like a limit that is
    not a number, is taken as 1000. With a market id it answers 404 exactly
    when no record is on file for that market, and the record otherwise. *)
Theorem handleWinners_answers :
  forall (marketWinners : JSMap.t WinnerData) (market : string) (parsedLimit : option Z),
    handleWinners marketWinners None (Some 0) = handleWinners marketWinners None None /\
    (exists top,
       handleWinners marketWinners None parsedLimit =
         {| statusCode := 200;
            body := TopBody top (Z.of_nat (List.length top)) (limitOf parsedLimit) |} /\
       top = getTopWinners marketWinners (limitOf parsedLimit) /\
       (0 < limitOf parsedLimit ->
        Z.of_nat (List.length top) =
        Z.min (limitOf parsedLimit)
              (Z.of_nat (List.length (allWinners marketWinners))))) /\
    (market <> EmptyString ->
     (statusCode (handleWinners marketWinners (Some market) parsedLimit) = 404 <->
      getMarketWinners marketWinners market = None) /\
     forall record, getMarketWinners marketWinners market = Some record ->
       handleWinners marketWinners (Some market) parsedLimit =
         {| statusCode := 200; body := RecordBody record |}).
Proof.
  intros mw market parsedLimit. split; [reflexivity|]. split.
  - eexists. split; [reflexivity|]. split; [reflexivity|].
    apply getTopWinners_length_law.
  - intros Hne. unfold handleWinners.
    destruct (String.eqb_spec market EmptyString); [contradiction|].
    destruct (getMarketWinners mw market) as [record|]; cbn [statusCode].
    + split; [split; discriminate|]. now intros r [= <-].
    + split; [split; reflexivity | discriminate].
Qed.

Lemma handleWinners_answers_witness :
  statusCode (handleWinners Fixture.filed (Some "market-2"%string) None) = 404.
Proof.
  destruct (handleWinners_answers Fixture.filed "market-2" None) as (_ & _ & H).
  destruct H as [H _]; [discriminate|]. apply H. reflexivity.
Defined.

(** X22: [verifyWinnerPayout] refuses with [Market winner data not found]
    for a market without a record on file, and after [trackMarketWinners]
    filed a record it refuses with [Address not found in winners list]
    every address that, letter case aside, is none of the record's
    winners. *)
Theorem unknown_market_or_address_is_refused :
  forall (p : Provider) (marketWinners marketWinners' : JSMap.t WinnerData)
         (market outcome_ : string) (block : option Z) (record : WinnerData)
         (other spelling : string),
    (getMarketWinners marketWinners other = None ->
     verifyWinnerPayout marketWinners other spelling =
       NotVerified "Market winner data not found") /\
    (trackMarketWinners p marketWinners market outcome_ block
       = (Some record, marketWinners') ->
     (forall w, In w (winners record) ->
        toLowerCase (address w) <> toLowerCase spelling) ->
     verifyWinnerPayout marketWinners' market spelling =
       NotVerified "Address not found in winners list").
Proof.
  intros p mw mw' market outcome_ block record other spelling. split.
  - unfold getMarketWinners, verifyWinnerPayout. now intros ->.
  - intros Ht Hnone.
    destruct (trackMarketWinners_filed p mw mw' market outcome_ block record Ht)
      as (-> & _).
    unfold verifyWinnerPayout. rewrite get_set_same.
    destruct (find (sameAddress spelling) (winners record)) as [w|] eqn:Hf;
      [|reflexivity].
    apply find_some in Hf as [Hin Hsame]. unfold sameAddress in Hsame.
    apply String.eqb_eq in Hsame. now destruct (Hnone w Hin).
Qed.

Lemma unknown_market_or_address_is_refused_witness :
  verifyWinnerPayout Fixture.filed "market-1" Sample.alice =
    NotVerified "Address not found in winners list".
Proof.
  destruct (unknown_market_or_address_is_refused Fixture.provider JSMap.empty
              Fixture.filed "market-1" "Yes" None
              {| marketId := "market-1"; winningOutcome := "Yes"; positionId := "7";
                 resolutionBlock := 30000;
                 winners := winnersOf [(Fixture.carol, 60); (Fixture.dave, 40)];
                 totalPayout := 100; winnerCount := 2;
                 timestamp := "2024-01-01T00:00:00.000Z" |}
              "market-9" Sample.alice) as [_ H].
  apply H; [reflexivity|].
  intros w [<-|[<-|[]]]; vm_compute; discriminate.
Defined.

(** X23: with [getPositionId] as the source defines it, a request to
    [/track-winners] that names a market and an outcome is answered with
    "initiated", yet no series of such requests files a record: the records
    on file stay as they were, and [/winners] keeps answering 404 for a
    market that had no record. *)
Theorem track_winners_files_nothing_as_shipped :
  forall (p : Provider) (marketWinners : JSMap.t WinnerData)
         (requests : list TrackQuery) (market outcome_ asked : string)
         (blockNumber : option Z),
    (market <> EmptyString -> outcome_ <> EmptyString ->
     fst (handleTrackWinners (asShipped p) marketWinners (Some market) (Some outcome_)
            blockNumber) = Initiated market outcome_ blockNumber) /\
    afterRequests (asShipped p) marketWinners requests = marketWinners /\
    (asked <> EmptyString ->
     getMarketWinners marketWinners asked = None ->
     statusCode (handleWinners (afterRequests (asShipped p) marketWinners requests)
                   (Some asked) None) = 404).
Proof.
  intros p mw requests market outcome_ asked blockNumber.
  assert (Hsame : forall reqs filed, afterRequests (asShipped p) filed reqs = filed).
  { induction reqs as [|q reqs IH]; intros filed; [reflexivity|].
    unfold afterRequests in *. cbn [fold_left]. rewrite IH.
    unfold handleTrackWinners.
    destruct (present (queryMarketId q)); [|reflexivity].
    destruct (present (queryOutcome q)); reflexivity. }
  split; [|split].
  - intros Hm Ho. unfold handleTrackWinners, present.
    destruct (String.eqb_spec market EmptyString); [contradiction|].
    destruct (String.eqb_spec outcome_ EmptyString); [contradiction|]. reflexivity.
  - apply Hsame.
  - intros Ha Hnone. rewrite Hsame. unfold handleWinners.
    destruct (String.eqb_spec asked EmptyString); [contradiction|].
    now rewrite Hnone.
Qed.

Lemma track_winners_files_nothing_as_shipped_witness :
  statusCode
    (handleWinners
       (afterRequests (asShipped Fixture.provider) JSMap.empty
          [{| queryMarketId := Some "market-1"%string;
              queryOutcome := Some "Yes"%string;
              queryBlockNumber := None |}])
       (Some "market-1"%string) None) = 404.
Proof.
  destruct (track_winners_files_nothing_as_shipped Fixture.provider JSMap.empty
              [{| queryMarketId := Some "market-1"%string;
                  queryOutcome := Some "Yes"%string;
                  queryBlockNumber := None |}]
              "market-1" "Yes" "market-1" None) as (_ & _ & H).
  apply H; [discriminate | reflexivity].
Defined.

End ApiFacts.
